(** * Verification of the vector-database client and ingestion pipeline

    Shallow embedding of [scripts/ingest-docs.ts] (chunker, identity
    assigner, path classifier) and of [src/lib/client.ts] (the
    [ProjectVectorDB] client: metadata flattening, query filter, backup
    codec, collection clearing).

    Conventions.
    - A JavaScript string is a [string]: one [ascii] per UTF-16 code unit,
      for code units below 256.
    - Character counts and indices are [Z]; [String.prototype.slice] is
      written out with its clamping of negative and oversized indices.
    - Similarity scores and distances are exact rationals ([Q]).
    - Exceptions are the [Throw] outcome of a state-and-exception monad;
      the state (client fields, store, file system) survives a throw, as
      it does in JavaScript. *)

From Stdlib Require Import ZArith String Ascii List Lia QArith Qabs Lqa Bool DecimalString.
From Stdlib Require DecimalPos DecimalZ.
From stdpp Require Import base option list gmap strings fin_maps.
Import ListNotations.

Local Open Scope string_scope.
Local Open Scope list_scope.
Local Open Scope Z_scope.

(** ** JavaScript strings *)

Module JsString.

Definition len (s : string) : Z := Z.of_nat (String.length s).

(** [s.slice(start, stop)]: a negative index counts from the end, every
    index is clamped into [0, s.length], an empty span gives [""]. *)
Definition slice (s : string) (start stop : Z) : string :=
  let from := if start <? 0 then Z.max (len s + start) 0 else Z.min start (len s) in
  let to := if stop <? 0 then Z.max (len s + stop) 0 else Z.min stop (len s) in
  substring (Z.to_nat from) (Z.to_nat (Z.max (to - from) 0)) s.

(** [s.slice(n)]: everything from index [n] on. *)
Definition drop (n : Z) (s : string) : string := slice s n (len s).

(** [parts.join("")] *)
Definition concat_all (parts : list string) : string :=
  fold_right String.append "" parts.

Lemma len_nonneg s : 0 <= len s.
Proof. unfold len. lia. Qed.

Lemma len_empty_iff s : len s = 0 <-> s = "".
Proof.
  unfold len. destruct s; simpl; split; intros H;
    first [reflexivity | discriminate | lia].
Qed.

Lemma substring_zero_len n s : substring n 0 s = "".
Proof.
  revert n. induction s as [|c s IH]; intros [|n]; simpl; auto.
Qed.

Lemma substring_whole s : substring 0 (String.length s) s = s.
Proof. induction s as [|c s IH]; simpl; [reflexivity | now rewrite IH]. Qed.

Lemma substring_past_end n m s :
  (String.length s <= n)%nat -> substring n m s = "".
Proof.
  revert n m. induction s as [|c s IH]; intros n m H; simpl in *.
  - destruct n, m; reflexivity.
  - destruct n as [|n]; [lia |]. apply IH. lia.
Qed.

Lemma substring_length n m s :
  String.length (substring n m s) = Nat.min m (String.length s - n).
Proof.
  revert n m. induction s as [|c s IH]; intros n m; simpl.
  - destruct n, m; simpl; lia.
  - destruct n as [|n].
    + destruct m as [|m]; simpl; [reflexivity |].
      rewrite IH. lia.
    + rewrite IH. simpl. reflexivity.
Qed.

(** Two adjacent windows glue into one. *)
Lemma substring_glue a n m s :
  substring a n s +:+ substring (a + n) m s = substring a (n + m) s.
Proof.
  revert a n m. induction s as [|c s IH]; intros a n m.
  - destruct a, n, m; reflexivity.
  - destruct a as [|a].
    + destruct n as [|n]; simpl.
      * reflexivity.
      * change (String c (substring 0 n s +:+ substring (0 + n) m s)
                = String c (substring 0 (n + m) s)).
        f_equal. apply (IH 0%nat n m).
    + simpl. apply IH.
Qed.

(** A window of a window is a window of the text. *)
Lemma substring_substring a n b m s :
  (b + m <= n)%nat ->
  substring b m (substring a n s) = substring (a + b) m s.
Proof.
  revert a n b m. induction s as [|c s IH]; intros a n b m H.
  - destruct a, n; simpl; destruct b, m; reflexivity.
  - destruct a as [|a].
    + destruct n as [|n].
      * assert (b = 0 /\ m = 0)%nat as [-> ->] by lia. reflexivity.
      * simpl substring at 2.
        destruct b as [|b].
        -- destruct m as [|m]; [reflexivity |].
           simpl. f_equal. apply (IH 0%nat n 0%nat m). lia.
        -- simpl. apply (IH 0%nat n b m). lia.
    + simpl. apply IH. exact H.
Qed.

Lemma slice_window s a b :
  0 <= a -> a <= b -> b <= len s ->
  slice s a b = substring (Z.to_nat a) (Z.to_nat (b - a)) s.
Proof.
  intros Ha Hab Hb. unfold slice.
  destruct (Z.ltb_spec a 0); [lia |].
  destruct (Z.ltb_spec b 0); [lia |].
  rewrite (Z.min_l a), (Z.min_l b), Z.max_l by lia. reflexivity.
Qed.

Lemma slice_whole s : slice s 0 (len s) = s.
Proof.
  rewrite slice_window by (pose proof (len_nonneg s); lia).
  rewrite Z.sub_0_r. unfold len. rewrite Nat2Z.id. apply substring_whole.
Qed.

Lemma slice_len s a b :
  0 <= a -> a <= b -> b <= len s -> len (slice s a b) = b - a.
Proof.
  intros Ha Hab Hb. rewrite slice_window by assumption.
  unfold len in *. rewrite substring_length. lia.
Qed.

Lemma slice_glue s a b c :
  0 <= a -> a <= b -> b <= c -> c <= len s ->
  slice s a b +:+ slice s b c = slice s a c.
Proof.
  intros Ha Hab Hbc Hc.
  rewrite !slice_window by lia.
  replace (Z.to_nat b) with (Z.to_nat a + Z.to_nat (b - a))%nat by lia.
  rewrite substring_glue. f_equal. lia.
Qed.

(** Dropping the first [o] code units of a window moves its start. *)
Lemma drop_slice s a b o :
  0 <= a -> 0 <= o -> a + o <= b -> b <= len s ->
  drop o (slice s a b) = slice s (a + o) b.
Proof.
  intros Ha Ho Hab Hb. unfold drop.
  assert (Hl : len (slice s a b) = b - a) by (apply slice_len; lia).
  rewrite (slice_window (slice s a b)) by lia.
  rewrite Hl. rewrite (slice_window s a b) by lia.
  rewrite substring_substring by lia.
  rewrite (slice_window s (a + o) b) by lia.
  f_equal; lia.
Qed.

End JsString.

(** ** The chunker: [createChunks] of scripts/ingest-docs.ts *)

Module Chunker.
Import JsString.

(** State of the [while] loop: [startIndex] and the [chunks] pushed so
    far, in push order. *)
Record loop_state := LoopState { startIndex : Z; chunks : list string }.

Inductive step_result :=
| Continue (st : loop_state)
| Return (result : list string).

(** One evaluation of the loop test followed by the loop body. *)
Definition chunk_step (text : string) (chunkSize overlap : Z)
    (st : loop_state) : step_result :=
  if startIndex st <? len text then
    let endIndex := Z.min (startIndex st + chunkSize) (len text) in
    let pushed := chunks st ++ [slice text (startIndex st) endIndex] in
    if endIndex >=? len text then Return pushed
    else Continue (LoopState (startIndex st + (chunkSize - overlap)) pushed)
  else Return (chunks st).

(** The loop, run for at most [fuel] iterations; [None] means that the
    loop is still running when the fuel is spent. *)
Fixpoint chunk_loop (fuel : nat) (text : string) (chunkSize overlap : Z)
    (st : loop_state) : option (list string) :=
  match fuel with
  | O => None
  | S fuel' =>
      match chunk_step text chunkSize overlap st with
      | Return result => Some result
      | Continue st' => chunk_loop fuel' text chunkSize overlap st'
      end
  end.

(** [!text] is true exactly for the empty string. *)
Definition createChunks (fuel : nat) (text : string) (chunkSize overlap : Z)
    : option (list string) :=
  if (String.eqb text "" || (len text <=? chunkSize))%bool then Some [text]
  else chunk_loop fuel text chunkSize overlap (LoopState 0 []).

(** Chunk 0 followed by every later chunk without its first [overlap]
    code units. *)
Definition reassemble (overlap : Z) (cs : list string) : string :=
  match cs with
  | [] => ""
  | first :: rest => first +:+ concat_all (map (drop overlap) rest)
  end.

(** The window the [i]-th chunk is expected to cover. *)
Definition window (text : string) (chunkSize overlap : Z) (i : nat) : string :=
  let start := Z.of_nat i * (chunkSize - overlap) in
  slice text start (Z.min (start + chunkSize) (len text)).

End Chunker.

Module ChunkerProofs.
Import JsString Chunker.

Lemma append_empty_r (s : string) : s +:+ "" = s.
Proof.
  induction s as [|c s IH]; [reflexivity |].
  change (String c (s +:+ "") = String c s). now rewrite IH.
Qed.

(** What the loop produces from a state whose start offset still lies
    at least [overlap] code units before the end of the text. *)
Lemma chunk_loop_windows text chunkSize overlap :
  0 <= overlap < chunkSize ->
  forall (fuel : nat) (start : Z) (acc : list string),
    0 <= start -> start + overlap < len text ->
    len text - start <= Z.of_nat fuel ->
    exists rest,
      chunk_loop fuel text chunkSize overlap (LoopState start acc) = Some (acc ++ rest)
      /\ (forall j, (j < length rest)%nat ->
            rest !! j =
              Some (slice text (start + Z.of_nat j * (chunkSize - overlap))
                      (Z.min (start + Z.of_nat j * (chunkSize - overlap) + chunkSize)
                             (len text))))
      /\ (forall j, (S j < length rest)%nat ->
            start + Z.of_nat j * (chunkSize - overlap) + chunkSize < len text)
      /\ (0 < length rest)%nat
      /\ len text <= start + Z.of_nat (length rest - 1) * (chunkSize - overlap) + chunkSize
      /\ concat_all (map (drop overlap) rest) = slice text (start + overlap) (len text).
Proof.
  intros Hco fuel.
  induction fuel as [|fuel IH]; intros start acc Hs Hso Hfuel.
  - lia.
  - cbn [chunk_loop]. unfold chunk_step. cbn [startIndex chunks].
    destruct (Z.ltb_spec start (len text)) as [_|Hge]; [| lia].
    destruct (Z.geb_spec (Z.min (start + chunkSize) (len text)) (len text)) as [Hend|Hmore].
    + (* the window reaches the end of the text: last chunk *)
      assert (Hle : len text <= start + chunkSize) by lia.
      rewrite Z.min_r by lia.
      exists [slice text start (len text)].
      split; [reflexivity |].
      split.
      { intros [|j] Hj; simpl in Hj; [| lia].
        cbn. rewrite Z.add_0_r. rewrite Z.min_r by lia. reflexivity. }
      split; [intros j Hj; simpl in Hj; lia |].
      split; [simpl; lia |].
      split; [simpl; lia |].
      cbn. rewrite append_empty_r. apply drop_slice; lia.
    + (* a full window; the loop goes on *)
      assert (Hlt : start + chunkSize < len text) by lia.
      rewrite Z.min_l by lia.
      destruct (IH (start + (chunkSize - overlap))
                   (acc ++ [slice text start (start + chunkSize)]))
        as (rest & Hrun & Hnth & Hfull & Hpos & Hlast & Hcat); try lia.
      exists (slice text start (start + chunkSize) :: rest).
      split; [rewrite Hrun, <- app_assoc; reflexivity |].
      split.
      { intros [|j] Hj.
        - cbn. rewrite Z.add_0_r, Z.min_l by lia. reflexivity.
        - cbn [length] in Hj. change ((slice text start (start + chunkSize) :: rest) !! S j)
            with (rest !! j).
          rewrite Hnth by lia. do 2 f_equal; lia. }
      split.
      { intros [|j] Hj.
        - lia.
        - cbn [length] in Hj. specialize (Hfull j ltac:(lia)). lia. }
      split; [simpl; lia |].
      split.
      { cbn [length]. replace (S (length rest) - 1)%nat with (S (length rest - 1)) by lia.
        lia. }
      cbn [map concat_all fold_right]. change (fold_right String.append "") with concat_all.
      rewrite Hcat.
      rewrite drop_slice by lia.
      replace (start + (chunkSize - overlap) + overlap) with (start + chunkSize) by lia.
      apply slice_glue; lia.
Qed.

(** A result, once reached, is reached with any larger fuel. *)
Lemma chunk_loop_more_fuel text chunkSize overlap fuel st r :
  chunk_loop fuel text chunkSize overlap st = Some r ->
  forall fuel', (fuel <= fuel')%nat ->
    chunk_loop fuel' text chunkSize overlap st = Some r.
Proof.
  revert st. induction fuel as [|fuel IH]; intros st H fuel' Hle; [discriminate |].
  destruct fuel' as [|fuel']; [lia |]. cbn [chunk_loop] in *.
  destruct (chunk_step text chunkSize overlap st); [| exact H].
  apply IH; [exact H | lia].
Qed.

(** With a non-positive advance the loop never leaves a start offset
    at or before 0, so it neither fails its test nor breaks. *)
Lemma chunk_loop_stuck text chunkSize overlap :
  text <> "" -> chunkSize < len text -> chunkSize <= overlap ->
  forall (fuel : nat) (start : Z) (acc : list string),
    start <= 0 ->
    chunk_loop fuel text chunkSize overlap (LoopState start acc) = None.
Proof.
  intros Hne Hlen Hov fuel.
  assert (Hpos : 0 < len text).
  { pose proof (len_nonneg text). pose proof (len_empty_iff text). 
    destruct (Z.eq_dec (len text) 0); [tauto | lia]. }
  induction fuel as [|fuel IH]; intros start acc Hstart; [reflexivity |].
  cbn [chunk_loop]. unfold chunk_step. cbn [startIndex chunks].
  destruct (Z.ltb_spec start (len text)); [| lia].
  destruct (Z.geb_spec (Z.min (start + chunkSize) (len text)) (len text)); [lia |].
  apply IH. lia.
Qed.

Lemma createChunks_diverges text chunkSize overlap :
  text <> "" -> chunkSize < len text -> chunkSize <= overlap ->
  forall fuel, createChunks fuel text chunkSize overlap = None.
Proof.
  intros Hne Hlen Hov fuel. unfold createChunks.
  destruct (String.eqb_spec text ""); [contradiction |].
  destruct (Z.leb_spec (len text) chunkSize); [lia |].
  cbn [orb]. apply chunk_loop_stuck; auto. lia.
Qed.

(** C1. For [0 <= overlap < chunkSize], [createChunks] returns (with any
    fuel of at least the text's length): the one-element list [[text]]
    when the text is no longer than [chunkSize] (the empty text
    included); otherwise the windows of length [chunkSize] at offsets
    [i * (chunkSize - overlap)], every chunk but the last a full window
    and the last one clipped at the end of the text.  In both cases chunk
    0 followed by the later chunks without their first [overlap] code
    units is the text, and a 1000-unit text with [chunkSize = 800],
    [overlap = 200] gives exactly the chunks [0,800) and [600,1000). *)
Theorem createChunks_windows text chunkSize overlap :
  0 <= overlap < chunkSize ->
  exists cs,
    (forall fuel, (String.length text <= fuel)%nat ->
       createChunks fuel text chunkSize overlap = Some cs)
    /\ (len text <= chunkSize -> cs = [text])
    /\ (chunkSize < len text ->
          (forall i, (i < length cs)%nat ->
             cs !! i = Some (window text chunkSize overlap i))
          /\ (forall i, (S i < length cs)%nat ->
                Z.of_nat i * (chunkSize - overlap) + chunkSize < len text)
          /\ (1 < length cs)%nat
          /\ len text
               <= Z.of_nat (length cs - 1) * (chunkSize - overlap) + chunkSize)
    /\ reassemble overlap cs = text
    /\ (len text = 1000 -> chunkSize = 800 -> overlap = 200 ->
          cs = [slice text 0 800; slice text 600 1000]).
Proof.
  intros Hco.
  destruct (Z.leb_spec (len text) chunkSize) as [Hshort|Hlong].
  - (* single-chunk shortcut *)
    exists [text]. split.
    { intros fuel _. unfold createChunks.
      destruct (Z.leb_spec (len text) chunkSize); [| lia].
      now rewrite orb_true_r. }
    split; [reflexivity |].
    split; [lia |].
    split; [cbn; apply append_empty_r |].
    lia.
  - (* sliding window *)
    assert (Hne : text <> "").
    { intros ->. unfold len in Hlong. simpl in Hlong. lia. }
    destruct (chunk_loop_windows text chunkSize overlap Hco
                (String.length text) 0 []) as (cs & Hrun & Hnth & Hfull & Hpos & Hlast & Hcat);
      try (unfold len in *; lia).
    exists cs.
    assert (Hwin : forall i, (i < length cs)%nat ->
               cs !! i = Some (window text chunkSize overlap i)).
    { intros i Hi. rewrite Hnth by exact Hi. unfold window.
      rewrite !Z.add_0_l. reflexivity. }
    assert (Hfull' : forall i, (S i < length cs)%nat ->
               Z.of_nat i * (chunkSize - overlap) + chunkSize < len text).
    { intros i Hi. specialize (Hfull i Hi). lia. }
    assert (Hmany : (1 < length cs)%nat).
    { destruct (Nat.eq_dec (length cs) 1%nat) as [E|]; [| lia].
      rewrite E in Hlast. simpl in Hlast. lia. }
    split.
    { intros fuel Hfuel. unfold createChunks.
      destruct (String.eqb_spec text ""); [contradiction |].
      destruct (Z.leb_spec (len text) chunkSize); [lia |].
      cbn [orb].
      rewrite (chunk_loop_more_fuel _ _ _ _ _ _ Hrun fuel Hfuel). reflexivity. }
    split; [lia |].
    split; [intros _; repeat split; assumption || lia |].
    split.
    { destruct cs as [|c0 cs]; [simpl in Hpos; lia |].
      cbn [reassemble].
      pose proof (Hwin 0%nat ltac:(simpl; lia)) as H0. cbn in H0.
      injection H0 as H0. unfold window in H0. cbn in H0.
      rewrite Z.min_l in H0 by lia.
      cbn [map concat_all fold_right] in Hcat.
      change (fold_right String.append "") with concat_all in Hcat.
      rewrite H0 in Hcat. rewrite drop_slice in Hcat by lia.
      assert (Hrest : concat_all (map (drop overlap) cs) = slice text chunkSize (len text)).
      { assert (Hsplit : slice text (0 + overlap) (len text)
                         = slice text (0 + overlap) chunkSize +:+ slice text chunkSize (len text))
          by (symmetry; apply slice_glue; lia).
        rewrite Hsplit in Hcat. rewrite Z.add_0_l in Hcat.
        eapply String.app_inj. exact Hcat. }
      rewrite Hrest, H0. rewrite slice_glue by lia. apply slice_whole. }
    intros Hl Hc Ho. subst chunkSize overlap.
    assert (Hlen2 : length cs = 2%nat).
    { destruct (Nat.eq_dec (length cs) 2%nat) as [E|NE]; [exact E |].
      specialize (Hfull' 1%nat ltac:(lia)). lia. }
    destruct cs as [|c0 [|c1 [|c2 cs]]]; try discriminate Hlen2.
    pose proof (Hwin 0%nat ltac:(simpl; lia)) as H0.
    pose proof (Hwin 1%nat ltac:(simpl; lia)) as H1.
    cbn in H0, H1. injection H0 as ->. injection H1 as ->.
    unfold window. rewrite Hl. reflexivity.
Qed.

(** The theorem at a ten-unit text cut into four chunks. *)
Lemma createChunks_windows_witness :
  (0 <= 2 < 4) /\
  exists cs,
    createChunks 10 "abcdefghij" 4 2 = Some cs
    /\ cs = ["abcd"; "cdef"; "efgh"; "ghij"]
    /\ reassemble 2 cs = "abcdefghij".
Proof.
  split; [lia |].
  destruct (createChunks_windows "abcdefghij" 4 2 ltac:(lia))
    as (cs & Hrun & _ & _ & Hre & _).
  exists cs. split; [apply Hrun; simpl; lia |].
  split; [| exact Hre].
  specialize (Hrun 10%nat ltac:(simpl; lia)).
  vm_compute in Hrun. congruence.
Defined.


End ChunkerProofs.


(** ** SHA-256 (FIPS 180-4), as [crypto.createHash('sha256')] computes it *)

Module Sha256.

Definition w32 (x : Z) : Z := Z.land x 0xFFFFFFFF.

Definition rotr (n x : Z) : Z :=
  Z.lor (Z.shiftr x n) (w32 (Z.shiftl x (32 - n))).

Definition Ch (x y z : Z) : Z := Z.lxor (Z.land x y) (Z.land (w32 (Z.lnot x)) z).
Definition Maj (x y z : Z) : Z :=
  Z.lxor (Z.lxor (Z.land x y) (Z.land x z)) (Z.land y z).
Definition Sigma0 (x : Z) : Z := Z.lxor (Z.lxor (rotr 2 x) (rotr 13 x)) (rotr 22 x).
Definition Sigma1 (x : Z) : Z := Z.lxor (Z.lxor (rotr 6 x) (rotr 11 x)) (rotr 25 x).
Definition sigma0 (x : Z) : Z := Z.lxor (Z.lxor (rotr 7 x) (rotr 18 x)) (Z.shiftr x 3).
Definition sigma1 (x : Z) : Z := Z.lxor (Z.lxor (rotr 17 x) (rotr 19 x)) (Z.shiftr x 10).

(** The first 64 primes. *)
Definition is_prime (n : Z) : bool :=
  (1 <? n) && forallb (fun d => negb (n mod Z.of_nat d =? 0)) (seq 2 (Z.to_nat n - 2)).

Definition primes : list Z :=
  Eval vm_compute in firstn 64 (List.filter is_prime (map Z.of_nat (seq 0 320))).

(** The integer part of a cube root, found bit by bit from the top. *)
Fixpoint cube_root (bits : nat) (found n : Z) : Z :=
  match bits with
  | O => found
  | S bits' =>
      let candidate := found + 2 ^ Z.of_nat bits' in
      if candidate * candidate * candidate <=? n then cube_root bits' candidate n
      else cube_root bits' found n
  end.

(** Round constants: the first 32 bits of the fractional parts of the
    cube roots of the first 64 primes. *)
Definition K : list Z :=
  Eval vm_compute in map (fun p => w32 (cube_root 40 0 (p * 2 ^ 96))) primes.

(** The eight working variables, also used for the chaining value. *)
Record regs := Regs { ra : Z; rb : Z; rc : Z; rd : Z; re : Z; rf : Z; rg : Z; rh : Z }.

(** Initial hash value: the first 32 bits of the fractional parts of the
    square roots of the first 8 primes. *)
Definition H0 : regs :=
  Eval vm_compute in
    match map (fun p => w32 (Z.sqrt (p * 2 ^ 64))) (firstn 8 primes) with
    | [a; b; c; d; e; f; g; h] => Regs a b c d e f g h
    | _ => Regs 0 0 0 0 0 0 0 0
    end.

Example K_ends : nth 0 K 0 = 0x428a2f98 /\ nth 63 K 0 = 0xc67178f2.
Proof. split; reflexivity. Qed.

Example H0_ends : ra H0 = 0x6a09e667 /\ rh H0 = 0x5be0cd19.
Proof. split; reflexivity. Qed.

(** Padding: a 1 bit, zeros up to 56 mod 64 bytes, the bit length on 8
    bytes, most significant byte first. *)
Definition be_bytes (n : nat) (x : Z) : list Z :=
  map (fun i => Z.land (Z.shiftr x (8 * Z.of_nat i)) 0xFF) (rev (seq 0 n)).

Definition pad (msg : list Z) : list Z :=
  let l := Z.of_nat (length msg) in
  let zeros := Z.to_nat ((55 - l) mod 64) in
  msg ++ [0x80] ++ repeat 0 zeros ++ be_bytes 8 (8 * l).

Fixpoint blocks (fuel : nat) (bytes : list Z) : list (list Z) :=
  match fuel, bytes with
  | S fuel', _ :: _ => firstn 64 bytes :: blocks fuel' (skipn 64 bytes)
  | _, _ => []
  end.

Fixpoint be_words (fuel : nat) (bytes : list Z) : list Z :=
  match fuel, bytes with
  | S fuel', b0 :: b1 :: b2 :: b3 :: rest =>
      (Z.shiftl b0 24 + Z.shiftl b1 16 + Z.shiftl b2 8 + b3) :: be_words fuel' rest
  | _, _ => []
  end.

(** Message schedule: 16 block words extended to 64. *)
Fixpoint extend (n : nat) (w : list Z) : list Z :=
  match n with
  | O => w
  | S n' =>
      let t := length w in
      let wt := w32 (sigma1 (nth (t - 2) w 0) + nth (t - 7) w 0
                     + sigma0 (nth (t - 15) w 0) + nth (t - 16) w 0) in
      extend n' (w ++ [wt])
  end.

Definition round (s : regs) (kw : Z * Z) : regs :=
  let t1 := w32 (rh s + Sigma1 (re s) + Ch (re s) (rf s) (rg s) + fst kw + snd kw) in
  let t2 := w32 (Sigma0 (ra s) + Maj (ra s) (rb s) (rc s)) in
  Regs (w32 (t1 + t2)) (ra s) (rb s) (rc s) (w32 (rd s + t1)) (re s) (rf s) (rg s).

Definition compress (h : regs) (block : list Z) : regs :=
  let w := extend 48 (be_words 16 block) in
  let s := fold_left round (combine K w) h in
  Regs (w32 (ra h + ra s)) (w32 (rb h + rb s)) (w32 (rc h + rc s)) (w32 (rd h + rd s))
       (w32 (re h + re s)) (w32 (rf h + rf s)) (w32 (rg h + rg s)) (w32 (rh h + rh s)).

Definition digest (msg : list Z) : regs :=
  let padded := pad msg in
  fold_left compress (blocks (length padded) padded) H0.

(** Lower-case hexadecimal, as [digest('hex')] prints it. *)
Definition hex_digit (n : Z) : ascii :=
  match Z.land n 15 with
  | 0 => "0" | 1 => "1" | 2 => "2" | 3 => "3" | 4 => "4" | 5 => "5" | 6 => "6" | 7 => "7"
  | 8 => "8" | 9 => "9" | 10 => "a" | 11 => "b" | 12 => "c" | 13 => "d" | 14 => "e"
  | _ => "f"
  end%char.

Definition hex_word (w : Z) (rest : string) : string :=
  String (hex_digit (Z.shiftr w 28)) (String (hex_digit (Z.shiftr w 24))
  (String (hex_digit (Z.shiftr w 20)) (String (hex_digit (Z.shiftr w 16))
  (String (hex_digit (Z.shiftr w 12)) (String (hex_digit (Z.shiftr w 8))
  (String (hex_digit (Z.shiftr w 4)) (String (hex_digit w) rest))))))).

Definition hex_of_regs (h : regs) : string :=
  hex_word (ra h) (hex_word (rb h) (hex_word (rc h) (hex_word (rd h)
  (hex_word (re h) (hex_word (rf h) (hex_word (rg h) (hex_word (rh h) ""))))))).

(** UTF-8 encoding of a string of code units below 256, which is what
    [hash.update(string)] hashes. *)
Definition utf8 (s : string) : list Z :=
  flat_map (fun c : ascii =>
              let n := Z.of_N (N_of_ascii c) in
              if n <? 128 then [n]
              else [Z.lor 0xC0 (Z.shiftr n 6); Z.lor 0x80 (Z.land n 0x3F)])
           (list_ascii_of_string s).

Definition sha256_hex (s : string) : string := hex_of_regs (digest (utf8 s)).

Example sha256_empty :
  sha256_hex "" = "e3b0c44298fc1c149afbf4c8996fb92427ae41e4649b934ca495991b7852b855".
Proof. vm_compute. reflexivity. Qed.

Example sha256_abc :
  sha256_hex "abc" = "ba7816bf8f01cfea414140de5dae2223b00361a396177a9cb410ff61f20015ad".
Proof. vm_compute. reflexivity. Qed.

(** Two blocks: 56 bytes of input push the length field into a second block. *)
Example sha256_two_blocks :
  sha256_hex "aaaaaaaaaaaaaaaaaaaaaaaaaaaaaaaaaaaaaaaaaaaaaaaaaaaaaaaa"
  = "b35439a4ac6f0948b6d6f9e3c6af0f5f590ce20f1bde7090ef7970686ec6738a".
Proof. vm_compute. reflexivity. Qed.

(** A message of exactly one block length (64 bytes) pads to two blocks. *)
Example sha256_block_length :
  sha256_hex "aaaaaaaaaaaaaaaaaaaaaaaaaaaaaaaaaaaaaaaaaaaaaaaaaaaaaaaaaaaaaaaa"
  = "ffe054fe7ae0cb6dc65c3af9b61d5209f439851db43d0ba5997337df154668eb".
Proof. vm_compute. reflexivity. Qed.

(** A code unit above 127 ("é", U+00E9) is hashed as two bytes. *)
Example sha256_latin1 :
  sha256_hex (String (ascii_of_N 233) "-1")
  = "ac09ccc36d141ca34c1420f0d859cf1fb19476e78b62951996c124c844848368".
Proof. vm_compute. reflexivity. Qed.

End Sha256.


(** ** The identity assigner: [generateChunkId] of scripts/ingest-docs.ts *)

Module IdentityAssigner.
Import JsString.

(** [s.substring(start, stop)]: both indices are clamped into
    [0, s.length] and swapped when out of order. *)
Definition js_substring (s : string) (start stop : Z) : string :=
  let a := Z.min (Z.max start 0) (len s) in
  let b := Z.min (Z.max stop 0) (len s) in
  substring (Z.to_nat (Z.min a b)) (Z.to_nat (Z.max a b - Z.min a b)) s.

(** [`${n}`] for an integer-valued number [n] (magnitude below 10^21):
    its decimal digits, with a leading minus sign when negative. *)
Definition Number_toString (n : Z) : string :=
  DecimalString.NilZero.string_of_int (Z.to_int n).

Definition generateChunkId (filePath : string) (chunkIndex : Z) : string :=
  let hash := Sha256.sha256_hex (filePath +:+ "-" +:+ Number_toString chunkIndex) in
  js_substring hash 0 16.

Definition is_hex (c : ascii) : bool :=
  existsb (Ascii.eqb c) (list_ascii_of_string "0123456789abcdef").

Example generateChunkId_readme_0 :
  generateChunkId "docs/readme.md" 0 = "8c0ac04d67e0cc0e".
Proof. vm_compute. reflexivity. Qed.

End IdentityAssigner.

Module IdentityAssignerProofs.
Import JsString Sha256 IdentityAssigner.

Lemma hex_digit_is_hex n : is_hex (hex_digit n) = true.
Proof.
  unfold hex_digit.
  destruct (Z.land n 15) as [|p|p]; try reflexivity.
  do 4 (try destruct p as [p|p|]; try reflexivity).
Qed.

Lemma hex_word_split w rest :
  exists d0 d1 d2 d3 d4 d5 d6 d7,
    hex_word w rest
    = String d0 (String d1 (String d2 (String d3 (String d4 (String d5
        (String d6 (String d7 rest)))))))
    /\ Forall (fun d => is_hex d = true) [d0; d1; d2; d3; d4; d5; d6; d7].
Proof.
  do 8 eexists. split; [reflexivity |].
  repeat constructor; apply hex_digit_is_hex.
Qed.

(** The first 16 characters of a printed digest. *)
Lemma hex_of_regs_prefix (r : regs) :
  exists id tail,
    hex_of_regs r = id +:+ tail
    /\ js_substring (hex_of_regs r) 0 16 = id
    /\ String.length id = 16%nat
    /\ String.length tail = 48%nat
    /\ Forall (fun c => is_hex c = true) (list_ascii_of_string id).
Proof.
  destruct r as [a b c d e f g h]. unfold hex_of_regs. cbn [ra rb rc rd re rf rg rh].
  destruct (hex_word_split a (hex_word b (hex_word c (hex_word d
             (hex_word e (hex_word f (hex_word g (hex_word h ""))))))))
    as (a0 & a1 & a2 & a3 & a4 & a5 & a6 & a7 & -> & Ha).
  destruct (hex_word_split b (hex_word c (hex_word d
             (hex_word e (hex_word f (hex_word g (hex_word h "")))))))
    as (b0 & b1 & b2 & b3 & b4 & b5 & b6 & b7 & -> & Hb).
  assert (Hlen : String.length (hex_word c (hex_word d
             (hex_word e (hex_word f (hex_word g (hex_word h "")))))) = 48%nat)
    by reflexivity.
  set (tail := hex_word c _) in *.
  exists (String a0 (String a1 (String a2 (String a3 (String a4 (String a5 (String a6
            (String a7 (String b0 (String b1 (String b2 (String b3 (String b4 (String b5
            (String b6 (String b7 "")))))))))))))))), tail.
  split; [reflexivity |].
  split.
  { unfold js_substring, len. cbn [String.length]. rewrite Hlen.
    cbn. destruct tail; reflexivity. }
  split; [reflexivity |].
  split; [exact Hlen |].
  cbn [list_ascii_of_string].
  inversion Ha as [|? ? ? Ha1]; subst. inversion Ha1 as [|? ? ? Ha2]; subst.
  inversion Ha2 as [|? ? ? Ha3]; subst. inversion Ha3 as [|? ? ? Ha4]; subst.
  inversion Ha4 as [|? ? ? Ha5]; subst. inversion Ha5 as [|? ? ? Ha6]; subst.
  inversion Ha6 as [|? ? ? Ha7]; subst. inversion Ha7 as [|? ? ? Ha8]; subst.
  repeat (constructor; [assumption |]). exact Hb.
Qed.

(** C3. [generateChunkId] returns the first 16 characters of the
    hexadecimal SHA-256 digest of ["{filePath}-{chunkIndex}"]: the digest
    is the id followed by 48 more characters, the id has length 16, all
    of it hexadecimal digits, and equal inputs give the identical id. *)
Theorem generateChunkId_digest_prefix filePath chunkIndex :
  let id := generateChunkId filePath chunkIndex in
  (exists tail,
     sha256_hex (filePath +:+ "-" +:+ Number_toString chunkIndex) = id +:+ tail
     /\ String.length tail = 48%nat)
  /\ String.length id = 16%nat
  /\ Forall (fun c => is_hex c = true) (list_ascii_of_string id)
  /\ (forall filePath' chunkIndex',
        filePath' = filePath -> chunkIndex' = chunkIndex ->
        generateChunkId filePath' chunkIndex' = id).
Proof.
  cbv zeta. unfold generateChunkId, sha256_hex.
  destruct (hex_of_regs_prefix
              (digest (utf8 (filePath +:+ "-" +:+ Number_toString chunkIndex))))
    as (id & tail & Hsplit & Hid & Hlid & Hltail & Hhex).
  rewrite Hid.
  split; [exists tail; split; assumption |].
  split; [assumption |].
  split; [assumption |].
  intros filePath' chunkIndex' -> ->. exact Hid.
Qed.

End IdentityAssignerProofs.


(** ** The path classifier: [inferCategory] and [inferPriority] of
    scripts/ingest-docs.ts *)

Module Classifier.

(** [s.toLowerCase()] on code units below 256: A-Z and the Latin-1
    capitals U+00C0..U+00DE (the multiplication sign U+00D7 apart) move
    up by 32, every other code unit stays. *)
Definition lower_unit (c : ascii) : ascii :=
  let n := N_of_ascii c in
  if ((65 <=? n) && (n <=? 90))%N then ascii_of_N (n + 32)
  else if ((192 <=? n) && (n <=? 222) && negb (n =? 215))%N then ascii_of_N (n + 32)
  else c.

Fixpoint toLowerCase (s : string) : string :=
  match s with
  | "" => ""
  | String c s' => String (lower_unit c) (toLowerCase s')
  end.

(** [s.includes(needle)] *)
Fixpoint includes (s needle : string) : bool :=
  String.prefix needle s
  || match s with
     | "" => false
     | String _ s' => includes s' needle
     end.

(** [s.split(sep)] for a one-unit separator; never the empty list. *)
Fixpoint split (sep : ascii) (s : string) : list string :=
  match s with
  | "" => [""]
  | String c s' =>
      if Ascii.eqb c sep then "" :: split sep s'
      else match split sep s' with
           | [] => [String c ""]
           | piece :: pieces => String c piece :: pieces
           end
  end.

Section WithPath.

(** Node's [path.relative] and [path.sep] (["/"] on POSIX, a backslash on
    Windows) are the runtime's. *)
Variable path_relative : string -> string -> string.
Variable path_sep : ascii.

Definition inferCategory (filePath : string) : string :=
  let relativePath := toLowerCase (path_relative "docs" filePath) in
  if includes relativePath "architecture" then "architecture"
  else if includes relativePath "chatbot" then "chatbot"
  else if includes relativePath "design" then "design"
  else if includes relativePath "implementation" then "implementation-plans"
  else if includes relativePath "roadmap" then "roadmaps"
  else if includes relativePath "research" then "research"
  else if includes relativePath "testing" then "testing"
  else if includes relativePath "audit" then "audits"
  else if includes relativePath "eval" then "evaluations"
  else if includes relativePath "css" || includes relativePath "style" then "styling"
  else if includes relativePath "animation" then "animation"
  else if includes relativePath "migration" then "migrations"
  else if includes relativePath "content" then "content"
  else if includes relativePath "feature" then "features"
  else if includes relativePath "_archive" then "archive"
  else
    (* Check first directory level *)
    let dirs := split path_sep relativePath in
    match dirs with
    | first :: _ => first          (* dirs.length > 0: return dirs[0] *)
    | [] => "general"
    end.

Definition inferPriority (filePath : string) : Z :=
  let relativePath := toLowerCase (path_relative "docs" filePath) in
  (* High priority files *)
  if includes relativePath "claude.md" then 100
  else if includes relativePath "readme" then 95
  else if includes relativePath "current" then 95
  else if includes relativePath "quick-reference" then 90
  else if includes relativePath "implementation-plan" then 85
  (* Medium priority *)
  else if includes relativePath "architecture" then 80
  else if includes relativePath "design" then 75
  else if includes relativePath "roadmap" then 75
  else if includes relativePath "testing" then 70
  (* Lower priority *)
  else if includes relativePath "_archive" then 30
  else if includes relativePath "old" then 35
  else if includes relativePath "deprecated" then 35
  (* Default *)
  else 60.

End WithPath.

(** The fixed check order as tables: each rule lists the substrings it
    recognizes and the value it returns. *)
Definition category_rules : list (list string * string) :=
  [ (["architecture"], "architecture"); (["chatbot"], "chatbot");
    (["design"], "design"); (["implementation"], "implementation-plans");
    (["roadmap"], "roadmaps"); (["research"], "research");
    (["testing"], "testing"); (["audit"], "audits"); (["eval"], "evaluations");
    (["css"; "style"], "styling"); (["animation"], "animation");
    (["migration"], "migrations"); (["content"], "content");
    (["feature"], "features"); (["_archive"], "archive") ].

Definition priority_rules : list (list string * Z) :=
  [ (["claude.md"], 100); (["readme"], 95); (["current"], 95);
    (["quick-reference"], 90); (["implementation-plan"], 85);
    (["architecture"], 80); (["design"], 75); (["roadmap"], 75);
    (["testing"], 70); (["_archive"], 30); (["old"], 35); (["deprecated"], 35) ].

Definition recognizes (relativePath : string) (needles : list string) : bool :=
  existsb (includes relativePath) needles.

(** The value of the first rule that recognizes the path. *)
Fixpoint first_match {A} (rules : list (list string * A)) (relativePath : string)
    : option A :=
  match rules with
  | [] => None
  | (needles, value) :: rules' =>
      if recognizes relativePath needles then Some value
      else first_match rules' relativePath
  end.

(** POSIX [path.relative(from, to)] with the working directory [cwd]:
    both paths are resolved against [cwd] and normalized, their common
    leading segments are dropped, every remaining segment of [from]
    becomes [".."]. *)
Module Posix.

Definition normalize (segments : list string) : list string :=
  fold_left (fun acc seg =>
               if String.eqb seg "" || String.eqb seg "." then acc
               else if String.eqb seg ".." then removelast acc
               else acc ++ [seg]) segments [].

Definition resolve (cwd p : string) : list string :=
  if String.prefix "/" p then normalize (split "/" p)
  else normalize (split "/" cwd ++ split "/" p).

Fixpoint strip_common (from to : list string) : list string * list string :=
  match from, to with
  | f :: from', t :: to' =>
      if String.eqb f t then strip_common from' to' else (from, to)
  | _, _ => (from, to)
  end.

Definition join (sep : string) (parts : list string) : string :=
  match parts with
  | [] => ""
  | p :: ps => fold_left (fun acc q => acc +:+ sep +:+ q) ps p
  end.

Definition relative (cwd from to : string) : string :=
  let '(up, down) := strip_common (resolve cwd from) (resolve cwd to) in
  join "/" (map (fun _ => "..") up ++ down).

Example relative_docs_nested :
  relative "/home/me/project" "docs" "/home/me/project/docs/guides/Setup.md"
  = "guides/Setup.md".
Proof. vm_compute. reflexivity. Qed.

Example relative_docs_outside :
  relative "/home/me/project" "docs" "CLAUDE.md" = "../CLAUDE.md".
Proof. vm_compute. reflexivity. Qed.

End Posix.

Example toLowerCase_ascii : toLowerCase "Docs/README.md" = "docs/readme.md".
Proof. reflexivity. Qed.

Example split_path : split "/" "guides/setup.md" = ["guides"; "setup.md"].
Proof. reflexivity. Qed.

Example split_empty : split "/" "" = [""].
Proof. reflexivity. Qed.

End Classifier.

Module ClassifierProofs.
Import Classifier.

Lemma first_match_at {A} (rules : list (list string * A)) rel i needles value :
  rules !! i = Some (needles, value) ->
  recognizes rel needles = true ->
  (forall j ns v, (j < i)%nat -> rules !! j = Some (ns, v) -> recognizes rel ns = false) ->
  first_match rules rel = Some value.
Proof.
  revert i. induction rules as [|[ns v] rules IH]; intros i Hi Hrec Hbefore.
  - discriminate.
  - destruct i as [|i]; cbn in Hi |- *.
    + injection Hi as -> ->. now rewrite Hrec.
    + rewrite (Hbefore 0%nat ns v) by (lia || reflexivity).
      apply (IH i Hi Hrec).
      intros j ns' v' Hj Hl. apply (Hbefore (S j) ns' v'); [lia | exact Hl].
Qed.

Lemma first_match_none {A} (rules : list (list string * A)) rel :
  (forall ns v, In (ns, v) rules -> recognizes rel ns = false) ->
  first_match rules rel = None.
Proof.
  induction rules as [|[ns v] rules IH]; intros H; [reflexivity |].
  cbn. rewrite (H ns v) by (left; reflexivity).
  apply IH. intros ns' v' Hin. apply (H ns' v'). right. exact Hin.
Qed.

(** The chain of [if]s of [inferCategory] is the table walked in order. *)
Lemma inferCategory_table path_relative path_sep filePath :
  inferCategory path_relative path_sep filePath
  = match first_match category_rules (toLowerCase (path_relative "docs" filePath)) with
    | Some category => category
    | None =>
        match split path_sep (toLowerCase (path_relative "docs" filePath)) with
        | first :: _ => first
        | [] => "general"
        end
    end.
Proof.
  unfold inferCategory, category_rules, first_match, recognizes, existsb.
  repeat (destruct (includes _ _); cbn [orb]; try reflexivity).
Qed.

Lemma inferPriority_table path_relative filePath :
  inferPriority path_relative filePath
  = match first_match priority_rules (toLowerCase (path_relative "docs" filePath)) with
    | Some priority => priority
    | None => 60
    end.
Proof.
  unfold inferPriority, priority_rules, first_match, recognizes, existsb.
  repeat (destruct (includes _ _); cbn [orb]; try reflexivity).
Qed.

Lemma split_nonempty sep s : split sep s <> [].
Proof.
  destruct s as [|c s]; cbn; [discriminate |].
  destruct (Ascii.eqb c sep); [discriminate |].
  destruct (split sep s); discriminate.
Qed.

(** The first piece of a split is the text before the first separator. *)
Lemma split_first_segment sep d rest :
  includes d (String sep "") = false ->
  split sep (d +:+ String sep rest) = d :: split sep rest.
Proof.
  induction d as [|c d IH]; intros Hd.
  - change ("" +:+ String sep rest) with (String sep rest).
    cbn [split]. now rewrite Ascii.eqb_refl.
  - change (String c d +:+ String sep rest) with (String c (d +:+ String sep rest)).
    cbn [split]. cbn [includes String.prefix] in Hd.
    apply orb_false_iff in Hd as [Hc Hd].
    destruct (Ascii.eqb_spec c sep) as [->|Hne].
    + destruct (ascii_dec sep sep); [| contradiction].
      destruct d; discriminate Hc.
    + rewrite (IH Hd). reflexivity.
Qed.

(** C6, in the form the code satisfies. Let [relativePath] be the lower-cased path relative
    to [docs].  A category rule that recognizes it, with no earlier rule
    recognizing it, decides [inferCategory]; likewise for [inferPriority].
    When no category rule recognizes a path that lies in a directory,
    [inferCategory] returns its first directory level; when no priority
    rule recognizes the path, [inferPriority] returns 60. *)
Theorem classifier_first_match_and_defaults
    (path_relative : string -> string -> string) (path_sep : ascii) (filePath : string) :
  let relativePath := toLowerCase (path_relative "docs" filePath) in
  (forall i needles category,
     category_rules !! i = Some (needles, category) ->
     recognizes relativePath needles = true ->
     (forall j ns c, (j < i)%nat -> category_rules !! j = Some (ns, c) ->
                     recognizes relativePath ns = false) ->
     inferCategory path_relative path_sep filePath = category)
  /\ (forall i needles priority,
        priority_rules !! i = Some (needles, priority) ->
        recognizes relativePath needles = true ->
        (forall j ns p, (j < i)%nat -> priority_rules !! j = Some (ns, p) ->
                        recognizes relativePath ns = false) ->
        inferPriority path_relative filePath = priority)
  /\ ((forall ns c, In (ns, c) category_rules -> recognizes relativePath ns = false) ->
      forall directory rest,
        relativePath = directory +:+ String path_sep rest ->
        includes directory (String path_sep "") = false ->
        inferCategory path_relative path_sep filePath = directory)
  /\ ((forall ns p, In (ns, p) priority_rules -> recognizes relativePath ns = false) ->
      inferPriority path_relative filePath = 60).
Proof.
  intros relativePath. repeat split.
  - intros i needles category Hi Hrec Hbefore.
    rewrite inferCategory_table. fold relativePath.
    now rewrite (first_match_at _ _ _ _ _ Hi Hrec Hbefore).
  - intros i needles priority Hi Hrec Hbefore.
    rewrite inferPriority_table. fold relativePath.
    now rewrite (first_match_at _ _ _ _ _ Hi Hrec Hbefore).
  - intros Hnone directory rest Hrel Hdir.
    rewrite inferCategory_table. fold relativePath.
    rewrite (first_match_none _ _ Hnone), Hrel.
    now rewrite split_first_segment.
  - intros Hnone.
    rewrite inferPriority_table. fold relativePath.
    now rewrite (first_match_none _ _ Hnone).
Qed.

(** The theorem at three paths below [/home/me/project/docs]: one that two
    category rules recognize, one in an unrecognized directory, and one
    that two priority rules recognize. *)
Lemma classifier_first_match_and_defaults_witness :
  let rel := Posix.relative "/home/me/project" in
  inferCategory rel "/" "/home/me/project/docs/Design/Style-Guide.md" = "design"
  /\ inferCategory rel "/" "/home/me/project/docs/guides/setup.md" = "guides"
  /\ inferPriority rel "/home/me/project/docs/guides/setup.md" = 60
  /\ inferPriority rel "/home/me/project/docs/architecture/README.md" = 95.
Proof.
  intros rel.
  destruct (classifier_first_match_and_defaults rel "/"
              "/home/me/project/docs/Design/Style-Guide.md") as (Hc1 & _).
  destruct (classifier_first_match_and_defaults rel "/"
              "/home/me/project/docs/guides/setup.md") as (_ & _ & Hc2 & Hp2).
  destruct (classifier_first_match_and_defaults rel "/"
              "/home/me/project/docs/architecture/README.md") as (_ & Hp3 & _).
  split.
  { apply (Hc1 2%nat ["design"] "design"); [reflexivity | vm_compute; reflexivity |].
    intros [|[|j]] ns c Hj Hl; [| | lia];
      cbn in Hl; injection Hl as <- <-; vm_compute; reflexivity. }
  split.
  { apply (Hc2 ltac:(intros ns c Hin; cbn in Hin;
                     repeat (destruct Hin as [Hin|Hin];
                             [injection Hin as <- <-; vm_compute; reflexivity |]);
                     contradiction) "guides" "setup.md");
      vm_compute; reflexivity. }
  split.
  { apply Hp2. intros ns p Hin; cbn in Hin.
    repeat (destruct Hin as [Hin|Hin];
            [injection Hin as <- <-; vm_compute; reflexivity |]).
    contradiction. }
  apply (Hp3 1%nat ["readme"] 95); [reflexivity | vm_compute; reflexivity |].
  intros [|j] ns p Hj Hl; [| lia].
  cbn in Hl; injection Hl as <- <-; vm_compute; reflexivity.
Defined.

(** C6 as stated fails: [docs/guides/setup.md] contains none of the
    recognized category substrings, yet its category is its first
    directory level, ["guides"], not ["general"]. *)
Lemma inferCategory_default_counterexample :
  let filePath := "/home/me/project/docs/guides/setup.md" in
  let relativePath := toLowerCase (Posix.relative "/home/me/project" "docs" filePath) in
  forallb (fun rule => negb (recognizes relativePath (fst rule))) category_rules = true
  /\ forallb (fun rule => negb (recognizes filePath (fst rule))) category_rules = true
  /\ inferCategory (Posix.relative "/home/me/project") "/" filePath = "guides"
  /\ inferCategory (Posix.relative "/home/me/project") "/" filePath <> "general".
Proof.
  cbv zeta. split; [vm_compute; reflexivity |].
  split; [vm_compute; reflexivity |].
  split; [vm_compute; reflexivity |].
  vm_compute. discriminate.
Qed.

(** The final [return 'general'] is dead code: a split is never empty, so
    a file directly under [docs] gets its own name as category. *)
Lemma inferCategory_top_level_file :
  inferCategory (Posix.relative "/home/me/project") "/" "/home/me/project/docs/notes.md"
  = "notes.md".
Proof. vm_compute. reflexivity. Qed.

End ClassifierProofs.


(** ** JavaScript values and exceptions *)

Module Js.

(** The values a metadata mapping or a parsed JSON text can hold.  A
    [Date] carries its time value in milliseconds since the epoch, [None]
    for an invalid date. *)
#[warnings="-register-all"]
Inductive value :=
| VUndefined
| VNull
| VBool (b : bool)
| VNum (n : Q)
| VStr (s : string)
| VArray (elems : list value)
| VDate (time : option Z)
| VObject (fields : gmap string value).

Inductive error :=
| JsError (message : string)       (* throw new Error(message) *)
| InitFailed (cause : error)       (* Error(`Failed to initialize vector DB: ${error}`) *)
| SyntaxError                      (* JSON.parse on malformed text *)
| TypeError                        (* property access on null or undefined *)
| RangeError                       (* toISOString on an invalid date *)
| BackendError (reason : string)   (* rejected by the vector store *)
| EmbeddingError.                  (* the embedding generator failed *)

Inductive outcome (A : Type) :=
| Ok (a : A)
| Throw (e : error).
Arguments Ok {A} a.
Arguments Throw {A} e.

(** [parts.join(sep)] on strings. *)
Fixpoint join_strings (sep : string) (parts : list string) : string :=
  match parts with
  | [] => ""
  | [p] => p
  | p :: ps => p +:+ sep +:+ join_strings sep ps
  end.

Definition is_scalar (v : value) : bool :=
  match v with
  | VBool _ | VNum _ | VStr _ => true
  | _ => false
  end.

Section Printing.

(** Number and date printing are the runtime's. *)
Variable Number_toString : Q -> string.
Variable Date_toString : Z -> string.

(** [String(v)]; inside an array, [undefined] and [null] print as the
    empty string. *)
Fixpoint ToString (v : value) : string :=
  match v with
  | VUndefined => "undefined"
  | VNull => "null"
  | VBool true => "true"
  | VBool false => "false"
  | VNum n => Number_toString n
  | VStr s => s
  | VArray elems =>
      join_strings ","
        (map (fun e => match e with
                       | VUndefined | VNull => ""
                       | _ => ToString e
                       end) elems)
  | VDate (Some t) => Date_toString t
  | VDate None => "Invalid Date"
  | VObject _ => "[object Object]"
  end.

(** [elems.join(sep)] *)
Definition Array_join (sep : string) (elems : list value) : string :=
  join_strings sep
    (map (fun e => match e with
                   | VUndefined | VNull => ""
                   | _ => ToString e
                   end) elems).

End Printing.

End Js.

(** ** Metadata flattening: [ProjectVectorDB.sanitizeMetadata] *)

Module Sanitizer.
Import Js.

Section WithRuntime.

Variable Number_toString : Q -> string.
Variable Date_toString : Z -> string.
(** [new Date(t).toISOString()] for a valid time value [t]. *)
Variable Date_toISOString : Z -> string.

(** One iteration of the [for ... of Object.entries(metadata)] loop. *)
Definition sanitize_entry (sanitized : gmap string value) (key : string) (v : value)
    : outcome (gmap string value) :=
  match v with
  | VNull | VUndefined =>
      (* Skip null/undefined values *)
      Ok sanitized
  | VArray elems =>
      (* Convert arrays to comma-separated strings *)
      Ok (<[key := VStr (Array_join Number_toString Date_toString "," elems)]> sanitized)
  | VDate (Some t) =>
      (* Convert dates to ISO strings *)
      Ok (<[key := VStr (Date_toISOString t)]> sanitized)
  | VDate None => Throw RangeError
  | VObject _ =>
      (* Skip complex objects *)
      Ok sanitized
  | VBool _ | VNum _ | VStr _ =>
      (* Keep strings, numbers, booleans *)
      Ok (<[key := v]> sanitized)
  end.

Fixpoint sanitize_entries (entries : list (string * value))
    (sanitized : gmap string value) : outcome (gmap string value) :=
  match entries with
  | [] => Ok sanitized
  | (key, v) :: rest =>
      match sanitize_entry sanitized key v with
      | Ok sanitized' => sanitize_entries rest sanitized'
      | Throw e => Throw e
      end
  end.

Definition sanitizeMetadata (metadata : gmap string value)
    : outcome (gmap string value) :=
  sanitize_entries (map_to_list metadata) ∅.

End WithRuntime.

End Sanitizer.

Module SanitizerProofs.
Import Js Sanitizer.

Section WithRuntime.

Variable Number_toString : Q -> string.
Variable Date_toString : Z -> string.
Variable Date_toISOString : Z -> string.

Local Abbreviation sanitize_entry := (sanitize_entry Number_toString Date_toString Date_toISOString).
Local Abbreviation sanitize_entries := (sanitize_entries Number_toString Date_toString Date_toISOString).
Local Abbreviation sanitizeMetadata := (sanitizeMetadata Number_toString Date_toString Date_toISOString).
Local Abbreviation Array_join := (Array_join Number_toString Date_toString).

(** What one entry does to the slot of its key. *)
Definition entry_effect (old : option value) (v : value) : option value :=
  match v with
  | VNull | VUndefined | VObject _ | VDate None => old
  | VArray elems => Some (VStr (Array_join "," elems))
  | VDate (Some t) => Some (VStr (Date_toISOString t))
  | VBool _ | VNum _ | VStr _ => Some v
  end.

Lemma sanitize_entry_ok sanitized key v :
  v <> VDate None ->
  exists sanitized',
    sanitize_entry sanitized key v = Ok sanitized'
    /\ sanitized' !! key = entry_effect (sanitized !! key) v
    /\ (forall k, k <> key -> sanitized' !! k = sanitized !! k).
Proof.
  intros Hv.
  destruct v as [| | b | n | s | elems | [t|] | fields]; cbn;
    try (eexists; split; [reflexivity |]; split;
         [first [apply lookup_insert_eq | reflexivity]
         | intros k Hk; first [now apply lookup_insert_ne | reflexivity]]).
  contradiction.
Qed.

Lemma sanitize_entry_throws sanitized key v e :
  sanitize_entry sanitized key v = Throw e -> e = RangeError /\ v = VDate None.
Proof.
  destruct v as [| | b | n | s | elems | [t|] | fields]; cbn; intros H;
    try discriminate H.
  injection H as <-. split; reflexivity.
Qed.

Lemma sanitize_entries_spec entries :
  NoDup entries.*1 ->
  forall init,
    match sanitize_entries entries init with
    | Ok sanitized =>
        (forall key v, (key, v) ∈ entries ->
           v <> VDate None /\ sanitized !! key = entry_effect (init !! key) v)
        /\ (forall key, key ∉ entries.*1 -> sanitized !! key = init !! key)
    | Throw e => e = RangeError /\ exists key, (key, VDate None) ∈ entries
    end.
Proof.
  induction entries as [|[key v] rest IH]; intros Hnd init.
  - cbn. split; [intros key v Hin; inversion Hin | reflexivity].
  - cbn [fmap list_fmap fst] in Hnd. apply NoDup_cons in Hnd as [Hfresh Hnd].
    cbn [Sanitizer.sanitize_entries].
    destruct (sanitize_entry init key v) as [init'|e] eqn:Hstep.
    + assert (Hv : v <> VDate None).
      { intros ->. cbn in Hstep. discriminate. }
      destruct (sanitize_entry_ok init key v Hv) as (init'' & Hok & Hkey & Hother).
      rewrite Hok in Hstep. injection Hstep as ->.
      specialize (IH Hnd init').
      destruct (sanitize_entries rest init') as [sanitized|e].
      * destruct IH as [Hin Hout]. split.
        -- intros k w Hkw. apply elem_of_cons in Hkw as [Heq|Hrest].
           ++ injection Heq as -> ->. split; [exact Hv |].
              rewrite (Hout key Hfresh). exact Hkey.
           ++ destruct (Hin k w Hrest) as [Hw Hlook]. split; [exact Hw |].
              rewrite Hlook, Hother; [reflexivity |].
              intros ->. apply Hfresh. apply list_elem_of_fmap.
              exists (key, w). split; [reflexivity | exact Hrest].
        -- intros k Hk. cbn [fmap list_fmap fst] in Hk.
           apply not_elem_of_cons in Hk as [Hne Hk].
           rewrite (Hout k Hk). now apply Hother.
      * destruct IH as [-> [k Hk]]. split; [reflexivity |].
        exists k. apply elem_of_cons. now right.
    + apply sanitize_entry_throws in Hstep as [-> ->].
      split; [reflexivity |]. exists key. apply elem_of_cons. now left.
Qed.


End WithRuntime.

End SanitizerProofs.


(** ** The vector store and the file system

    The store is the external service behind [ChromaClient]; its
    operations are modelled after the interface the client consumes:
    named collections of records keyed by id, bulk insertion by id, a
    scan, a count, and a nearest-neighbour search that is left abstract.
    Every operation fails when the service is unreachable. *)

Module Store.
Import Js.

Definition embedding := list Q.

(** The store keeps flat metadata: strings, numbers and booleans. *)
Inductive scalar :=
| SStr (s : string)
| SNum (n : Q)
| SBool (b : bool).

Definition value_of_scalar (x : scalar) : value :=
  match x with
  | SStr s => VStr s
  | SNum n => VNum n
  | SBool b => VBool b
  end.

Definition scalar_of_value (v : value) : option scalar :=
  match v with
  | VStr s => Some (SStr s)
  | VNum n => Some (SNum n)
  | VBool b => Some (SBool b)
  | _ => None
  end.

Record Stored := {
  stored_document : option string;
  stored_metadata : option (gmap string scalar);
  stored_embedding : embedding
}.

Record Server := {
  reachable : bool;
  collections : gmap string (gmap string Stored)
}.

(** The [where] object the client builds for a query. *)
Record WhereClause := {
  where_category : option string;
  where_source : option string;
  where_tags_in : option (list string);
  where_lastModified_gte : option string;
  where_lastModified_lte : option string
}.

(** One row of the parallel arrays of [add], [get] and [query]. *)
Record AddRow := {
  add_id : string;
  add_document : string;
  add_embedding : embedding;
  add_metadata : gmap string scalar
}.

Record GetRow := {
  got_id : string;
  got_document : option string;
  got_metadata : option (gmap string scalar)
}.

Record QueryRow := {
  hit_id : string;
  hit_document : option string;
  hit_metadata : option (gmap string scalar);
  hit_distance : Q
}.

Definition unreachable {A} : outcome A := Throw (BackendError "store unreachable").

Definition getCollection (name : string) (s : Server) : outcome string :=
  if reachable s then
    match collections s !! name with
    | Some _ => Ok name
    | None => Throw (BackendError "collection does not exist")
    end
  else unreachable.

Definition createCollection (name : string) (s : Server) : outcome string * Server :=
  if reachable s then
    match collections s !! name with
    | Some _ => (Throw (BackendError "collection already exists"), s)
    | None => (Ok name, {| reachable := true; collections := <[name := ∅]> (collections s) |})
    end
  else (unreachable, s).

Definition deleteCollection (name : string) (s : Server) : outcome unit * Server :=
  if reachable s then
    match collections s !! name with
    | Some _ => (Ok tt, {| reachable := true; collections := delete name (collections s) |})
    | None => (Throw (BackendError "collection does not exist"), s)
    end
  else (unreachable, s).

Definition store_row (records : gmap string Stored) (row : AddRow) : gmap string Stored :=
  <[add_id row := {| stored_document := Some (add_document row);
                     stored_metadata := Some (add_metadata row);
                     stored_embedding := add_embedding row |}]> records.

Definition collection_add (handle : string) (rows : list AddRow) (s : Server)
    : outcome unit * Server :=
  if reachable s then
    match collections s !! handle with
    | Some records =>
        (Ok tt, {| reachable := true;
                   collections := <[handle := fold_left store_row rows records]> (collections s) |})
    | None => (Throw (BackendError "collection does not exist"), s)
    end
  else (unreachable, s).

Definition get_row (entry : string * Stored) : GetRow :=
  {| got_id := entry.1;
     got_document := stored_document entry.2;
     got_metadata := stored_metadata entry.2 |}.

(** [collection.get({ limit })]; without a limit the whole collection. *)
Definition collection_get (handle : string) (limit : option nat) (s : Server)
    : outcome (list GetRow) :=
  if reachable s then
    match collections s !! handle with
    | Some records =>
        let rows := map get_row (map_to_list records) in
        Ok (match limit with Some n => take n rows | None => rows end)
    | None => Throw (BackendError "collection does not exist")
    end
  else unreachable.

Definition collection_count (handle : string) (s : Server) : outcome nat :=
  if reachable s then
    match collections s !! handle with
    | Some records => Ok (size records)
    | None => Throw (BackendError "collection does not exist")
    end
  else unreachable.

End Store.


(** ** The client: [ProjectVectorDB] *)

Module Client.
Import Js Store.

Record VectorDocument := {
  doc_id : string;
  doc_content : string;
  doc_metadata : gmap string value;
  doc_embedding : option embedding
}.

Record QueryResult := {
  result_content : string;
  result_metadata : gmap string value;
  score : Q;
  result_id : string
}.

(** A [Date] option is its time value, [None] for an invalid date. *)
Record DateRange := {
  range_start : option (option Z);
  range_end : option (option Z)
}.

Record QueryOptions := {
  opt_limit : option nat;
  opt_threshold : option Q;
  opt_category : option string;
  opt_source : option string;
  opt_tags : option (list string);
  opt_dateRange : option DateRange
}.

Record CollectionStats := {
  totalDocuments : nat;
  categories : gmap string nat;
  sources : gmap string nat;
  lastUpdated : string;
  averageChunkSize : Z
}.

(** The fields of a client instance. [client] is constant and left out;
    [collection] is the handle, [None] for [null]. *)
Record ProjectVectorDB := {
  collection : option string;
  collectionName : string;
  embeddingFunction : option (string -> option embedding);
  isInitialized : bool
}.

(** [new ProjectVectorDB({ collectionName, embeddingFunction })] *)
Definition new_client (name : string) (embedder : option (string -> option embedding))
    : ProjectVectorDB :=
  {| collection := None; collectionName := name;
     embeddingFunction := embedder; isInitialized := false |}.

Record World := {
  this : ProjectVectorDB;
  server : Server;
  files : gmap string string
}.

(** *** State and exceptions *)

Definition M (A : Type) : Type := World -> outcome A * World.

Definition ret {A} (a : A) : M A := fun w => (Ok a, w).
Definition throw {A} (e : error) : M A := fun w => (Throw e, w).
Definition bind {A B} (m : M A) (k : A -> M B) : M B :=
  fun w => match m w with
           | (Ok a, w') => k a w'
           | (Throw e, w') => (Throw e, w')
           end.
Definition try_catch {A} (m : M A) (handler : error -> M A) : M A :=
  fun w => match m w with
           | (Ok a, w') => (Ok a, w')
           | (Throw e, w') => handler e w'
           end.

Notation "x <- m ;; k" := (bind m (fun x => k))
  (at level 100, m at next level, right associativity).
Notation "m ;;; k" := (bind m (fun _ => k))
  (at level 100, right associativity).

Definition get_this : M ProjectVectorDB := fun w => (Ok (this w), w).
Definition get_files : M (gmap string string) := fun w => (Ok (files w), w).

Definition set_collection (handle : option string) : M unit :=
  fun w => (Ok tt,
            {| this := {| collection := handle;
                          collectionName := collectionName (this w);
                          embeddingFunction := embeddingFunction (this w);
                          isInitialized := isInitialized (this w) |};
               server := server w; files := files w |}).

Definition set_isInitialized (b : bool) : M unit :=
  fun w => (Ok tt,
            {| this := {| collection := collection (this w);
                          collectionName := collectionName (this w);
                          embeddingFunction := embeddingFunction (this w);
                          isInitialized := b |};
               server := server w; files := files w |}).

Definition of_outcome {A} (r : outcome A) : M A := fun w => (r, w).

(** A call that only reads the store. *)
Definition ask_server {A} (f : Server -> outcome A) : M A :=
  fun w => (f (server w), w).

(** A call that may change the store. *)
Definition call_server {A} (f : Server -> outcome A * Server) : M A :=
  fun w => let '(r, s) := f (server w) in
           (r, {| this := this w; server := s; files := files w |}).

Definition writeFileSync (path data : string) : M unit :=
  fun w => (Ok tt, {| this := this w; server := server w;
                      files := <[path := data]> (files w) |}).

(** *** [Array.prototype.sort]: stable, ordered by the sign of the
    comparator *)

Fixpoint sort_insert {A} (compare : A -> A -> Q) (x : A) (sorted : list A) : list A :=
  match sorted with
  | [] => [x]
  | y :: rest =>
      if Qle_bool (compare x y) 0 then x :: sorted
      else y :: sort_insert compare x rest
  end.

Definition js_sort {A} (compare : A -> A -> Q) (l : list A) : list A :=
  fold_right (sort_insert compare) [] l.

(** *** Lines of a backup file *)

(** The code units [String.prototype.trim] removes (below 256). *)
Definition is_space (c : ascii) : bool :=
  let n := N_of_ascii c in
  ((9 <=? n) && (n <=? 13) || (n =? 32) || (n =? 160))%N.

(** [!line.trim()] *)
Fixpoint is_blank (line : string) : bool :=
  match line with
  | "" => true
  | String c rest => is_space c && is_blank rest
  end.

Definition newline : ascii := ascii_of_N 10.

(** [content.split('\n').filter(line => line.trim())] *)
Definition backup_lines (content : string) : list string :=
  List.filter (fun line => negb (is_blank line)) (Classifier.split newline content).

(** [for (i = 0; i < docs.length; i += size) docs.slice(i, i + size)] *)
Fixpoint batches {A} (fuel size : nat) (documents : list A) : list (list A) :=
  match fuel, documents with
  | S fuel', _ :: _ => take size documents :: batches fuel' size (drop size documents)
  | _, _ => []
  end.

Section Methods.

(** The runtime's printing functions, clock reading and JSON codec, and
    the store's nearest-neighbour search, which answers a query embedding
    with rows in its own order of preference. *)
Variable Number_toString : Q -> string.
Variable Date_toString : Z -> string.
Variable Date_toISOString : Z -> string.
Variable now : Z.
Variable JSON_stringify : value -> string.
Variable JSON_parse : string -> option value.
Variable store_query :
  gmap string Stored -> embedding -> nat -> option WhereClause -> list QueryRow.

Definition sanitizeMetadata :=
  Sanitizer.sanitizeMetadata Number_toString Date_toString Date_toISOString.

(** [date.toISOString()] *)
Definition toISOString (date : option Z) : outcome string :=
  match date with
  | Some t => Ok (Date_toISOString t)
  | None => Throw RangeError
  end.

Definition collection_query (handle : string) (queryEmbedding : embedding)
    (nResults : nat) (where_ : option WhereClause) (s : Server)
    : outcome (list QueryRow) :=
  if reachable s then
    match collections s !! handle with
    | Some records => Ok (store_query records queryEmbedding nResults where_)
    | None => Throw (BackendError "collection does not exist")
    end
  else unreachable.

(** *** initialize, ensureInitialized *)

Definition initialize : M unit :=
  this <- get_this ;;
  if isInitialized this then ret tt
  else
    try_catch
      ((* Try to get existing collection first *)
       try_catch
         (handle <- ask_server (getCollection (collectionName this)) ;;
          set_collection (Some handle))
         (fun _ =>
            (* Collection doesn't exist, create it *)
            handle <- call_server (createCollection (collectionName this)) ;;
            set_collection (Some handle)) ;;;
       set_isInitialized true)
      (fun error => throw (InitFailed error)).

Definition ensureInitialized : M unit :=
  this <- get_this ;;
  if negb (isInitialized this) then initialize else ret tt.

(** *** query *)

(** [if (x) whereClause.field = x] for a string option [x]. *)
Definition truthy_string (x : option string) : option string :=
  match x with
  | Some s => if String.eqb s "" then None else Some s
  | None => None
  end.

Definition bound_of (date : option (option Z)) : outcome (option string) :=
  match date with
  | Some d =>
      match toISOString d with
      | Ok iso => Ok (Some iso)
      | Throw e => Throw e
      end
  | None => Ok None
  end.

(** The [where] argument: [undefined] ([None]) when no key was set. *)
Definition build_where (options : QueryOptions) : outcome (option WhereClause) :=
  let category := truthy_string (opt_category options) in
  let source := truthy_string (opt_source options) in
  let tags := match opt_tags options with
              | Some (t :: ts) => Some (t :: ts)
              | _ => None
              end in
  let bounds :=
    match opt_dateRange options with
    | Some range =>
        match bound_of (range_start range) with
        | Ok gte =>
            match bound_of (range_end range) with
            | Ok lte => Ok (gte, lte)
            | Throw e => Throw e
            end
        | Throw e => Throw e
        end
    | None => Ok (None, None)
    end in
  match bounds with
  | Throw e => Throw e
  | Ok (gte, lte) =>
      match category, source, tags, gte, lte with
      | None, None, None, None, None => Ok None
      | _, _, _, _, _ =>
          Ok (Some {| where_category := category; where_source := source;
                      where_tags_in := tags;
                      where_lastModified_gte := gte;
                      where_lastModified_lte := lte |})
      end
  end.

(** The loop over [results.distances[0]]. *)
Fixpoint collect_results (threshold : Q) (rows : list QueryRow)
    (queryResults : list QueryResult) : list QueryResult :=
  match rows with
  | [] => queryResults
  | row :: rest =>
      let distance := hit_distance row in
      let similarity := (1 - distance)%Q in   (* Convert distance to similarity *)
      if Qle_bool threshold similarity then
        collect_results threshold rest
          (queryResults ++
             [{| result_content := default "" (hit_document row);
                 result_metadata :=
                   match hit_metadata row with
                   | Some metadata => value_of_scalar <$> metadata
                   | None => ∅
                   end;
                 score := similarity;
                 result_id := hit_id row |}])
      else collect_results threshold rest queryResults
  end.

Definition default_limit : nat := 5.
Definition default_threshold : Q := 7 # 10.

Definition query (text : string) (options : QueryOptions) : M (list QueryResult) :=
  ensureInitialized ;;;
  let limit := default default_limit (opt_limit options) in
  let threshold := default default_threshold (opt_threshold options) in
  this <- get_this ;;
  match collection this with
  | None => throw (JsError "Collection not initialized")
  | Some handle =>
      (* Generate embedding for query *)
      match embeddingFunction this with
      | None =>
          throw (JsError
            "Embedding function not configured. Please provide one in the constructor.")
      | Some generate =>
          match generate text with
          | None => throw EmbeddingError
          | Some embedding =>
              (* Build where clause for filtering *)
              whereClause <- of_outcome (build_where options) ;;
              (* Query ChromaDB *)
              results <- ask_server (collection_query handle embedding limit whereClause) ;;
              (* Process and filter results *)
              let queryResults := collect_results threshold results [] in
              (* Sort by score (highest first) *)
              ret (js_sort (fun a b => (score b - score a)%Q) queryResults)
          end
      end
  end.

(** *** addDocuments *)

(** [for (const doc of docsToEmbed) doc.embedding = await generate(doc.content)]:
    the documents without an embedding get one, in place. *)
Fixpoint embed_missing (generate : string -> option embedding)
    (documents : list VectorDocument) : outcome (list VectorDocument) :=
  match documents with
  | [] => Ok []
  | doc :: rest =>
      match doc_embedding doc with
      | Some _ =>
          match embed_missing generate rest with
          | Ok rest' => Ok (doc :: rest')
          | Throw e => Throw e
          end
      | None =>
          match generate (doc_content doc) with
          | None => Throw EmbeddingError
          | Some embedding =>
              match embed_missing generate rest with
              | Ok rest' =>
                  Ok ({| doc_id := doc_id doc; doc_content := doc_content doc;
                         doc_metadata := doc_metadata doc;
                         doc_embedding := Some embedding |} :: rest')
              | Throw e => Throw e
              end
          end
      end
  end.

(** The metadata handed to the store: the sanitized mapping, whose values
    are all strings, numbers or booleans. *)
Definition stored_metadata_of (sanitized : gmap string value) : gmap string scalar :=
  omap scalar_of_value sanitized.

(** The argument of [collection.add]: ids, documents, embeddings and
    sanitized metadatas, row by row. *)
Fixpoint add_rows (documents : list VectorDocument) : outcome (list AddRow) :=
  match documents with
  | [] => Ok []
  | doc :: rest =>
      match sanitizeMetadata (doc_metadata doc) with
      | Throw e => Throw e
      | Ok sanitized =>
          match add_rows rest with
          | Throw e => Throw e
          | Ok rows =>
              Ok ({| add_id := doc_id doc; add_document := doc_content doc;
                     add_embedding := default [] (doc_embedding doc);
                     add_metadata := stored_metadata_of sanitized |} :: rows)
          end
      end
  end.

Definition addDocuments (documents : list VectorDocument) : M unit :=
  ensureInitialized ;;;
  this <- get_this ;;
  match collection this with
  | None => throw (JsError "Collection not initialized")
  | Some handle =>
      match documents with
      | [] => ret tt
      | _ :: _ =>
          (* Generate embeddings if not provided *)
          embedded <-
            (if forallb (fun d => bool_decide (is_Some (doc_embedding d))) documents
             then ret documents
             else match embeddingFunction this with
                  | None =>
                      throw (JsError
                        "Embeddings required but no embedding function provided")
                  | Some generate => of_outcome (embed_missing generate documents)
                  end) ;;
          (* Add to ChromaDB (filter out complex metadata types) *)
          rows <- of_outcome (add_rows embedded) ;;
          call_server (collection_add handle rows)
      end
  end.

(** *** getAllDocuments, getStats *)

Definition document_of_row (row : GetRow) : VectorDocument :=
  {| doc_id := got_id row;
     doc_content := default "" (got_document row);
     doc_metadata := match got_metadata row with
                     | Some metadata => value_of_scalar <$> metadata
                     | None => ∅
                     end;
     doc_embedding := None |}.

Definition getAllDocuments (limit : option nat) : M (list VectorDocument) :=
  ensureInitialized ;;;
  this <- get_this ;;
  match collection this with
  | None => throw (JsError "Collection not initialized")
  | Some handle =>
      results <- ask_server (collection_get handle limit) ;;
      ret (map document_of_row results)
  end.

(** The property key a truthy metadata value becomes. *)
Definition truthy_key (x : option scalar) : option string :=
  match x with
  | Some (SStr s) => if String.eqb s "" then None else Some s
  | Some (SNum n) => if Qeq_bool n 0 then None else Some (Number_toString n)
  | Some (SBool true) => Some "true"
  | _ => None
  end.

Definition count_key (key : option string) (counts : gmap string nat) : gmap string nat :=
  match key with
  | Some k => <[k := S (default 0%nat (counts !! k))]> counts
  | None => counts
  end.

(** [Math.round(total / n)] for [n > 0] and [total >= 0]. *)
Definition rounded_average (total : Z) (n : nat) : Z :=
  (2 * total + Z.of_nat n) / (2 * Z.of_nat n).

(** The statistics computed from the count and the sample. *)
Definition compute_stats (count : nat) (sample : list GetRow) (lastUpdated : string)
    : CollectionStats :=
  let field name (row : GetRow) := truthy_key (got_metadata row ≫= (.!! name)) in
  let categories := fold_left (fun acc row => count_key (field "category" row) acc) sample ∅ in
  let sources := fold_left (fun acc row => count_key (field "source" row) acc) sample ∅ in
  let totalChunkSize :=
    fold_left (fun acc row => acc + JsString.len (default "" (got_document row))) sample 0 in
  let averageChunkSize :=
    if (0 <? length sample)%nat then rounded_average totalChunkSize (length sample) else 0 in
  {| totalDocuments := count; categories := categories; sources := sources;
     lastUpdated := lastUpdated; averageChunkSize := averageChunkSize |}.

Definition getStats : M CollectionStats :=
  ensureInitialized ;;;
  this <- get_this ;;
  match collection this with
  | None => throw (JsError "Collection not initialized")
  | Some handle =>
      count <- ask_server (collection_count handle) ;;
      sample <- ask_server (collection_get handle (Some 1000%nat)) ;;
      (* Calculate statistics *)
      lastUpdated <- of_outcome (toISOString (Some now)) ;;
      ret (compute_stats count sample lastUpdated)
  end.

(** *** exportBackup *)

Definition number_of_nat (n : nat) : value := VNum (inject_Z (Z.of_nat n)).

Definition stats_value (stats : CollectionStats) : value :=
  VObject (list_to_map
    [ ("totalDocuments", number_of_nat (totalDocuments stats));
      ("categories", VObject (number_of_nat <$> categories stats));
      ("sources", VObject (number_of_nat <$> sources stats));
      ("lastUpdated", VStr (lastUpdated stats));
      ("averageChunkSize", VNum (inject_Z (averageChunkSize stats))) ]).

(** [{ version, exportDate, stats }] *)
Definition header_record (version exportDate : string) (stats : CollectionStats) : value :=
  VObject (list_to_map
    [ ("version", VStr version); ("exportDate", VStr exportDate);
      ("stats", stats_value stats) ]).

(** [{ id, content, metadata }] *)
Definition document_record (doc : VectorDocument) : value :=
  VObject (list_to_map
    [ ("id", VStr (doc_id doc)); ("content", VStr (doc_content doc));
      ("metadata", VObject (doc_metadata doc)) ]).

Definition line_feed : string := String newline "".

Definition exportBackup (outputPath : string) : M unit :=
  ensureInitialized ;;;
  documents <- getAllDocuments None ;;
  stats <- getStats ;;
  exportDate <- of_outcome (toISOString (Some now)) ;;
  (* Write as JSONL (one document per line) *)
  let jsonl := join_strings line_feed
                 (map (fun doc => JSON_stringify (document_record doc)) documents) in
  (* Write backup metadata as first line *)
  let fullBackup :=
    JSON_stringify (header_record "1.0" exportDate stats) +:+ line_feed +:+ jsonl in
  writeFileSync outputPath fullBackup.

(** *** importBackup *)

(** [JSON.parse(line)] *)
Definition parse (line : string) : outcome value :=
  match JSON_parse line with
  | Some v => Ok v
  | None => Throw SyntaxError
  end.

Fixpoint parse_documents (lines : list string) : outcome (list value) :=
  match lines with
  | [] => Ok []
  | line :: rest =>
      match parse line with
      | Throw e => Throw e
      | Ok doc =>
          match parse_documents rest with
          | Throw e => Throw e
          | Ok documents => Ok (doc :: documents)
          end
      end
  end.

(** A parsed line read as a [VectorDocument]: an object whose [id] and
    [content] are strings, whose [metadata] is an object and whose
    [embedding], when present, is an array of numbers. *)
Definition embedding_of_value (v : value) : option embedding :=
  match v with
  | VArray elems => mapM (fun e => match e with VNum n => Some n | _ => None end) elems
  | _ => None
  end.

Definition as_document (v : value) : option VectorDocument :=
  match v with
  | VObject fields =>
      match fields !! "id", fields !! "content", fields !! "metadata" with
      | Some (VStr id), Some (VStr content), Some (VObject metadata) =>
          match fields !! "embedding" with
          | None | Some VUndefined =>
              Some {| doc_id := id; doc_content := content;
                      doc_metadata := metadata; doc_embedding := None |}
          | Some e =>
              match embedding_of_value e with
              | Some embedding =>
                  Some {| doc_id := id; doc_content := content;
                          doc_metadata := metadata; doc_embedding := Some embedding |}
              | None => None
              end
          end
      | _, _, _ => None
      end
  | _ => None
  end.

(** [addDocuments(batch)] on parsed lines.  The lines were pushed
    unchecked; a batch holding a value that is not a document record
    makes the call fail, which the model reports as a [TypeError]. *)
Definition addParsedDocuments (batch : list value) : M unit :=
  match mapM as_document batch with
  | Some documents => addDocuments documents
  | None => ensureInitialized ;;; throw TypeError
  end.

Fixpoint add_batches (bs : list (list value)) : M unit :=
  match bs with
  | [] => ret tt
  | batch :: rest => addParsedDocuments batch ;;; add_batches rest
  end.

Definition importBackup (inputPath : string) (clearExisting : bool) : M unit :=
  ensureInitialized ;;;
  files <- get_files ;;
  match files !! inputPath with
  | None => throw (JsError ("Backup file not found: " +:+ inputPath))
  | Some content =>
      match backup_lines content with
      | [] => throw (JsError "Backup file is empty")
      | first :: rest =>
          (* First line contains metadata *)
          metadata <- of_outcome (parse first) ;;
          (match metadata with
           | VNull => throw TypeError      (* metadata.exportDate *)
           | _ => ret tt
           end) ;;;
          (* Parse documents *)
          documents <- of_outcome (parse_documents rest) ;;
          this <- get_this ;;
          (match clearExisting, collection this with
           | true, Some _ =>
               (* Clear existing collection *)
               call_server (deleteCollection (collectionName this)) ;;;
               handle <- call_server (createCollection (collectionName this)) ;;
               set_collection (Some handle)
           | _, _ => ret tt
           end) ;;;
          (* Add documents in batches *)
          add_batches (batches (length documents) 100 documents)
      end
  end.

(** *** clearCollection *)

Definition clearCollection (confirm_argument : option bool) : M unit :=
  let confirm := default false confirm_argument in   (* confirm = false *)
  if negb confirm then throw (JsError "Must confirm deletion by passing true")
  else
    ensureInitialized ;;;
    this <- get_this ;;
    match collection this with
    | None => throw (JsError "Collection not initialized")
    | Some _ =>
        (* Delete and recreate the collection *)
        call_server (deleteCollection (collectionName this)) ;;;
        handle <- call_server (createCollection (collectionName this)) ;;
        set_collection (Some handle)
    end.

(** *** Vocabulary of the statements *)

(** The records of the client's collection, none when it does not exist. *)
Definition stored_records (w : World) : gmap string Stored :=
  default ∅ (collections (server w) !! collectionName (this w)).

(** The result built from one row of the store's answer. *)
Definition result_of_row (row : QueryRow) : QueryResult :=
  {| result_content := default "" (hit_document row);
     result_metadata := match hit_metadata row with
                        | Some metadata => value_of_scalar <$> metadata
                        | None => ∅
                        end;
     score := (1 - hit_distance row)%Q;
     result_id := hit_id row |}.

(** [similarity >= threshold] for the row's similarity. *)
Definition passes (threshold : Q) (row : QueryRow) : bool :=
  Qle_bool threshold (1 - hit_distance row)%Q.

(** No result is followed by one of a higher score. *)
Fixpoint descending (results : list QueryResult) : Prop :=
  match results with
  | [] => True
  | a :: rest =>
      match rest with
      | [] => True
      | b :: _ => (score b <= score a)%Q
      end /\ descending rest
  end.

(** The comparator [(a, b) => b.score - a.score]. *)
Definition by_score (a b : QueryResult) : Q := (score b - score a)%Q.

(** A text without line feed. *)
Definition one_line (s : string) : Prop := Classifier.includes s line_feed = false.

(** An initialized client holds the handle of a collection the store has. *)
Definition connected (w : World) : Prop :=
  isInitialized (this w) = true ->
  collection (this w) = Some (collectionName (this w))
  /\ is_Some (collections (server w) !! collectionName (this w)).

(** The state in which the client's collection holds [records]. *)
Definition with_records (w : World) (records : gmap string Stored) : World :=
  {| this := this w;
     server := {| reachable := true;
                  collections := <[collectionName (this w) := records]>
                                   (collections (server w)) |};
     files := files w |}.

(** The document [getAllDocuments] makes of a stored record. *)
Definition exported (id : string) (record : Stored) : VectorDocument :=
  {| doc_id := id;
     doc_content := default "" (stored_document record);
     doc_metadata := value_of_scalar <$> default ∅ (stored_metadata record);
     doc_embedding := None |}.

(** The content and metadata a reader gets for a stored record. *)
Definition record_triple (record : Stored) : string * gmap string value :=
  (doc_content (exported "" record), doc_metadata (exported "" record)).

(** The (id, content, metadata) triples of the collection, keyed by id. *)
Definition triples (w : World) : gmap string (string * gmap string value) :=
  record_triple <$> stored_records w.

(** A client ready to talk to its collection. *)
Record ready (w : World) (records : gmap string Stored) : Prop := {
  ready_initialized : isInitialized (this w) = true;
  ready_handle : collection (this w) = Some (collectionName (this w));
  ready_reachable : reachable (server w) = true;
  ready_records : collections (server w) !! collectionName (this w) = Some records
}.

(** What [getAllDocuments()] returns for a collection. *)
Definition exported_documents (records : gmap string Stored) : list VectorDocument :=
  map (fun entry => exported entry.1 entry.2) (map_to_list records).

(** The statistics [getStats] reports for a collection. *)
Definition stats_of_records (records : gmap string Stored) : CollectionStats :=
  compute_stats (size records) (take 1000 (map get_row (map_to_list records)))
    (Date_toISOString now).

(** The text [exportBackup] writes. *)
Definition backup_text (stats : CollectionStats) (documents : list VectorDocument) : string :=
  JSON_stringify (header_record "1.0" (Date_toISOString now) stats)
  +:+ line_feed
  +:+ join_strings line_feed
        (map (fun doc => JSON_stringify (document_record doc)) documents).

(** A document as the store gives it out: no embedding, flat metadata. *)
Definition plain (doc : VectorDocument) : Prop :=
  doc_embedding doc = None
  /\ exists m : gmap string scalar, doc_metadata doc = value_of_scalar <$> m.

(** A document after [doc.embedding = await generate(doc.content)]. *)
Definition embedded (generate : string -> option embedding) (doc : VectorDocument)
    : VectorDocument :=
  {| doc_id := doc_id doc; doc_content := doc_content doc;
     doc_metadata := doc_metadata doc;
     doc_embedding := Some (default [] (generate (doc_content doc))) |}.

(** The row the store receives for a plain document. *)
Definition row_of (generate : string -> option embedding) (doc : VectorDocument)
    : AddRow :=
  {| add_id := doc_id doc; add_document := doc_content doc;
     add_embedding := default [] (generate (doc_content doc));
     add_metadata := stored_metadata_of (doc_metadata doc) |}.

(** The record stored for a row. *)
Definition stored_of_row (row : AddRow) : Stored :=
  {| stored_document := Some (add_document row);
     stored_metadata := Some (add_metadata row);
     stored_embedding := add_embedding row |}.

(** The record a re-import stores in place of [record]. *)
Definition reimported (generate : string -> option embedding) (record : Stored) : Stored :=
  {| stored_document := Some (default "" (stored_document record));
     stored_metadata := Some (default ∅ (stored_metadata record));
     stored_embedding := default [] (generate (default "" (stored_document record))) |}.

(** *** Initialization *)

Lemma bind_ok {A B} (m : M A) (k : A -> M B) w a w1 :
  m w = (Ok a, w1) -> bind m k w = k a w1.
Proof. intros H. unfold bind. now rewrite H. Qed.

Lemma bind_throw {A B} (m : M A) (k : A -> M B) w e w1 :
  m w = (Throw e, w1) -> bind m k w = (Throw e, w1).
Proof. intros H. unfold bind. now rewrite H. Qed.

Lemma ensureInitialized_ready w :
  isInitialized (this w) = true -> ensureInitialized w = (Ok tt, w).
Proof.
  intros H. unfold ensureInitialized, bind, get_this. now rewrite H.
Qed.

Lemma ensureInitialized_fresh w :
  isInitialized (this w) = false -> ensureInitialized w = initialize w.
Proof.
  intros H. unfold ensureInitialized, bind, get_this. now rewrite H.
Qed.

(** A first initialization either fails, leaving everything as it was,
    or connects the client to its collection, creating it empty when the
    store does not have it. *)
Lemma initialize_cases w :
  isInitialized (this w) = false ->
  (exists e, initialize w = (Throw (InitFailed e), w))
  \/ (exists w',
        initialize w = (Ok tt, w')
        /\ isInitialized (this w') = true
        /\ collection (this w') = Some (collectionName (this w))
        /\ collectionName (this w') = collectionName (this w)
        /\ embeddingFunction (this w') = embeddingFunction (this w)
        /\ files w' = files w
        /\ reachable (server w') = true
        /\ is_Some (collections (server w') !! collectionName (this w))
        /\ stored_records w' = stored_records w
        /\ (forall other, other <> collectionName (this w) ->
              collections (server w') !! other = collections (server w) !! other)).
Proof.
  intros Hinit. destruct w as [[c name ef ini] [up colls] fs]. cbn in Hinit. subst ini.
  unfold initialize, stored_records, try_catch, bind, get_this, ask_server, call_server,
    set_collection, set_isInitialized, throw, getCollection, createCollection, unreachable.
  cbn.
  destruct up; cbn.
  - destruct (colls !! name) as [records|] eqn:Hl; cbn.
    + right. eexists. split; [reflexivity |]. cbn. rewrite Hl.
      repeat split; eauto.
    + rewrite Hl. cbn. right. eexists. split; [reflexivity |]. cbn.
      rewrite lookup_insert_eq. repeat split; eauto.
      intros other Hne. now rewrite lookup_insert_ne.
  - left. eexists. reflexivity.
Qed.

(** *** clearCollection *)

Ltac crunch := cbn -[lookup insert delete].

Ltac run_client :=
  unfold clearCollection, ensureInitialized, initialize, try_catch, bind, get_this,
    ask_server, call_server, set_collection, set_isInitialized, throw, ret,
    getCollection, createCollection, deleteCollection, unreachable;
  cbn -[lookup insert delete].

(** C9. Without confirmation ([false], or no argument) [clearCollection]
    throws and the client, the store and the files are exactly as before:
    nothing was initialized, deleted or created.  The store changes only
    when [true] is passed; a confirmed call that returns leaves the
    collection existing and empty, and it does return when the store is
    reachable and holds the collection of an initialized client. *)
Theorem clearCollection_requires_confirmation (w : World) :
  (forall confirm, confirm = None \/ confirm = Some false ->
     clearCollection confirm w
     = (Throw (JsError "Must confirm deletion by passing true"), w))
  /\ (forall confirm r w',
        clearCollection confirm w = (r, w') ->
        server w' <> server w -> confirm = Some true)
  /\ (forall w',
        clearCollection (Some true) w = (Ok tt, w') ->
        collections (server w') !! collectionName (this w) = Some ∅
        /\ stored_records w' = ∅)
  /\ (reachable (server w) = true ->
      (isInitialized (this w) = true ->
         is_Some (collection (this w))
         /\ is_Some (collections (server w) !! collectionName (this w))) ->
      exists w', clearCollection (Some true) w = (Ok tt, w')).
Proof.
  split; [| split; [| split]].
  - intros confirm [-> | ->]; reflexivity.
  - intros [[|]|] r w' Hrun Hchanged; [reflexivity | |];
      cbn in Hrun; injection Hrun as <- <-; contradiction.
  - destruct w as [[c name ef ini] [up colls] fs]. intros w'.
    unfold stored_records. run_client.
    destruct (colls !! name) as [records|] eqn:Hl; destruct ini, up, c;
      crunch;
      repeat (progress (rewrite ?Hl, ?lookup_delete_eq, ?lookup_insert_eq; crunch));
      intros H; try discriminate H.
    all: apply (f_equal snd) in H; cbn [snd] in H; subst w'; crunch;
      rewrite ?lookup_insert_eq; split; reflexivity.
  - destruct w as [[c name ef ini] [up colls] fs]. crunch.
    intros -> Hwf. run_client.
    destruct ini; crunch.
    + destruct (Hwf eq_refl) as [[h ->] [records Hl]]. crunch.
      rewrite Hl. crunch. rewrite lookup_delete_eq. crunch. eauto.
    + destruct (colls !! name) eqn:Hl; crunch;
        repeat (progress (rewrite ?Hl, ?lookup_delete_eq, ?lookup_insert_eq; crunch));
        eauto.
Qed.

(** *** query *)

Lemma collect_results_filter threshold rows acc :
  collect_results threshold rows acc
  = acc ++ map result_of_row (List.filter (passes threshold) rows).
Proof.
  revert acc. induction rows as [|row rows IH]; intros acc; cbn [collect_results].
  - cbn. now rewrite app_nil_r.
  - cbn [List.filter]. unfold passes at 1.
    destruct (Qle_bool threshold (1 - hit_distance row)).
    + rewrite IH, <- app_assoc. reflexivity.
    + apply IH.
Qed.

Lemma sort_insert_perm {A} (compare : A -> A -> Q) x l :
  sort_insert compare x l ≡ₚ x :: l.
Proof.
  induction l as [|y l IH]; cbn; [reflexivity |].
  destruct (Qle_bool (compare x y) 0); [reflexivity |].
  rewrite IH. apply Permutation_swap.
Qed.

Lemma js_sort_perm {A} (compare : A -> A -> Q) l : js_sort compare l ≡ₚ l.
Proof.
  induction l as [|x l IH]; cbn; [reflexivity |].
  now rewrite sort_insert_perm, IH.
Qed.

Lemma by_score_before a b : Qle_bool (by_score a b) 0 = true -> (score b <= score a)%Q.
Proof.
  unfold by_score. intros H. apply Qle_bool_iff in H. lra.
Qed.

Lemma by_score_after a b : Qle_bool (by_score a b) 0 = false -> (score a <= score b)%Q.
Proof.
  unfold by_score. intros H.
  destruct (Qlt_le_dec 0 (score b - score a)) as [Hlt|Hle]; [lra |].
  apply Qle_bool_iff in Hle. congruence.
Qed.

Lemma sort_insert_descending x l :
  descending l -> descending (sort_insert by_score x l).
Proof.
  induction l as [|y l IH]; intros Hl; cbn [sort_insert].
  - cbn. auto.
  - destruct (Qle_bool (by_score x y) 0) eqn:Hxy.
    + cbn [descending]. split; [now apply by_score_before | exact Hl].
    + cbn [descending] in Hl |- *. destruct Hl as [Hhd Htl].
      specialize (IH Htl). split; [| exact IH].
      destruct l as [|z l]; cbn [sort_insert].
      * now apply by_score_after.
      * destruct (Qle_bool (by_score x z) 0); [now apply by_score_after | exact Hhd].
Qed.

Lemma js_sort_descending l : descending (js_sort by_score l).
Proof.
  induction l as [|x l IH]; cbn; [exact I |].
  now apply sort_insert_descending.
Qed.

Lemma descending_adjacent l i a b :
  descending l -> l !! i = Some a -> l !! S i = Some b -> ~ (score a < score b)%Q.
Proof.
  revert i. induction l as [|x l IH]; intros i Hd Ha Hb; [discriminate |].
  destruct i as [|i].
  - cbn in Ha, Hb. injection Ha as ->. destruct l as [|y l]; [discriminate |].
    cbn in Hb. injection Hb as ->. destruct Hd as [Hle _].
    now apply Qle_not_lt.
  - destruct Hd as [_ Hd]. now apply (IH i).
Qed.

(** The store answers a search for [nResults] neighbours with at most
    [nResults] rows. *)
Hypothesis store_query_limit :
  forall records queryEmbedding nResults where_,
    (length (store_query records queryEmbedding nResults where_) <= nResults)%nat.


Lemma build_where_throws options e :
  build_where options = Throw e -> e = RangeError.
Proof.
  unfold build_where, bound_of, toISOString.
  destruct (opt_dateRange options) as [[[[start|]|] [[stop|]|]]|]; cbn;
    destruct (truthy_string (opt_category options)),
             (truthy_string (opt_source options)),
             (opt_tags options) as [[|t ts]|];
    intros H; try discriminate H; now injection H as <-.
Qed.

(** C7, in the form the code satisfies. On a client that was never initialized, [query]
    runs [initialize] itself: when that fails, [query] fails with the
    initialization error; when it succeeds, [query] goes on exactly as it
    does on the initialized client; it never fails with
    ["Collection not initialized"]. *)
Theorem query_initializes_first (w : World) (text : string) (options : QueryOptions) :
  isInitialized (this w) = false ->
  (forall e w', initialize w = (Throw e, w') ->
     query text options w = (Throw e, w'))
  /\ (forall w', initialize w = (Ok tt, w') ->
        query text options w = query text options w')
  /\ (forall w', query text options w
                 <> (Throw (JsError "Collection not initialized"), w')).
Proof.
  intros Hfresh.
  assert (Hfail : forall e w', initialize w = (Throw e, w') ->
            query text options w = (Throw e, w')).
  { intros e w' Hinit. unfold query. apply bind_throw.
    now rewrite (ensureInitialized_fresh w Hfresh). }
  assert (Hok : forall w', initialize w = (Ok tt, w') ->
            query text options w = query text options w').
  { intros w' Hinit.
    destruct (initialize_cases w Hfresh) as [[e He]|(w1 & Hw1 & Hready & _)];
      [congruence |].
    assert (w1 = w') as -> by congruence.
    unfold query.
    rewrite (bind_ok ensureInitialized _ w tt w')
      by now rewrite (ensureInitialized_fresh w Hfresh).
    now rewrite (bind_ok ensureInitialized _ w' tt w')
      by now apply ensureInitialized_ready. }
  split; [exact Hfail |]. split; [exact Hok |].
  intros w' Hquery.
  destruct (initialize_cases w Hfresh) as [[e He]|(w1 & Hw1 & Hready & Hcoll & _)].
  - rewrite (Hfail _ _ He) in Hquery. discriminate.
  - rewrite (Hok _ Hw1) in Hquery. revert Hquery.
    unfold query, bind, get_this, throw, ret, of_outcome, ask_server, collection_query.
    rewrite (ensureInitialized_ready w1 Hready), Hcoll.
    destruct (embeddingFunction (this w1)) as [generate|]; [| discriminate].
    destruct (generate text) as [queryEmbedding|]; [| discriminate].
    destruct (build_where options) as [whereClause|e] eqn:Hwhere.
    + destruct (reachable (server w1)); [| discriminate].
      destruct (collections (server w1) !! collectionName (this w)); discriminate.
    + apply build_where_throws in Hwhere as ->. discriminate.
Qed.

(** *** Lines of a backup file *)

Lemma append_cons c s t : String c s +:+ t = String c (s +:+ t).
Proof. reflexivity. Qed.

Lemma split_one_line line :
  one_line line -> Classifier.split newline line = [line].
Proof.
  unfold one_line, line_feed.
  induction line as [|c line IH]; intros Hline; [reflexivity |].
  cbn [Classifier.split]. cbn [Classifier.includes String.prefix] in Hline.
  apply orb_false_iff in Hline as [Hc Hline].
  destruct (Ascii.eqb_spec c newline) as [->|Hne].
  - destruct (ascii_dec newline newline); [| contradiction].
    destruct line; discriminate Hc.
  - now rewrite (IH Hline).
Qed.

(** Splitting what was joined with line feeds gives the lines back. *)
Lemma split_join_lines first rest :
  Forall one_line (first :: rest) ->
  Classifier.split newline (join_strings line_feed (first :: rest)) = first :: rest.
Proof.
  revert first. induction rest as [|second rest IH]; intros first Hlines.
  - cbn [join_strings]. apply split_one_line. now inversion Hlines.
  - inversion Hlines as [|? ? Hfirst Hrest]; subst.
    change (join_strings line_feed (first :: second :: rest))
      with (first +:+ line_feed +:+ join_strings line_feed (second :: rest)).
    unfold line_feed at 1. rewrite append_cons.
    change ("" +:+ join_strings line_feed (second :: rest))
      with (join_strings line_feed (second :: rest)).
    rewrite ClassifierProofs.split_first_segment by exact Hfirst.
    now rewrite IH.
Qed.

(** *** importBackup: everything is parsed before anything is written *)

Lemma ensureInitialized_effects w :
  files (ensureInitialized w).2 = files w
  /\ stored_records (ensureInitialized w).2 = stored_records w
  /\ (isInitialized (this w) = true -> (ensureInitialized w).2 = w).
Proof.
  destruct (isInitialized (this w)) eqn:Hini.
  - rewrite (ensureInitialized_ready w Hini). auto.
  - rewrite (ensureInitialized_fresh w Hini).
    destruct (initialize_cases w Hini)
      as [[e ->]|(w' & -> & _ & _ & Hname & _ & Hfiles & _ & _ & Hrecords & _)]; cbn.
    + split; [reflexivity |]. split; [reflexivity | discriminate].
    + split; [exact Hfiles |]. split; [exact Hrecords | discriminate].
Qed.

Lemma parse_documents_malformed lines line :
  line ∈ lines -> JSON_parse line = None ->
  parse_documents lines = Throw SyntaxError.
Proof.
  induction lines as [|l lines IH]; intros Hin Hbad; [inversion Hin |].
  cbn [parse_documents]. unfold parse at 1.
  apply elem_of_cons in Hin as [<-|Hin].
  - now rewrite Hbad.
  - destruct (JSON_parse l); [| reflexivity].
    now rewrite (IH Hin Hbad).
Qed.

Lemma backup_lines_not_blank content line :
  line ∈ backup_lines content -> is_blank line = false.
Proof.
  unfold backup_lines. intros Hin. apply list_elem_of_In in Hin.
  apply filter_In in Hin as [_ H]. now apply negb_true_iff in H.
Qed.

(** C10. Of the lines of a backup file the importer reads the ones that
    are not blank.  When one of those, header or document, is not
    well-formed JSON, [importBackup] throws, whatever [clearExisting] is,
    in the state its [ensureInitialized] step left: the records of the
    collection are the ones from before the call, and for a client that
    was initialized the whole state is unchanged. *)
Theorem importBackup_parses_before_writing
    (w : World) (inputPath : string) (clearExisting : bool) (content : string) :
  files w !! inputPath = Some content ->
  (exists line, line ∈ backup_lines content /\ JSON_parse line = None) ->
  (forall lines, Forall one_line lines ->
     backup_lines (join_strings line_feed lines)
     = List.filter (fun line => negb (is_blank line)) lines)
  /\ (forall line, line ∈ backup_lines content -> is_blank line = false)
  /\ exists e,
       importBackup inputPath clearExisting w = (Throw e, (ensureInitialized w).2)
       /\ stored_records (ensureInitialized w).2 = stored_records w
       /\ (isInitialized (this w) = true -> (ensureInitialized w).2 = w).
Proof.
  intros Hfile (bad & Hbad & Hparse).
  split.
  { intros [|first rest] Hlines; [reflexivity |].
    unfold backup_lines. now rewrite split_join_lines. }
  split; [apply backup_lines_not_blank |].
  destruct (ensureInitialized_effects w) as (Hfiles & Hrecords & Hsame).
  unfold importBackup.
  destruct (ensureInitialized w) as [[[]|e] w1] eqn:Hens; cbn [snd] in *.
  2: { exists e. split; [| split; assumption]. now apply bind_throw. }
  rewrite (bind_ok _ _ _ _ _ Hens). cbv beta.
  rewrite (bind_ok get_files _ w1 (files w1) w1 eq_refl).
  rewrite Hfiles, Hfile.
  destruct (backup_lines content) as [|first rest]; [inversion Hbad |].
  unfold of_outcome, parse at 1.
  destruct (JSON_parse first) as [metadata|] eqn:Hfirst.
  - assert (Hrest : bad ∈ rest).
    { apply elem_of_cons in Hbad as [->|H]; [congruence | exact H]. }
    rewrite (bind_ok _ _ w1 metadata w1 eq_refl).
    destruct (match metadata with VNull => throw TypeError | _ => ret tt end w1)
      as [[[]|e] w2] eqn:Hnull.
    + assert (w2 = w1) as ->.
      { unfold throw, ret in Hnull. destruct metadata; congruence. }
      rewrite (bind_ok _ _ _ _ _ Hnull).
      rewrite (parse_documents_malformed rest bad Hrest Hparse).
      exists SyntaxError. split; [reflexivity | split; assumption].
    + assert (w2 = w1) as ->.
      { unfold throw, ret in Hnull. destruct metadata; congruence. }
      rewrite (bind_throw _ _ _ _ _ Hnull).
      exists e. split; [reflexivity | split; assumption].
  - exists SyntaxError. split; [reflexivity | split; assumption].
Qed.

(** *** The backup codec *)

Lemma ensureInitialized_connects w :
  reachable (server w) = true -> connected w ->
  exists wi,
    ensureInitialized w = (Ok tt, wi)
    /\ ready wi (stored_records w)
    /\ collectionName (this wi) = collectionName (this w)
    /\ embeddingFunction (this wi) = embeddingFunction (this w)
    /\ files wi = files w.
Proof.
  intros Hup Hwf. destruct (isInitialized (this w)) eqn:Hini.
  - exists w. rewrite (ensureInitialized_ready w Hini).
    destruct (Hwf Hini) as [Hhandle [records Hrecords]].
    split; [reflexivity |]. split; [| auto].
    split; auto. unfold stored_records. now rewrite Hrecords.
  - rewrite (ensureInitialized_fresh w Hini).
    destruct w as [[c name ef ini] [up colls] fs]. cbn in Hup, Hini. subst up ini.
    unfold stored_records. run_client.
    destruct (colls !! name) as [records|] eqn:Hl; crunch; rewrite ?Hl; crunch.
    + eexists. split; [reflexivity |]. split; [| auto].
      split; crunch; auto.
    + eexists. split; [reflexivity |]. split; [| auto].
      split; crunch; auto. apply lookup_insert_eq.
Qed.

Lemma document_of_row_exported id record :
  document_of_row (get_row (id, record)) = exported id record.
Proof.
  unfold document_of_row, get_row, exported. cbn.
  destruct (stored_metadata record); cbn; [reflexivity |].
  now rewrite fmap_empty.
Qed.

Lemma getAllDocuments_ready w records :
  ready w records ->
  getAllDocuments None w = (Ok (exported_documents records), w).
Proof.
  intros [Hini Hhandle Hup Hrecords]. unfold getAllDocuments.
  rewrite (bind_ok _ _ _ _ _ (ensureInitialized_ready w Hini)).
  unfold bind, get_this, ask_server, collection_get, ret.
  rewrite Hhandle, Hup, Hrecords. do 2 f_equal.
  unfold exported_documents. rewrite map_map. apply map_ext.
  intros [id record]. apply document_of_row_exported.
Qed.

Lemma getStats_ready w records :
  ready w records -> getStats w = (Ok (stats_of_records records), w).
Proof.
  intros [Hini Hhandle Hup Hrecords]. unfold getStats.
  rewrite (bind_ok _ _ _ _ _ (ensureInitialized_ready w Hini)).
  unfold bind, get_this, ask_server, collection_count, collection_get, ret, of_outcome,
    toISOString.
  rewrite Hhandle, Hup, Hrecords. reflexivity.
Qed.

Lemma exportBackup_ready w records outputPath :
  ready w records ->
  exportBackup outputPath w
  = (Ok tt, {| this := this w; server := server w;
               files := <[outputPath := backup_text (stats_of_records records)
                                          (exported_documents records)]>
                          (files w) |}).
Proof.
  intros Hready. pose proof (getStats_ready w records Hready) as Hstats.
  unfold exportBackup.
  rewrite (bind_ok _ _ _ _ _ (ensureInitialized_ready w (ready_initialized _ _ Hready))).
  rewrite (bind_ok _ _ _ _ _ (getAllDocuments_ready w records Hready)).
  rewrite (bind_ok _ _ _ _ _ Hstats).
  reflexivity.
Qed.

(** Flat metadata passes through the sanitizer and the store unchanged. *)
Lemma sanitizeMetadata_scalars (m : gmap string scalar) :
  sanitizeMetadata (value_of_scalar <$> m) = Ok (value_of_scalar <$> m).
Proof.
  unfold sanitizeMetadata, Sanitizer.sanitizeMetadata.
  pose proof (SanitizerProofs.sanitize_entries_spec Number_toString Date_toString
                Date_toISOString (map_to_list (value_of_scalar <$> m))
                (NoDup_fst_map_to_list _) ∅) as Hspec.
  destruct (Sanitizer.sanitize_entries _ _ _ _ _) as [sanitized|e].
  - destruct Hspec as [Hin Hout]. f_equal. apply map_eq. intros key.
    destruct ((value_of_scalar <$> m) !! key) as [v|] eqn:Hl.
    + pose proof Hl as Hl'. apply elem_of_map_to_list in Hl'.
      destruct (Hin key v Hl') as [_ ->]. rewrite lookup_empty.
      rewrite lookup_fmap in Hl. destruct (m !! key) as [[]|]; cbn in Hl;
        try discriminate Hl; injection Hl as <-; reflexivity.
    + rewrite Hout; [apply lookup_empty |].
      intros Hk. apply list_elem_of_fmap in Hk as ([k v] & -> & Hkv).
      apply elem_of_map_to_list in Hkv. cbn in Hl. congruence.
  - destruct Hspec as [_ [key Hk]]. apply elem_of_map_to_list in Hk.
    rewrite lookup_fmap in Hk. destruct (m !! key) as [[]|]; discriminate Hk.
Qed.

Lemma stored_metadata_of_scalars (m : gmap string scalar) :
  stored_metadata_of (value_of_scalar <$> m) = m.
Proof.
  unfold stored_metadata_of. apply map_eq. intros key.
  rewrite lookup_omap, lookup_fmap. now destruct (m !! key) as [[]|].
Qed.

Lemma exported_plain id record : plain (exported id record).
Proof. split; [reflexivity |]. eexists. reflexivity. Qed.

Lemma as_document_record doc :
  doc_embedding doc = None -> as_document (document_record doc) = Some doc.
Proof.
  destruct doc as [id content metadata emb]. cbn. intros ->.
  unfold as_document, document_record. cbn [list_to_map foldr uncurry].
  simplify_map_eq. reflexivity.
Qed.

Lemma embed_missing_plain generate documents :
  Forall plain documents ->
  Forall (fun doc => is_Some (generate (doc_content doc))) documents ->
  embed_missing generate documents = Ok (map (embedded generate) documents).
Proof.
  induction documents as [|doc documents IH]; intros Hplain Hgen; [reflexivity |].
  inversion Hplain as [|? ? [Hemb _] Hplain']; subst.
  inversion Hgen as [|? ? [e He] Hgen']; subst.
  cbn [embed_missing map]. rewrite Hemb, He, (IH Hplain' Hgen').
  unfold embedded. now rewrite He.
Qed.

Lemma add_rows_embedded generate documents :
  Forall plain documents ->
  add_rows (map (embedded generate) documents) = Ok (map (row_of generate) documents).
Proof.
  induction documents as [|doc documents IH]; intros Hplain; [reflexivity |].
  inversion Hplain as [|? ? [_ [m Hm]] Hplain']; subst.
  cbn [add_rows map embedded doc_metadata doc_id doc_content doc_embedding].
  rewrite Hm, sanitizeMetadata_scalars, (IH Hplain').
  unfold row_of. now rewrite Hm.
Qed.

Lemma with_records_same w records :
  ready w records -> with_records w records = w.
Proof.
  intros [_ _ Hup Hrecords]. destruct w as [c [up colls] fs]. cbn in *. subst up.
  unfold with_records. cbn. now rewrite (insert_id _ _ _ Hrecords).
Qed.

Lemma with_records_ready w records records' :
  ready w records -> ready (with_records w records') records'.
Proof.
  intros [Hini Hhandle _ _]. split; cbn; auto. apply lookup_insert_eq.
Qed.

Lemma with_records_again w records records' :
  with_records (with_records w records) records' = with_records w records'.
Proof. unfold with_records. cbn. now rewrite insert_insert_eq. Qed.

Lemma addDocuments_plain w records generate documents :
  ready w records ->
  embeddingFunction (this w) = Some generate ->
  Forall plain documents ->
  Forall (fun doc => is_Some (generate (doc_content doc))) documents ->
  addDocuments documents w
  = (Ok tt, with_records w (fold_left store_row (map (row_of generate) documents) records)).
Proof.
  intros Hready Hgenerate Hplain Hgen.
  pose proof Hready as [Hini Hhandle Hup Hrecords].
  unfold addDocuments.
  rewrite (bind_ok _ _ _ _ _ (ensureInitialized_ready w Hini)).
  rewrite (bind_ok get_this _ w (this w) w eq_refl). rewrite Hhandle.
  destruct documents as [|doc documents].
  - cbn. now rewrite (with_records_same w records Hready).
  - assert (Hnone : forallb (fun d => bool_decide (is_Some (doc_embedding d)))
                      (doc :: documents) = false).
    { inversion Hplain as [|? ? [Hemb _] _]; subst. cbn. rewrite Hemb.
      rewrite bool_decide_eq_false_2; [reflexivity |]. intros [? ?]; discriminate. }
    rewrite Hnone, Hgenerate.
    rewrite (bind_ok (of_outcome (embed_missing generate (doc :: documents))) _ w
               (map (embedded generate) (doc :: documents)) w)
      by (unfold of_outcome; now rewrite embed_missing_plain).
    rewrite (bind_ok (of_outcome (add_rows (map (embedded generate) (doc :: documents)))) _ w
               (map (row_of generate) (doc :: documents)) w)
      by (unfold of_outcome; now rewrite add_rows_embedded).
    unfold call_server, collection_add. now rewrite Hup, Hrecords.
Qed.

(** *** Batches *)

Lemma batches_map {A B} (f : A -> B) fuel size (l : list A) :
  batches fuel size (map f l) = map (map f) (batches fuel size l).
Proof.
  revert l. induction fuel as [|fuel IH]; intros [|x l]; try reflexivity.
  cbn [batches map]. rewrite <- IH.
  change (f x :: map f l) with (map f (x :: l)).
  now rewrite <- !fmap_take, <- !fmap_drop.
Qed.

Lemma batches_concat {A} fuel size (l : list A) :
  (0 < size)%nat -> (length l <= fuel)%nat ->
  concat (batches fuel size l) = l.
Proof.
  intros Hsize. revert l. induction fuel as [|fuel IH]; intros [|x l] Hfuel;
    try reflexivity; cbn in Hfuel; [lia |].
  cbn [batches concat]. rewrite IH.
  - apply take_drop.
  - rewrite length_drop. cbn [length]. lia.
Qed.

Lemma batches_Forall {A} (P : A -> Prop) fuel size (l : list A) :
  Forall P l -> Forall (Forall P) (batches fuel size l).
Proof.
  revert l. induction fuel as [|fuel IH]; intros [|x l] Hl; try constructor.
  - now apply Forall_take.
  - apply IH. now apply Forall_drop.
Qed.

Lemma mapM_as_document documents :
  Forall plain documents ->
  mapM as_document (map document_record documents) = Some documents.
Proof.
  intros Hplain. apply mapM_Some. induction Hplain as [|doc documents [Hemb _] _ IH].
  - constructor.
  - cbn. constructor; [now apply as_document_record | exact IH].
Qed.

Lemma add_batches_plain generate (bs : list (list VectorDocument)) :
  Forall (Forall plain) bs ->
  Forall (Forall (fun doc => is_Some (generate (doc_content doc)))) bs ->
  forall w records,
    ready w records ->
    embeddingFunction (this w) = Some generate ->
    add_batches (map (map document_record) bs) w
    = (Ok tt, with_records w
                (fold_left store_row (map (row_of generate) (concat bs)) records)).
Proof.
  induction bs as [|batch bs IH]; intros Hplain Hgen w records Hready Hgenerate.
  - cbn. unfold ret. now rewrite (with_records_same w records Hready).
  - inversion Hplain as [|? ? Hb Hbs]; subst. inversion Hgen as [|? ? Gb Gbs]; subst.
    cbn [map add_batches]. unfold addParsedDocuments.
    rewrite (mapM_as_document batch Hb).
    rewrite (bind_ok _ _ _ _ _ (addDocuments_plain w records generate batch
                                  Hready Hgenerate Hb Gb)).
    rewrite (IH Hbs Gbs _ _ (with_records_ready w records _ Hready) Hgenerate).
    rewrite with_records_again. cbn [concat]. now rewrite map_app, fold_left_app.
Qed.

(** *** What a full re-import stores *)

Lemma fold_store_rows (rows : list AddRow) :
  NoDup (map add_id rows) ->
  fold_left store_row rows ∅
  = list_to_map (map (fun row => (add_id row, stored_of_row row)) rows).
Proof.
  induction rows as [|row rows IH] using rev_ind; intros Hnd; [reflexivity |].
  rewrite map_app in Hnd. apply NoDup_app in Hnd as (Hnd & Hfresh & _).
  rewrite fold_left_app, map_app. cbn [fold_left map].
  rewrite list_to_map_snoc.
  - rewrite (IH Hnd). reflexivity.
  - intros Hin. apply list_elem_of_fmap in Hin as ([id record] & Hid & Hin).
    apply list_elem_of_fmap in Hin as (row' & Heq & Hrow').
    injection Heq as -> ->. cbn in Hid.
    apply (Hfresh (add_id row')).
    + apply list_elem_of_fmap. now exists row'.
    + rewrite <- Hid. apply elem_of_cons. now left.
Qed.

Lemma reimport_records generate (records : gmap string Stored) :
  fold_left store_row (map (row_of generate) (exported_documents records)) ∅
  = reimported generate <$> records.
Proof.
  assert (Hrows : forall f : AddRow -> string * Stored,
            (forall entry : string * Stored,
               f (row_of generate (exported entry.1 entry.2))
               = prod_map id (reimported generate) entry) ->
            map f (map (row_of generate) (exported_documents records))
            = prod_map id (reimported generate) <$> map_to_list records).
  { intros f Hf. unfold exported_documents. rewrite !map_map.
    apply map_ext. intros entry. apply Hf. }
  rewrite fold_store_rows.
  - rewrite (Hrows (fun row => (add_id row, stored_of_row row))).
    + now rewrite list_to_map_fmap, list_to_map_to_list.
    + intros [id record]. unfold row_of, stored_of_row, exported, reimported, prod_map.
      cbn. now rewrite stored_metadata_of_scalars.
  - unfold exported_documents. rewrite !map_map. cbn.
    apply (NoDup_fst_map_to_list records).
Qed.

Lemma clear_step w records :
  ready w records ->
  (call_server (deleteCollection (collectionName (this w))) ;;;
   handle <- call_server (createCollection (collectionName (this w))) ;;
   set_collection (Some handle)) w
  = (Ok tt, with_records w ∅).
Proof.
  intros [Hini Hhandle Hup Hrecords].
  destruct w as [[c name ef ini] [up colls] fs]. cbn in *. subst c up ini.
  unfold with_records. run_client. rewrite Hrecords. crunch.
  rewrite lookup_delete_eq. crunch. now rewrite insert_delete_eq.
Qed.

Lemma parse_documents_records documents :
  Forall (fun doc => JSON_parse (JSON_stringify (document_record doc))
                     = Some (document_record doc)) documents ->
  parse_documents (map (fun doc => JSON_stringify (document_record doc)) documents)
  = Ok (map document_record documents).
Proof.
  induction 1 as [|doc documents Hdoc _ IH]; [reflexivity |].
  cbn [map parse_documents]. unfold parse at 1. now rewrite Hdoc, IH.
Qed.

(** The lines of the text [exportBackup] writes. *)
Lemma backup_text_lines stats documents :
  let header := JSON_stringify (header_record "1.0" (Date_toISOString now) stats) in
  let lines := map (fun doc => JSON_stringify (document_record doc)) documents in
  one_line header -> is_blank header = false ->
  Forall (fun line => one_line line /\ is_blank line = false) lines ->
  Classifier.split newline (backup_text stats documents)
  = header :: match lines with [] => [""] | _ :: _ => lines end
  /\ backup_lines (backup_text stats documents) = header :: lines.
Proof.
  intros header lines Hone Hblank Hlines.
  assert (Hkeep : forall ls, Forall (fun line => one_line line /\ is_blank line = false) ls ->
            List.filter (fun line => negb (is_blank line)) ls = ls).
  { induction 1 as [|l ls [_ Hl] _ IH]; [reflexivity |].
    cbn. now rewrite Hl, IH. }
  assert (Hsplit : Classifier.split newline (backup_text stats documents)
                   = header :: match lines with [] => [""] | _ :: _ => lines end).
  { unfold backup_text. fold header lines. destruct lines as [|l ls] eqn:El.
    - cbn [join_strings]. unfold line_feed. rewrite append_cons.
      now rewrite ClassifierProofs.split_first_segment.
    - change (header +:+ line_feed +:+ join_strings line_feed (l :: ls))
        with (join_strings line_feed (header :: l :: ls)).
      apply split_join_lines. constructor; [exact Hone |].
      eapply Forall_impl; [exact Hlines |]. now intros line [? _]. }
  split; [exact Hsplit |].
  unfold backup_lines. rewrite Hsplit.
  cbn [List.filter]. rewrite Hblank. cbn [negb]. f_equal.
  destruct lines as [|l ls]; [reflexivity |]. now apply Hkeep.
Qed.

Lemma stored_records_with_records w records :
  stored_records (with_records w records) = records.
Proof. unfold stored_records, with_records. cbn. now rewrite lookup_insert_eq. Qed.

Lemma record_triple_reimported generate (records : gmap string Stored) :
  record_triple <$> (reimported generate <$> records) = record_triple <$> records.
Proof.
  rewrite <- map_fmap_compose. apply map_fmap_ext. intros id record _. reflexivity.
Qed.

Lemma ready_connected w records : ready w records -> connected w.
Proof. intros [_ Hhandle _ Hrecords] _. split; [exact Hhandle | now exists records]. Qed.

(** Importing, with [clearExisting = true], the text exported from
    [records]: whatever the target collection held, it ends up holding
    the re-imported [records]. *)
Lemma importBackup_restores (target : World) path generate records stats :
  files target !! path = Some (backup_text stats (exported_documents records)) ->
  reachable (server target) = true ->
  connected target ->
  embeddingFunction (this target) = Some generate ->
  (let line := JSON_stringify (header_record "1.0" (Date_toISOString now) stats) in
   one_line line /\ is_blank line = false
   /\ exists v, JSON_parse line = Some v /\ v <> VNull) ->
  Forall (fun doc =>
            is_Some (generate (doc_content doc))
            /\ one_line (JSON_stringify (document_record doc))
            /\ is_blank (JSON_stringify (document_record doc)) = false
            /\ JSON_parse (JSON_stringify (document_record doc))
               = Some (document_record doc)) (exported_documents records) ->
  exists w2,
    importBackup path true target = (Ok tt, w2)
    /\ stored_records w2 = reimported generate <$> records.
Proof.
  intros Hfile Hup Hwf Hgenerate (Hone & Hblank & v & Hparse & Hnull) Hall.
  set (documents := exported_documents records) in *.
  assert (Hplain : Forall plain documents).
  { apply Forall_forall. intros doc Hdoc. apply list_elem_of_In in Hdoc.
    apply in_map_iff in Hdoc as ([id record] & <- & _). apply exported_plain. }
  destruct (backup_text_lines stats documents Hone Hblank) as [_ Hlines].
  { apply Forall_forall. intros line Hline. apply list_elem_of_In in Hline.
    apply in_map_iff in Hline as (doc & <- & Hdoc).
    apply list_elem_of_In in Hdoc.
    rewrite Forall_forall in Hall. destruct (Hall doc Hdoc) as (_ & ? & ? & _).
    now split. }
  destruct (ensureInitialized_connects target Hup Hwf)
    as (wi & Hens & Hready & Hname & Hef & Hfiles).
  set (final := fold_left store_row (map (row_of generate) documents) ∅).
  exists (with_records wi final). split.
  - unfold importBackup.
    rewrite (bind_ok _ _ _ _ _ Hens). cbv beta.
    rewrite (bind_ok get_files _ wi (files wi) wi eq_refl).
    rewrite Hfiles, Hfile, Hlines.
    rewrite (bind_ok (of_outcome (parse _)) _ wi v wi)
      by (unfold of_outcome, parse; now rewrite Hparse).
    rewrite (bind_ok _ _ wi tt wi) by (destruct v; try reflexivity; contradiction).
    rewrite (bind_ok (of_outcome (parse_documents _)) _ wi (map document_record documents) wi).
    2: { unfold of_outcome. rewrite parse_documents_records; [reflexivity |].
         eapply Forall_impl; [exact Hall |]. now intros doc (_ & _ & _ & ?). }
    rewrite (bind_ok get_this _ wi (this wi) wi eq_refl).
    rewrite (ready_handle _ _ Hready).
    rewrite (bind_ok _ _ _ _ _ (clear_step wi _ Hready)).
    rewrite length_map, batches_map.
    rewrite (add_batches_plain generate _
               (batches_Forall _ _ _ _ Hplain)
               (batches_Forall _ _ _ _ (Forall_impl _ _ _ Hall (fun _ H => proj1 H)))
               (with_records wi ∅) ∅ (with_records_ready wi _ ∅ Hready)).
    + rewrite with_records_again, batches_concat by lia. reflexivity.
    + cbn. now rewrite Hef.
  - rewrite stored_records_with_records. unfold final, documents.
    apply reimport_records.
Qed.


End Methods.

End Client.


(** ** A reference runtime

    Concrete stand-ins for the runtime functions the client is
    parametrized by: number and date printing, a JSON printer and parser
    for integers, strings, booleans, [null], arrays and objects, an
    embedding generator and a nearest-neighbour search by city-block
    distance. *)

Module Runtime.

Import Js Store.

(** *** Numbers and dates *)

(** Decimal printing of an integer-valued number. *)
Definition print_number (n : Q) : string :=
  IdentityAssigner.Number_toString (Qnum n / Z.pos (Qden n)).

Definition digits (width : nat) (n : Z) : string :=
  let s := IdentityAssigner.Number_toString (Z.abs n) in
  fold_right (fun _ acc => "0" +:+ acc) s (seq 0 (width - String.length s)).

(** [Date.prototype.toISOString]: proleptic Gregorian calendar, UTC. *)
Definition toISOString (t : Z) : string :=
  let day := t / 86400000 in
  let ms := t mod 86400000 in
  let z := day + 719468 in
  let era := z / 146097 in
  let doe := z - era * 146097 in
  let yoe := (doe - doe / 1460 + doe / 36524 - doe / 146096) / 365 in
  let doy := doe - (365 * yoe + yoe / 4 - yoe / 100) in
  let mp := (5 * doy + 2) / 153 in
  let d := doy - (153 * mp + 2) / 5 + 1 in
  let m := if mp <? 10 then mp + 3 else mp - 9 in
  let y := yoe + era * 400 + (if m <=? 2 then 1 else 0) in
  let year := if (0 <=? y) && (y <=? 9999) then digits 4 y
              else (if y <? 0 then "-" else "+") +:+ digits 6 y in
  year +:+ "-" +:+ digits 2 m +:+ "-" +:+ digits 2 d
  +:+ "T" +:+ digits 2 (ms / 3600000) +:+ ":" +:+ digits 2 (ms / 60000 mod 60)
  +:+ ":" +:+ digits 2 (ms / 1000 mod 60) +:+ "." +:+ digits 3 (ms mod 1000) +:+ "Z".

(** *** JSON *)

Definition quote : ascii := ascii_of_N 34.
Definition backslash : ascii := ascii_of_N 92.

Fixpoint escape (s : string) : string :=
  match s with
  | "" => ""
  | String c rest =>
      if Ascii.eqb c quote then String backslash (String quote (escape rest))
      else if Ascii.eqb c backslash then String backslash (String backslash (escape rest))
      else if Ascii.eqb c Client.newline then String backslash (String "n" (escape rest))
      else String c (escape rest)
  end.

Definition quoted (s : string) : string :=
  String quote (escape s +:+ String quote "").

(** [JSON.stringify(v)], on one line. *)
Fixpoint stringify (v : value) : string :=
  match v with
  | VUndefined | VNull | VDate None => "null"
  | VBool true => "true"
  | VBool false => "false"
  | VNum n => print_number n
  | VStr s => quoted s
  | VDate (Some t) => quoted (toISOString t)
  | VArray elems => "[" +:+ join_strings "," (map stringify elems) +:+ "]"
  | VObject fields =>
      "{" +:+ join_strings ","
                (map_fold (fun key v acc => (quoted key +:+ ":" +:+ stringify v) :: acc)
                          [] fields)
      +:+ "}"
  end.

(** The characters of a string literal up to its closing quote. *)
Fixpoint unescape (s : string) : option (string * string) :=
  match s with
  | "" => None
  | String c rest =>
      if Ascii.eqb c quote then Some ("", rest)
      else if Ascii.eqb c backslash then
        match rest with
        | String e rest' =>
            let decoded := if Ascii.eqb e "n" then Some Client.newline
                           else if Ascii.eqb e quote then Some quote
                           else if Ascii.eqb e backslash then Some backslash
                           else None in
            match decoded, unescape rest' with
            | Some d, Some (body, after) => Some (String d body, after)
            | _, _ => None
            end
        | "" => None
        end
      else match unescape rest with
           | Some (body, after) => Some (String c body, after)
           | None => None
           end
  end.

Definition digit_value (c : ascii) : option Z :=
  let n := Z.of_N (N_of_ascii c) in
  if (48 <=? n) && (n <=? 57) then Some (n - 48) else None.

Fixpoint read_digits (acc : Z) (s : string) : Z * string :=
  match s with
  | "" => (acc, "")
  | String c rest =>
      match digit_value c with
      | Some d => read_digits (10 * acc + d) rest
      | None => (acc, s)
      end
  end.

Definition strip (literal s : string) : option string :=
  if String.prefix literal s
  then Some (substring (String.length literal) (String.length s - String.length literal) s)
  else None.

Fixpoint read_value (fuel : nat) (s : string) : option (value * string) :=
  match fuel with
  | O => None
  | S fuel' =>
      match s with
      | "" => None
      | String c rest =>
          if Ascii.eqb c quote then
            match unescape rest with
            | Some (body, after) => Some (VStr body, after)
            | None => None
            end
          else if Ascii.eqb c "[" then
            match rest with
            | String "]" after => Some (VArray [], after)
            | _ => read_elements fuel' rest
            end
          else if Ascii.eqb c "{" then
            match rest with
            | String "}" after => Some (VObject ∅, after)
            | _ => read_members fuel' rest
            end
          else if Ascii.eqb c "-" then
            match rest with
            | String d _ =>
                match digit_value d with
                | Some _ => let '(n, after) := read_digits 0 rest in
                            Some (VNum (inject_Z (- n)), after)
                | None => None
                end
            | "" => None
            end
          else match digit_value c with
               | Some _ => let '(n, after) := read_digits 0 s in
                           Some (VNum (inject_Z n), after)
               | None =>
                   match strip "null" s, strip "true" s, strip "false" s with
                   | Some after, _, _ => Some (VNull, after)
                   | _, Some after, _ => Some (VBool true, after)
                   | _, _, Some after => Some (VBool false, after)
                   | _, _, _ => None
                   end
               end
      end
  end
with read_elements (fuel : nat) (s : string) : option (value * string) :=
  match fuel with
  | O => None
  | S fuel' =>
      match read_value fuel' s with
      | Some (v, String "," after) =>
          match read_elements fuel' after with
          | Some (VArray vs, after') => Some (VArray (v :: vs), after')
          | _ => None
          end
      | Some (v, String "]" after) => Some (VArray [v], after)
      | _ => None
      end
  end
with read_members (fuel : nat) (s : string) : option (value * string) :=
  match fuel with
  | O => None
  | S fuel' =>
      match s with
      | String q rest =>
          if Ascii.eqb q quote then
            match unescape rest with
            | Some (key, String ":" after) =>
                match read_value fuel' after with
                | Some (v, String "," after') =>
                    match read_members fuel' after' with
                    | Some (VObject fields, after'') =>
                        Some (VObject (<[key := v]> fields), after'')
                    | _ => None
                    end
                | Some (v, String "}" after') => Some (VObject {[ key := v ]}, after')
                | _ => None
                end
            | _ => None
            end
          else None
      | "" => None
      end
  end.

(** [JSON.parse(text)]: [None] for what the reader does not accept. *)
Definition parse (text : string) : option value :=
  match read_value (S (String.length text)) text with
  | Some (v, "") => Some v
  | _ => None
  end.

(** *** Embeddings and search *)

(** A two-dimensional embedding: length and number of spaces. *)
Definition embed (text : string) : option embedding :=
  Some [ inject_Z (JsString.len text);
         inject_Z (Z.of_nat (length (List.filter (Ascii.eqb " ")
                                       (list_ascii_of_string text)))) ].

(** City-block distance, scaled by 1/100. *)
Fixpoint distance (a b : embedding) : Q :=
  match a, b with
  | x :: a', y :: b' => (Qabs (x - y) / 100 + distance a' b')%Q
  | _, _ => 0%Q
  end.

Definition where_matches (clause : option WhereClause) (metadata : option (gmap string scalar))
    : bool :=
  match clause with
  | None => true
  | Some c =>
      let field name := metadata ≫= (.!! name) in
      let agrees (wanted : option string) (name : string) :=
        match wanted with
        | None => true
        | Some s => match field name with
                    | Some (SStr s') => String.eqb s s'
                    | _ => false
                    end
        end in
      agrees (where_category c) "category" && agrees (where_source c) "source"
  end.

(** The [nResults] nearest records that satisfy the [where] clause. *)
Definition nearest (records : gmap string Stored) (queryEmbedding : embedding)
    (nResults : nat) (clause : option WhereClause) : list QueryRow :=
  let rows :=
    map (fun entry : string * Stored =>
           {| hit_id := entry.1;
              hit_document := stored_document entry.2;
              hit_metadata := stored_metadata entry.2;
              hit_distance := distance queryEmbedding (stored_embedding entry.2) |})
        (List.filter (fun entry : string * Stored =>
                        where_matches clause (stored_metadata entry.2))
                     (map_to_list records)) in
  take nResults
    (Client.js_sort (fun a b => (hit_distance a - hit_distance b)%Q) rows).

Example toISOString_epoch : toISOString 0 = "1970-01-01T00:00:00.000Z".
Proof. vm_compute. reflexivity. Qed.

Example toISOString_2023 : toISOString 1700000000000 = "2023-11-14T22:13:20.000Z".
Proof. vm_compute. reflexivity. Qed.

Example toISOString_leap_day : toISOString 951782400000 = "2000-02-29T00:00:00.000Z".
Proof. vm_compute. reflexivity. Qed.

Example toISOString_before_epoch : toISOString (-1) = "1969-12-31T23:59:59.999Z".
Proof. vm_compute. reflexivity. Qed.

Example parse_stringify_record :
  let record := VObject (list_to_map
                  [ ("id", VStr "a"); ("n", VNum 60); ("ok", VBool true);
                    ("tags", VArray [VStr "x"; VNull]);
                    ("meta", VObject {[ "k" := VStr (String Client.newline "two") ]}) ]) in
  parse (stringify record) = Some record
  /\ Client.one_line (stringify record).
Proof. vm_compute. split; reflexivity. Qed.

Example parse_malformed : parse "{broken" = None.
Proof. vm_compute. reflexivity. Qed.

Lemma nearest_limit records queryEmbedding nResults clause :
  (length (nearest records queryEmbedding nResults clause) <= nResults)%nat.
Proof. unfold nearest. rewrite length_take. lia. Qed.

End Runtime.


(** ** The theorems at work on a small collection *)

Module Examples.

Import Js Store Client Runtime.

Definition record_a : Stored :=
  {| stored_document := Some "alpha beta";
     stored_metadata := Some (list_to_map [ ("source", SStr "docs");
                                            ("category", SStr "design");
                                            ("priority", SNum 60) ]);
     stored_embedding := [10; 1]%Q |}.

Definition record_b : Stored :=
  {| stored_document := Some ("gamma" +:+ line_feed +:+ "delta epsilon");
     stored_metadata := Some (list_to_map [ ("source", SStr "memory-bank");
                                            ("draft", SBool true) ]);
     stored_embedding := [19; 1]%Q |}.

(** A record stored without document or metadata. *)
Definition record_c : Stored :=
  {| stored_document := None; stored_metadata := None; stored_embedding := [90; 9]%Q |}.

Definition records : gmap string Stored :=
  list_to_map [ ("a1", record_a); ("b2", record_b); ("c3", record_c) ].

Definition store : Server :=
  {| reachable := true; collections := {[ "project-docs" := records ]} |}.

(** A client on which [initialize] was never called. *)
Definition world : World :=
  {| this := new_client "project-docs" (Some embed); server := store; files := ∅ |}.

Definition options : QueryOptions :=
  {| opt_limit := Some 2%nat; opt_threshold := Some (1 # 2);
     opt_category := None; opt_source := None; opt_tags := None;
     opt_dateRange := None |}.

Definition no_options : QueryOptions :=
  {| opt_limit := None; opt_threshold := None; opt_category := None;
     opt_source := None; opt_tags := None; opt_dateRange := None |}.

Definition clock : Z := 1700000000000.

(** A backup whose second document line is cut short, with a blank line
    before it. *)
Definition broken_backup : string :=
  "{}" +:+ line_feed +:+ stringify (document_record (exported "a1" record_a))
  +:+ line_feed +:+ "   " +:+ line_feed +:+ "{broken".

Definition world_with_broken_backup : World :=
  {| this := new_client "project-docs" (Some embed); server := store;
     files := {[ "backup.jsonl" := broken_backup ]} |}.

(** Another client, on a store without any collection, holding a backup
    file [text]. *)
Definition empty_target (text : string) : World :=
  {| this := new_client "restored-docs" (Some embed);
     server := {| reachable := true; collections := ∅ |};
     files := {[ "backup.jsonl" := text ]} |}.


(** C7 as stated fails: on a client that was never initialized, [query]
    does not fail; it initializes the client and returns the two records
    that pass the default threshold, best first. *)
Lemma query_before_initialize_counterexample :
  isInitialized (this world) = false
  /\ exists results w',
       query toISOString nearest "alpha beta" no_options world = (Ok results, w')
       /\ map result_id results = ["a1"; "b2"]
       /\ isInitialized (this w') = true.
Proof.
  split; [reflexivity |].
  eexists. eexists. split; [vm_compute; reflexivity |].
  split; vm_compute; reflexivity.
Qed.

(** The theorem of C7 on that client. *)
Lemma query_initializes_first_witness :
  isInitialized (this world) = false
  /\ exists w',
       initialize world = (Ok tt, w')
       /\ query toISOString nearest "alpha beta" no_options world
          = query toISOString nearest "alpha beta" no_options w'.
Proof.
  split; [reflexivity |].
  destruct (query_initializes_first toISOString nearest world "alpha beta" no_options
              eq_refl) as (_ & Hgoes_on & _).
  destruct (initialize world) as [[[]|e] w'] eqn:Hinit.
  - exists w'. split; [reflexivity |]. now apply Hgoes_on.
  - vm_compute in Hinit. discriminate Hinit.
Defined.

(** The theorem of C9 on that client. *)
Lemma clearCollection_requires_confirmation_witness :
  clearCollection None world
  = (Throw (JsError "Must confirm deletion by passing true"), world)
  /\ exists w', clearCollection (Some true) world = (Ok tt, w')
                /\ stored_records w' = ∅.
Proof.
  destruct (clearCollection_requires_confirmation world)
    as (Hrefused & _ & Hcleared & Hreturns).
  split; [apply Hrefused; now left |].
  destruct Hreturns as [w' Hrun]; [reflexivity | discriminate |].
  exists w'. split; [exact Hrun |]. now apply Hcleared.
Defined.

(** The theorem of C10: the import throws and the three records stay. *)
Lemma importBackup_parses_before_writing_witness :
  exists e w',
    importBackup Runtime.print_number toISOString toISOString parse
      "backup.jsonl" true world_with_broken_backup = (Throw e, w')
    /\ stored_records w' = records.
Proof.
  destruct (importBackup_parses_before_writing Runtime.print_number toISOString
              toISOString parse world_with_broken_backup "backup.jsonl" true
              broken_backup)
    as (_ & _ & e & Hrun & Hrecords & _).
  - reflexivity.
  - exists "{broken". split; [| vm_compute; reflexivity].
    apply list_elem_of_In. vm_compute. right. right. now left.
  - exists e, (ensureInitialized world_with_broken_backup).2.
    split; [exact Hrun |]. rewrite Hrecords. vm_compute. reflexivity.
Defined.



End Examples.

(** ** Regular expressions

    The fragment of ECMAScript regular expressions the ingestion script
    uses, with the backtracking semantics of the language: a pattern is
    run against the rest of the input with a continuation, and a greedy
    quantifier tries the longest repetition first.  A position of the
    input is the code unit before it ([None] at the start) and the code
    units from it on. *)

Module RegExp.

Inductive pattern :=
| Unit (class : ascii -> bool)                 (* a literal or a class: one code unit *)
| Then (p q : pattern)                         (* p q *)
| Repeat (class : ascii -> bool) (min : nat) (max : option nat)
                                               (* class{min,max}, class+ : greedy *)
| Capture (p : pattern)                        (* ( p ), the first group *)
| NotAhead (p : pattern)                       (* (?! p ) *)
| LineStart                                    (* ^ under the m flag *)
| LineEnd                                      (* $ under the m flag *)
| WordBoundary.                                (* \b *)

(** What is left of the input after a match, and the first group. *)
Definition result : Type := list ascii * option (list ascii).

Definition continuation : Type :=
  option ascii -> list ascii -> option (list ascii) -> option result.

Definition code (c : ascii) : N := N_of_ascii c.

Definition between (lo hi : N) (c : ascii) : bool :=
  ((lo <=? code c) && (code c <=? hi))%N.

Definition code_is (n : N) (c : ascii) : bool := (code c =? n)%N.

(** LineTerminator: LF, CR (U+2028 and U+2029 lie above 255). *)
Definition line_terminator (c : ascii) : bool :=
  code_is 10 c || code_is 13 c || code_is 8232 c || code_is 8233 c.

(** [\w]: A-Z, a-z, 0-9 and the underscore. *)
Definition word (c : ascii) : bool :=
  between 65 90 c || between 97 122 c || between 48 57 c || code_is 95 c.

(** [.] without the s flag. *)
Definition dot (c : ascii) : bool := negb (line_terminator c).

Definition holds (class : ascii -> bool) (x : option ascii) : bool :=
  match x with
  | Some c => class c
  | None => false
  end.

(** The continuation of a quantifier that has matched [min] times. *)
Definition enough (min : nat) (k : continuation)
    (prev : option ascii) (rest : list ascii) (cap : option (list ascii))
    : option result :=
  match min with
  | O => k prev rest cap
  | S _ => None
  end.

(** RepeatMatcher for an atom of one code unit: one more unit first, the
    continuation when that fails. *)
Fixpoint repeat_units (class : ascii -> bool) (min : nat) (max : option nat)
    (prev : option ascii) (rest : list ascii) (cap : option (list ascii))
    (k : continuation) : option result :=
  match max with
  | Some O => k prev rest cap
  | _ =>
      match rest with
      | c :: rest' =>
          if class c then
            match repeat_units class (Nat.pred min) (Nat.pred <$> max)
                    (Some c) rest' cap k with
            | Some r => Some r
            | None => enough min k prev rest cap
            end
          else enough min k prev rest cap
      | [] => enough min k prev rest cap
      end
  end.

Fixpoint run (p : pattern) (prev : option ascii) (rest : list ascii)
    (cap : option (list ascii)) (k : continuation) : option result :=
  match p with
  | Unit class =>
      match rest with
      | c :: rest' => if class c then k (Some c) rest' cap else None
      | [] => None
      end
  | Then p q =>
      run p prev rest cap (fun prev' rest' cap' => run q prev' rest' cap' k)
  | Repeat class min max => repeat_units class min max prev rest cap k
  | Capture p =>
      run p prev rest cap
        (fun prev' rest' _ =>
           k prev' rest' (Some (take (length rest - length rest') rest)))
  | NotAhead p =>
      match run p prev rest cap (fun _ rest' cap' => Some (rest', cap')) with
      | Some _ => None
      | None => k prev rest cap
      end
  | LineStart =>
      match prev with
      | None => k prev rest cap
      | Some c => if line_terminator c then k prev rest cap else None
      end
  | LineEnd =>
      match rest with
      | [] => k prev rest cap
      | c :: _ => if line_terminator c then k prev rest cap else None
      end
  | WordBoundary =>
      if xorb (holds word prev) (holds word (head rest)) then k prev rest cap
      else None
  end.

(** A match starting at the current position: the number of code units
    it spans and the first group. *)
Definition exec (p : pattern) (prev : option ascii) (rest : list ascii)
    : option (nat * option (list ascii)) :=
  match run p prev rest None (fun _ rest' cap => Some (rest', cap)) with
  | Some (rest', cap) => Some ((length rest - length rest')%nat, cap)
  | None => None
  end.

(** The leftmost match: the code units before it, the match, the first
    group. *)
Fixpoint search (p : pattern) (prev : option ascii) (rest : list ascii)
    : option (list ascii * list ascii * option (list ascii)) :=
  match exec p prev rest with
  | Some (n, cap) => Some ([], take n rest, cap)
  | None =>
      match rest with
      | [] => None
      | c :: rest' =>
          match search p (Some c) rest' with
          | Some (before, matched, cap) => Some (c :: before, matched, cap)
          | None => None
          end
      end
  end.

(** [s.replace(/p/g, f)]: the matches are sought from left to right,
    each one from the end of the one before (one unit further after an
    empty match); [skip] counts the code units of the current match that
    are still to be passed. *)
Fixpoint replace_units (p : pattern) (f : list ascii -> list ascii)
    (prev : option ascii) (rest : list ascii) (skip : nat) : list ascii :=
  match skip with
  | S skip' =>
      match rest with
      | [] => []
      | c :: rest' => replace_units p f (Some c) rest' skip'
      end
  | O =>
      match exec p prev rest with
      | Some (n, _) =>
          f (take n rest)
          ++ match rest with
             | [] => []
             | c :: rest' =>
                 match n with
                 | O => c :: replace_units p f (Some c) rest' 0
                 | S n' => replace_units p f (Some c) rest' n'
                 end
             end
      | None =>
          match rest with
          | [] => []
          | c :: rest' => c :: replace_units p f (Some c) rest' 0
          end
      end
  end.

Definition units (s : string) : list ascii := list_ascii_of_string s.
Definition text (l : list ascii) : string := string_of_list_ascii l.

(** [s.replace(/p/g, f)] *)
Definition replace_all (p : pattern) (f : string -> string) (s : string) : string :=
  text (replace_units p (fun m => units (f (text m))) None (units s) 0).

(** [s.match(/p/)]: the match and the first group, [None] for [null]. *)
Definition match_first (p : pattern) (s : string) : option (string * option string) :=
  match search p None (units s) with
  | Some (_, matched, cap) => Some (text matched, text <$> cap)
  | None => None
  end.

(** [s.trim()]; white space below 256 is what [\s] matches. *)
Fixpoint trim_start (l : list ascii) : list ascii :=
  match l with
  | c :: l' => if Client.is_space c then trim_start l' else l
  | [] => []
  end.

Fixpoint trim_end (l : list ascii) : list ascii :=
  match l with
  | [] => []
  | c :: l' =>
      match trim_end l' with
      | [] => if Client.is_space c then [] else [c]
      | kept => c :: kept
      end
  end.

Definition trim (s : string) : string :=
  text (trim_end (trim_start (units s))).

End RegExp.

(** ** Content sanitizing: [sanitizeContent] of scripts/ingest-docs.ts *)

Module ContentSanitizer.
Import RegExp.

Definition backslash : ascii := ascii_of_N 92.

(** [[0-9a-fA-F]] *)
Definition hex (c : ascii) : bool :=
  between 48 57 c || between 97 102 c || between 65 70 c.

(** [/[\x00-\x08\x0B\x0C\x0E-\x1F\x7F]/g] *)
Definition control_characters : pattern :=
  Unit (fun c => between 0 8 c || code_is 11 c || code_is 12 c || between 14 31 c || code_is 127 c).

(** [/\\x[0-9a-fA-F]{0,2}(?![0-9a-fA-F])/g] *)
Definition incomplete_hex_escapes : pattern :=
  Then (Unit (Ascii.eqb backslash))
    (Then (Unit (Ascii.eqb "x"))
       (Then (Repeat hex 0 (Some 2%nat)) (NotAhead (Unit hex)))).

(** [/\\u[0-9a-fA-F]{0,3}(?![0-9a-fA-F])/g] *)
Definition incomplete_unicode_escapes : pattern :=
  Then (Unit (Ascii.eqb backslash))
    (Then (Unit (Ascii.eqb "u"))
       (Then (Repeat hex 0 (Some 3%nat)) (NotAhead (Unit hex)))).

(** [/[\uFFFD\uFFFE\uFFFF]/g] *)
Definition replacement_characters : pattern :=
  Unit (fun c => code_is 65533 c || code_is 65534 c || code_is 65535 c).

(** [/[\u0000-\u001F\u007F-\u009F]/g] *)
Definition additional_control_chars : pattern :=
  Unit (fun c => between 0 31 c || between 127 159 c).

Definition removed (_ : string) : string := "".

Definition sanitizeContent (text : string) : string :=
  if String.eqb text "" then ""                       (* if (!text) return '' *)
  else
    trim
      (replace_all additional_control_chars removed
         (replace_all replacement_characters removed
            (replace_all incomplete_unicode_escapes removed
               (replace_all incomplete_hex_escapes removed
                  (replace_all control_characters removed text))))).

(** The code units the last replacement deletes: the C0 and C1 controls,
    tab, line feed and carriage return among them, and DEL. *)
Definition is_control (c : ascii) : bool := between 0 31 c || between 127 159 c.

Example sanitizeContent_sample :
  sanitizeContent ("  a" +:+ String (ascii_of_N 10) ("b" +:+ String backslash "x4" +:+ String (ascii_of_N 9) "c "))
  = "abc".
Proof. vm_compute. reflexivity. Qed.

End ContentSanitizer.

Module ContentSanitizerProofs.
Import RegExp ContentSanitizer.

Lemma units_text l : units (text l) = l.
Proof. apply list_ascii_of_string_of_list_ascii. Qed.

Lemma text_units s : text (units s) = s.
Proof. apply string_of_list_ascii_of_string. Qed.

Lemma exec_unit class prev rest :
  exec (Unit class) prev rest
  = match rest with
    | c :: _ => if class c then Some (1%nat, None) else None
    | [] => None
    end.
Proof.
  unfold exec. cbn. destruct rest as [|c rest]; [reflexivity |].
  destruct (class c); [| reflexivity].
  cbn [length]. f_equal. f_equal. lia.
Qed.

(** Deleting the matches of a one-unit class is filtering. *)
Lemma replace_units_class class f prev l :
  (forall m, f m = []) ->
  replace_units (Unit class) f prev l 0 = List.filter (fun c => negb (class c)) l.
Proof.
  intros Hf. revert prev. induction l as [|c l IH]; intros prev.
  - cbn. reflexivity.
  - cbn [replace_units]. rewrite exec_unit. cbn [List.filter].
    destruct (class c); cbn [negb].
    + rewrite Hf. cbn. apply IH.
    + f_equal. apply IH.
Qed.

(** A replacement by the empty string only deletes code units. *)
Lemma replace_units_sublist p f prev l skip :
  (forall m, f m = []) ->
  replace_units p f prev l skip `sublist_of` l.
Proof.
  intros Hf. revert prev skip. induction l as [|c l IH]; intros prev skip.
  - destruct skip; cbn; [| constructor].
    destruct (exec p prev []) as [[n cap]|]; [rewrite Hf |]; constructor.
  - destruct skip as [|skip]; cbn [replace_units].
    + destruct (exec p prev (c :: l)) as [[n cap]|].
      * rewrite Hf. cbn [app]. destruct n.
        -- apply sublist_skip, IH.
        -- apply sublist_cons, IH.
      * apply sublist_skip, IH.
    + apply sublist_cons, IH.
Qed.

(** A pattern that starts with a literal finds nothing in a text without
    that literal. *)
Lemma exec_then_unit class q prev rest :
  holds class (head rest) = false -> exec (Then (Unit class) q) prev rest = None.
Proof.
  intros H. unfold exec. cbn. destruct rest as [|c rest]; [reflexivity |].
  cbn in H. now rewrite H.
Qed.

Lemma replace_units_absent class q f prev l :
  Forall (fun c => class c = false) l ->
  replace_units (Then (Unit class) q) f prev l 0 = l.
Proof.
  intros H. revert prev. induction H as [|c l Hc Hl IH]; intros prev.
  - cbn [replace_units]. now rewrite exec_then_unit.
  - cbn [replace_units]. rewrite exec_then_unit by exact Hc. f_equal. apply IH.
Qed.

Lemma trim_start_sublist l : trim_start l `sublist_of` l.
Proof.
  induction l as [|c l IH]; cbn; [constructor |].
  destruct (Client.is_space c); [apply sublist_cons, IH | reflexivity].
Qed.

Lemma trim_start_head l c rest :
  trim_start l = c :: rest -> Client.is_space c = false.
Proof.
  induction l as [|d l IH]; cbn; [discriminate |].
  destruct (Client.is_space d) eqn:Hd; [exact IH |].
  intros [= -> _]. exact Hd.
Qed.

Lemma trim_start_fixed l :
  holds Client.is_space (head l) = false -> trim_start l = l.
Proof. destruct l as [|c l]; cbn; [reflexivity |]. now intros ->. Qed.

Lemma trim_end_sublist l : trim_end l `sublist_of` l.
Proof.
  induction l as [|c l IH]; cbn; [constructor |].
  destruct (trim_end l) as [|d kept].
  - destruct (Client.is_space c); [apply sublist_cons, sublist_nil_l |].
    apply sublist_skip, sublist_nil_l.
  - apply sublist_skip, IH.
Qed.

Lemma trim_end_head l c kept : trim_end l = c :: kept -> head l = Some c.
Proof.
  destruct l as [|d l]; cbn; [discriminate |].
  destruct (trim_end l); [destruct (Client.is_space d) |]; congruence.
Qed.

Lemma trim_end_last l : holds Client.is_space (last (trim_end l)) = false.
Proof.
  induction l as [|c l IH]; cbn; [reflexivity |].
  destruct (trim_end l) as [|d kept].
  - destruct (Client.is_space c) eqn:E; cbn; [reflexivity | exact E].
  - exact IH.
Qed.

Lemma trim_end_fixed l :
  holds Client.is_space (last l) = false -> trim_end l = l.
Proof.
  induction l as [|c l IH]; cbn; [reflexivity |].
  destruct l as [|d l].
  - cbn. now intros ->.
  - intros H. rewrite IH by exact H. reflexivity.
Qed.

Definition trim_units (l : list ascii) : list ascii := trim_end (trim_start l).

Lemma trim_units_sublist l : trim_units l `sublist_of` l.
Proof.
  unfold trim_units. transitivity (trim_start l);
    [apply trim_end_sublist | apply trim_start_sublist].
Qed.

(** A trimmed text neither starts nor ends with white space. *)
Lemma trim_units_ends l :
  holds Client.is_space (head (trim_units l)) = false
  /\ holds Client.is_space (last (trim_units l)) = false.
Proof.
  unfold trim_units. split; [| apply trim_end_last].
  destruct (trim_end (trim_start l)) as [|c kept] eqn:E; [reflexivity |].
  apply trim_end_head in E.
  destruct (trim_start l) as [|d r] eqn:E'; [discriminate |].
  cbn in E. injection E as ->. cbn. eapply trim_start_head, E'.
Qed.

Lemma trim_units_fixed l :
  holds Client.is_space (head l) = false ->
  holds Client.is_space (last l) = false ->
  trim_units l = l.
Proof.
  intros Hh Hl. unfold trim_units. rewrite (trim_start_fixed l Hh).
  now apply trim_end_fixed.
Qed.

Lemma trim_spec s : trim s = text (trim_units (units s)).
Proof. reflexivity. Qed.

Lemma replace_all_removed_class class s :
  replace_all (Unit class) removed s
  = text (List.filter (fun c => negb (class c)) (units s)).
Proof. unfold replace_all. now rewrite replace_units_class. Qed.

Lemma replace_all_removed_sublist p s :
  units (replace_all p removed s) `sublist_of` units s.
Proof.
  unfold replace_all. rewrite units_text. now apply replace_units_sublist.
Qed.

Lemma filter_sublist_of {A} (f : A -> bool) l : List.filter f l `sublist_of` l.
Proof.
  induction l as [|x l IH]; cbn; [constructor |].
  destruct (f x); [apply sublist_skip | apply sublist_cons]; exact IH.
Qed.

Lemma Forall_filter_bool {A} (f : A -> bool) l :
  Forall (fun x => f x = true) (List.filter f l).
Proof.
  induction l as [|x l IH]; cbn; [constructor |].
  destruct (f x) eqn:E; [constructor; assumption | exact IH].
Qed.

Lemma filter_fixed {A} (f : A -> bool) l :
  Forall (fun x => f x = true) l -> List.filter f l = l.
Proof.
  induction 1 as [|x l Hx Hl IH]; cbn; [reflexivity |].
  rewrite Hx. now f_equal.
Qed.

(** The text after the five replacements. *)
Definition replaced (s : string) : string :=
  replace_all additional_control_chars removed
    (replace_all replacement_characters removed
       (replace_all incomplete_unicode_escapes removed
          (replace_all incomplete_hex_escapes removed
             (replace_all control_characters removed s)))).

Lemma sanitizeContent_replaced s :
  sanitizeContent s = if String.eqb s "" then "" else trim (replaced s).
Proof. reflexivity. Qed.

Lemma replaced_no_control s :
  Forall (fun c => is_control c = false) (units (replaced s)).
Proof.
  unfold replaced. unfold additional_control_chars at 1.
  rewrite replace_all_removed_class, units_text.
  eapply Forall_impl; [apply Forall_filter_bool |].
  intros c H. cbn beta in H. unfold is_control. now destruct (_ || _).
Qed.

Lemma replaced_sublist s : units (replaced s) `sublist_of` units s.
Proof.
  unfold replaced.
  repeat (etransitivity; [apply replace_all_removed_sublist |]).
  reflexivity.
Qed.

(** X1. The text [sanitizeContent] returns holds no control character
    (code units 0 to 31 and 127 to 159), in particular no line feed, and
    neither starts nor ends with white space. *)
Theorem sanitizeContent_no_control (s : string) :
  let out := units (sanitizeContent s) in
  Forall (fun c => is_control c = false) out
  /\ ~ In Client.newline out
  /\ holds Client.is_space (head out) = false
  /\ holds Client.is_space (last out) = false.
Proof.
  cbv zeta. rewrite sanitizeContent_replaced.
  destruct (String.eqb s "").
  { cbn. repeat split; [constructor | tauto]. }
  rewrite trim_spec, units_text.
  assert (Hctl : Forall (fun c => is_control c = false) (trim_units (units (replaced s)))).
  { pose proof (replaced_no_control s) as Hall. rewrite Forall_forall in Hall |- *.
    intros c Hc. apply Hall. eapply elem_of_sublist; [exact Hc | apply trim_units_sublist]. }
  split; [exact Hctl |].
  split.
  { intros Hin. rewrite Forall_forall in Hctl. apply list_elem_of_In in Hin.
    specialize (Hctl _ Hin). discriminate. }
  apply trim_units_ends.
Qed.

(** X2. [sanitizeContent] only deletes: the code units of its result are
    code units of its input, in the same order, and the result is never
    longer than the input. *)
Theorem sanitizeContent_only_deletes (s : string) :
  units (sanitizeContent s) `sublist_of` units s
  /\ (String.length (sanitizeContent s) <= String.length s)%nat.
Proof.
  assert (H : units (sanitizeContent s) `sublist_of` units s).
  { rewrite sanitizeContent_replaced.
    destruct (String.eqb s ""); [apply sublist_nil_l |].
    rewrite trim_spec, units_text.
    transitivity (units (replaced s)); [apply trim_units_sublist | apply replaced_sublist]. }
  split; [exact H |].
  apply sublist_length in H. revert H. unfold units.
  assert (Hlen : forall t, length (list_ascii_of_string t) = String.length t).
  { induction t as [|c t IH]; cbn; [reflexivity | now rewrite IH]. }
  now rewrite !Hlen.
Qed.


Lemma code_below_256 c : (code c < 256)%N.
Proof. apply N_ascii_bounded. Qed.

Ltac by_codes :=
  unfold is_control, between, code_is in *;
  repeat match goal with
         | |- context [(?a <=? ?b)%N] => destruct (N.leb_spec a b)
         | |- context [(?a =? ?b)%N] => destruct (N.eqb_spec a b)
         | H : context [(?a <=? ?b)%N] |- _ => destruct (N.leb_spec a b)
         | H : context [(?a =? ?b)%N] |- _ => destruct (N.eqb_spec a b)
         end;
  cbn in *; try reflexivity; try discriminate; try lia.

Lemma filter_filter_weaker {A} (f g : A -> bool) l :
  (forall x, f x = true -> g x = true) ->
  List.filter f (List.filter g l) = List.filter f l.
Proof.
  intros H. induction l as [|x l IH]; cbn; [reflexivity |].
  destruct (g x) eqn:Hg; cbn.
  - rewrite IH. reflexivity.
  - destruct (f x) eqn:Hf; [| exact IH]. apply H in Hf. congruence.
Qed.

Lemma Forall_filter_keeps {A} (P : A -> Prop) (f : A -> bool) l :
  Forall P l -> Forall P (List.filter f l).
Proof.
  induction 1 as [|x l Hx Hl IH]; cbn; [constructor |].
  destruct (f x); [constructor |]; assumption.
Qed.

(** Without a backslash in the text neither escape pattern matches. *)
Lemma replaced_without_backslash s :
  Forall (fun c => Ascii.eqb backslash c = false) (units s) ->
  replaced s = text (List.filter (fun c => negb (is_control c)) (units s)).
Proof.
  intros Hno. unfold replaced.
  unfold control_characters. rewrite replace_all_removed_class.
  set (l1 := List.filter _ (units s)).
  assert (Hno1 : Forall (fun c => Ascii.eqb backslash c = false) l1)
    by (apply Forall_filter_keeps, Hno).
  unfold incomplete_hex_escapes, replace_all at 4. rewrite units_text.
  rewrite replace_units_absent by exact Hno1.
  unfold incomplete_unicode_escapes, replace_all at 3. rewrite units_text.
  rewrite replace_units_absent by exact Hno1.
  unfold replacement_characters. rewrite replace_all_removed_class, units_text.
  rewrite (filter_fixed _ l1).
  2:{ apply Forall_forall. intros c _. pose proof (code_below_256 c). by_codes. }
  unfold additional_control_chars. rewrite replace_all_removed_class, units_text.
  subst l1. rewrite filter_filter_weaker; [reflexivity |].
  intros c. by_codes.
Qed.




(** *** Escapes *)

(** [\\L[0-9a-fA-F]{0,m}(?![0-9a-fA-F])] for a letter [L]. *)
Definition escape (letter : ascii) (m : nat) : pattern :=
  Then (Unit (Ascii.eqb backslash))
    (Then (Unit (Ascii.eqb letter))
       (Then (Repeat hex 0 (Some m)) (NotAhead (Unit hex)))).

Definition prev_after (prev : option ascii) (passed : list ascii) : option ascii :=
  match last passed with
  | Some c => Some c
  | None => prev
  end.

Lemma prev_after_cons prev c l : prev_after prev (c :: l) = prev_after (Some c) l.
Proof.
  unfold prev_after. destruct l as [|d l]; [reflexivity |].
  change (last (c :: d :: l)) with (last (d :: l)).
  destruct (last (d :: l)) eqn:E; [reflexivity |].
  apply last_None in E. discriminate.
Qed.

Lemma replace_units_miss p f prev c rest :
  exec p prev (c :: rest) = None ->
  replace_units p f prev (c :: rest) 0 = c :: replace_units p f (Some c) rest 0.
Proof. intros H. cbn [replace_units]. now rewrite H. Qed.

Lemma replace_units_hit p f prev c rest n cap :
  exec p prev (c :: rest) = Some (S n, cap) ->
  replace_units p f prev (c :: rest) 0
  = f (take (S n) (c :: rest)) ++ replace_units p f (Some c) rest n.
Proof. intros H. cbn [replace_units]. now rewrite H. Qed.

Lemma replace_units_app_absent class q f prev l rest :
  Forall (fun c => class c = false) l ->
  replace_units (Then (Unit class) q) f prev (l ++ rest) 0
  = l ++ replace_units (Then (Unit class) q) f (prev_after prev l) rest 0.
Proof.
  intros H. revert prev. induction H as [|c l Hc Hl IH]; intros prev.
  - reflexivity.
  - cbn [app replace_units]. rewrite exec_then_unit by exact Hc.
    rewrite IH, prev_after_cons. reflexivity.
Qed.

Lemma replace_units_skip p f prev passed rest :
  replace_units p f prev (passed ++ rest) (length passed)
  = replace_units p f (prev_after prev passed) rest 0.
Proof.
  revert prev. induction passed as [|c l IH]; intros prev.
  - reflexivity.
  - cbn [app length replace_units]. rewrite IH, prev_after_cons. reflexivity.
Qed.

Lemma repeat_hex_digits m d v prev cap (k : continuation) r :
  Forall (fun c => hex c = true) d ->
  (length d <= m)%nat ->
  holds hex (head v) = false ->
  (forall prev', k prev' v cap = Some r) ->
  repeat_units hex 0 (Some m) prev (d ++ v) cap k = Some r.
Proof.
  intros Hd. revert m prev. induction Hd as [|c d Hc Hd IH]; intros m prev Hm Hv Hk.
  - cbn [app]. destruct v as [|c v]; destruct m as [|m]; cbn [repeat_units enough];
      try apply Hk.
    cbn in Hv. rewrite Hv. apply Hk.
  - cbn [length] in Hm. destruct m as [|m]; [lia |].
    cbn [app repeat_units]. rewrite Hc. cbn [Nat.pred fmap option_fmap option_map].
    rewrite IH; [reflexivity | lia | exact Hv | exact Hk].
Qed.

(** An escape of at most [m] digits that no further digit follows is
    matched with all its digits. *)
Lemma exec_escape letter m d v prev :
  Forall (fun c => hex c = true) d ->
  (length d <= m)%nat ->
  holds hex (head v) = false ->
  exec (escape letter m) prev (backslash :: letter :: d ++ v)
  = Some (S (S (length d)), None).
Proof.
  intros Hd Hm Hv. unfold exec, escape. cbn [run].
  rewrite Ascii.eqb_refl. rewrite Ascii.eqb_refl.
  rewrite (repeat_hex_digits m d v _ _ _ (v, None)); try assumption.
  - f_equal. f_equal. cbn [length]. rewrite length_app. lia.
  - intros prev'. destruct v as [|c v]; [reflexivity |].
    cbn in Hv. now rewrite Hv.
Qed.

Lemma exec_other_escape letter other q prev rest :
  Ascii.eqb letter other = false ->
  exec (Then (Unit (Ascii.eqb backslash)) (Then (Unit (Ascii.eqb letter)) q))
    prev (backslash :: other :: rest) = None.
Proof.
  intros H. unfold exec. cbn [run]. rewrite Ascii.eqb_refl. now rewrite H.
Qed.

Lemma units_append a b : units (a +:+ b) = units a ++ units b.
Proof.
  induction a as [|c a IH]; [reflexivity |].
  change (c :: units (a +:+ b) = c :: units a ++ units b). now rewrite IH.
Qed.

Lemma units_String c s : units (String c s) = c :: units s.
Proof. reflexivity. Qed.

Lemma filter_hex_digits (class : ascii -> bool) d :
  (forall c, hex c = true -> class c = false) ->
  Forall (fun c => hex c = true) d ->
  List.filter (fun c => negb (class c)) d = d.
Proof.
  intros Hclass Hd. apply filter_fixed.
  eapply Forall_impl; [exact Hd |]. intros c Hc. cbn beta. now rewrite Hclass.
Qed.

Definition first_control (c : ascii) : bool :=
  between 0 8 c || code_is 11 c || code_is 12 c || between 14 31 c || code_is 127 c.

Lemma hex_no_first_control c : hex c = true -> first_control c = false.
Proof. unfold hex, first_control. by_codes. Qed.

Lemma sanitizeContent_trim_replaced s : sanitizeContent s = trim (replaced s).
Proof.
  rewrite sanitizeContent_replaced. destruct (String.eqb_spec s "") as [->|]; reflexivity.
Qed.

(** The first two replacements on a text with one escape. *)
Section OneEscape.

Variables (u d v : list ascii) (letter : ascii).
Hypothesis Hu : Forall (fun c => Ascii.eqb backslash c = false) u.
Hypothesis Hv : Forall (fun c => Ascii.eqb backslash c = false) v.
Hypothesis Hd : Forall (fun c => hex c = true) d.
Hypothesis Hnext : holds (fun c => hex c || first_control c) (head v) = false.
Hypothesis Hletter : first_control letter = false.

Let keep (l : list ascii) := List.filter (fun c => negb (first_control c)) l.

Lemma keep_escape :
  keep (u ++ backslash :: letter :: d ++ v)
  = keep u ++ backslash :: letter :: d ++ keep v.
Proof.
  unfold keep. rewrite List.filter_app. cbn [List.filter].
  change (first_control backslash) with false. rewrite Hletter. cbn [negb].
  rewrite List.filter_app, (filter_hex_digits first_control d); auto using hex_no_first_control.
Qed.

Lemma keep_next : holds hex (head (keep v)) = false.
Proof.
  unfold keep. destruct v as [|c v']; [reflexivity |].
  cbn in Hnext. apply orb_false_elim in Hnext as [Hh Hc].
  cbn. rewrite Hc. cbn. exact Hh.
Qed.

Lemma hex_no_backslash : Forall (fun c => Ascii.eqb backslash c = false) d.
Proof.
  eapply Forall_impl; [exact Hd |]. intros c Hc. cbn beta.
  destruct (Ascii.eqb_spec backslash c) as [<-|]; [discriminate | reflexivity].
Qed.

(** The escape is deleted by its own pattern. *)
Lemma delete_escape m f :
  (forall matched, f matched = []) ->
  (length d <= m)%nat ->
  replace_units (escape letter m) f None (keep u ++ backslash :: letter :: d ++ keep v) 0
  = keep u ++ keep v.
Proof.
  intros Hf Hm. unfold escape at 1.
  rewrite replace_units_app_absent by (apply Forall_filter_keeps, Hu).
  fold (escape letter m). f_equal.
  erewrite replace_units_hit by (apply exec_escape; auto using keep_next).
  rewrite Hf. cbn [app].
  change (letter :: d ++ keep v) with ((letter :: d) ++ keep v).
  replace (S (length d)) with (length (letter :: d)) by reflexivity.
  rewrite replace_units_skip. unfold escape.
  apply replace_units_absent, Forall_filter_keeps, Hv.
Qed.

(** The pattern of another letter leaves it alone. *)
Lemma keep_escape_of_other other m f :
  Ascii.eqb other letter = false ->
  Ascii.eqb backslash letter = false ->
  replace_units (escape other m) f None (keep u ++ backslash :: letter :: d ++ keep v) 0
  = keep u ++ backslash :: letter :: d ++ keep v.
Proof.
  intros Hother Hbs. unfold escape.
  rewrite replace_units_app_absent by (apply Forall_filter_keeps, Hu).
  f_equal. rewrite replace_units_miss by (apply exec_other_escape, Hother).
  f_equal. apply replace_units_absent.
  constructor; [exact Hbs |].
  apply Forall_app. split; [apply hex_no_backslash | apply Forall_filter_keeps, Hv].
Qed.

End OneEscape.

Lemma replace_units_ext p f g prev l skip :
  (forall m, f m = g m) -> replace_units p f prev l skip = replace_units p g prev l skip.
Proof.
  intros H. revert prev skip. induction l as [|c l IH]; intros prev skip.
  - destruct skip; cbn; [| reflexivity]. destruct (exec p prev []) as [[n cap]|]; [| reflexivity].
    now rewrite H.
  - destruct skip as [|skip]; cbn [replace_units]; [| apply IH].
    destruct (exec p prev (c :: l)) as [[n cap]|]; [| now rewrite IH].
    rewrite H. destruct n; now rewrite IH.
Qed.

Lemma replace_all_absent class q f l :
  Forall (fun c => class c = false) l ->
  replace_all (Then (Unit class) q) f (text l) = text l.
Proof.
  intros H. unfold replace_all. rewrite units_text. now rewrite replace_units_absent.
Qed.

Lemma replace_control_characters s :
  replace_all control_characters removed s
  = text (List.filter (fun c => negb (first_control c)) (units s)).
Proof. apply replace_all_removed_class. Qed.

(** X4. In a text whose other parts hold no backslash, a backslash
    followed by [x] and at most two hexadecimal digits, or by [u] and at
    most three, is deleted together with its digits (a complete [\xNN]
    included), provided the code unit after the digits is neither a
    hexadecimal digit nor a control character deleted by the first
    replacement: the result is that of the text without the escape. *)
Theorem sanitizeContent_deletes_short_escapes (u d v : string) :
  Forall (fun c => Ascii.eqb backslash c = false) (units u) ->
  Forall (fun c => Ascii.eqb backslash c = false) (units v) ->
  Forall (fun c => hex c = true) (units d) ->
  holds (fun c => hex c || first_control c) (head (units v)) = false ->
  ((String.length d <= 2)%nat ->
   sanitizeContent (u +:+ String backslash (String "x" (d +:+ v)))
   = sanitizeContent (u +:+ v))
  /\ ((String.length d <= 3)%nat ->
      sanitizeContent (u +:+ String backslash (String "u" (d +:+ v)))
      = sanitizeContent (u +:+ v)).
Proof.
  intros Hu Hv Hd Hnext.
  assert (Hlen : String.length d = length (units d)).
  { clear. induction d as [|c d IH]; cbn; [reflexivity | now rewrite IH]. }
  assert (Hplain : forall l,
            Forall (fun c => Ascii.eqb backslash c = false) l ->
            replace_all incomplete_unicode_escapes removed
              (replace_all incomplete_hex_escapes removed
                 (text (List.filter (fun c => negb (first_control c)) l)))
            = text (List.filter (fun c => negb (first_control c)) l)).
  { intros l Hl. unfold incomplete_hex_escapes, incomplete_unicode_escapes.
    now rewrite !replace_all_absent by (apply Forall_filter_keeps, Hl). }
  assert (Huv : Forall (fun c => Ascii.eqb backslash c = false) (units u ++ units v))
    by (apply Forall_app; split; assumption).
  split; intros Hm; rewrite !sanitizeContent_trim_replaced; f_equal; unfold replaced;
    do 2 f_equal; rewrite !replace_control_characters;
    rewrite !units_append, ?units_String, ?units_append;
    rewrite (Hplain _ Huv); rewrite keep_escape by (assumption || reflexivity).
  - unfold replace_all at 2. rewrite units_text.
    change incomplete_hex_escapes with (escape "x" 2).
    rewrite delete_escape; try assumption; [| reflexivity | lia].
    rewrite <- List.filter_app.
    unfold incomplete_unicode_escapes.
    now rewrite replace_all_absent by (apply Forall_filter_keeps, Huv).
  - unfold replace_all at 2. rewrite units_text.
    change incomplete_hex_escapes with (escape "x" 2).
    rewrite keep_escape_of_other by (assumption || reflexivity).
    unfold replace_all. rewrite units_text.
    change incomplete_unicode_escapes with (escape "u" 3).
    rewrite delete_escape; try assumption; [| reflexivity | lia].
    now rewrite <- List.filter_app.
Qed.

Lemma sanitizeContent_deletes_short_escapes_witness :
  sanitizeContent ("a" +:+ String backslash (String "x" ("41" +:+ "z")))
  = sanitizeContent ("a" +:+ "z").
Proof.
  apply (sanitizeContent_deletes_short_escapes "a" "41" "z");
    [repeat constructor | repeat constructor | repeat constructor | reflexivity | cbn; lia].
Defined.

End ContentSanitizerProofs.

(** ** Titles: [extractTitle] of scripts/ingest-docs.ts *)

Module Titles.
Import Js RegExp.

(** [/^#\s+(.+)$/m] *)
Definition first_heading : pattern :=
  Then LineStart
    (Then (Unit (Ascii.eqb "#"))
       (Then (Repeat Client.is_space 1 None)
          (Then (Capture (Repeat dot 1 None)) LineEnd))).

(** [/[-_]/g] *)
Definition hyphens_and_underscores : pattern :=
  Unit (fun c => Ascii.eqb c "-" || Ascii.eqb c "_").

(** [/\b\w/g] *)
Definition word_starts : pattern := Then WordBoundary (Unit word).

(** [c.toUpperCase()] for a code unit below 128: a-z move down by 32. *)
Definition upper_unit (c : ascii) : ascii :=
  if between 97 122 c then ascii_of_N (code c - 32) else c.

(** [s.toUpperCase()] for a string of code units below 128, which is
    what the callback of the replacement receives: one word character. *)
Fixpoint toUpperCase (s : string) : string :=
  match s with
  | "" => ""
  | String c s' => String (upper_unit c) (toUpperCase s')
  end.

Section WithPath.

(** Node's [path.basename(path, ext)] is the runtime's. *)
Variable path_basename : string -> string -> string.

Definition extractTitle (content filePath : string) : outcome string :=
  (* Try to extract from first H1 heading *)
  match match_first first_heading content with
  | Some (_, Some title) => Ok (trim title)
  | Some (_, None) => Throw TypeError            (* h1Match[1] is undefined *)
  | None =>
      (* Otherwise use filename *)
      let filename := path_basename filePath ".md" in
      Ok (replace_all word_starts toUpperCase
            (replace_all hyphens_and_underscores (fun _ => " ") filename))
  end.

End WithPath.

(** The title made of a file name, unit by unit: a hyphen or an
    underscore becomes a space, and a word character that follows none
    is put in upper case. *)
Definition spaced (c : ascii) : ascii :=
  if Ascii.eqb c "-" || Ascii.eqb c "_" then " "%char else c.

Fixpoint capitalized (prev : option ascii) (l : list ascii) : list ascii :=
  match l with
  | [] => []
  | c :: l' =>
      (if word c && negb (holds word prev) then upper_unit c else c)
      :: capitalized (Some c) l'
  end.

Definition title_of_name (filename : string) : string :=
  text (capitalized None (map spaced (units filename))).

(** POSIX [path.basename(path, ext)]: the last segment of the path,
    trailing slashes apart, without the extension when it ends with it
    and is more than the extension. *)
Module Posix.

Definition strip_extension (ext name : string) : string :=
  let n := String.length name in
  let e := String.length ext in
  if (e <? n)%nat && String.eqb (substring (n - e) e name) ext
  then substring 0 (n - e) name
  else name.

Definition basename (p ext : string) : string :=
  if String.eqb p ext then ""
  else
    match List.filter (fun seg => negb (String.eqb seg "")) (Classifier.split "/" p) with
    | [] => ""
    | seg :: segs => strip_extension ext (List.last segs seg)
    end.

Example basename_nested : basename "docs/guides/getting-started.md" ".md" = "getting-started".
Proof. reflexivity. Qed.

Example basename_other_extension : basename "docs/notes.txt" ".md" = "notes.txt".
Proof. reflexivity. Qed.

Example basename_only_extension : basename "docs/.md" ".md" = ".md".
Proof. reflexivity. Qed.

End Posix.

Example extractTitle_heading_sample :
  extractTitle Posix.basename
    ("intro" +:+ String Client.newline ("#  Getting started " +:+ String Client.newline "text"))
    "docs/a.md"
  = Ok "Getting started".
Proof. vm_compute. reflexivity. Qed.

Example extractTitle_name_sample :
  extractTitle Posix.basename "no heading here" "docs/guides/api_v2-quick-start.md"
  = Ok "Api V2 Quick Start".
Proof. vm_compute. reflexivity. Qed.

Example extractTitle_next_line_sample :
  extractTitle Posix.basename ("#" +:+ String Client.newline "Title below") "docs/a.md"
  = Ok "Title below".
Proof. vm_compute. reflexivity. Qed.

End Titles.

Module TitlesProofs.
Import Js RegExp Titles ContentSanitizerProofs.

(** A greedy quantifier on a run of [w] units of its class, followed by
    a unit outside the class, takes the whole run first. *)
Lemma repeat_units_greedy class min max prev w rest cap (k : continuation) r :
  Forall (fun c => class c = true) w ->
  (min <= length w)%nat ->
  match max with Some m => (length w <= m)%nat | None => True end ->
  holds class (head rest) = false ->
  k (prev_after prev w) rest cap = Some r ->
  repeat_units class min max prev (w ++ rest) cap k = Some r.
Proof.
  intros Hw. revert min max prev.
  induction Hw as [|c w Hc Hw IH]; intros min max prev Hmin Hmax Hrest Hk.
  - cbn [length] in Hmin. assert (min = 0%nat) as -> by lia.
    cbn [app]. unfold prev_after in Hk. cbn in Hk.
    destruct rest as [|c rest]; destruct max as [[|m]|]; cbn [repeat_units enough];
      try exact Hk; cbn in Hrest; rewrite Hrest; exact Hk.
  - cbn [length] in Hmin, Hmax. rewrite prev_after_cons in Hk.
    assert (Hstep : repeat_units class (Nat.pred min) (Nat.pred <$> max)
                      (Some c) (w ++ rest) cap k = Some r).
    { apply IH; [lia | | exact Hrest | exact Hk].
      destruct max as [m|]; [cbn; lia | exact I]. }
    destruct max as [[|m]|]; [lia | |]; cbn [app repeat_units]; rewrite Hc, Hstep;
      reflexivity.
Qed.

Lemma search_skip_absent p (class : ascii -> bool) prev pre rest :
  (forall prev' rest', holds class (head rest') = false -> exec p prev' rest' = None) ->
  Forall (fun c => class c = false) pre ->
  search p prev (pre ++ rest)
  = match search p (prev_after prev pre) rest with
    | Some (before, matched, cap) => Some (pre ++ before, matched, cap)
    | None => None
    end.
Proof.
  intros Hmiss Hpre. revert prev.
  induction Hpre as [|c pre Hc Hpre IH]; intros prev.
  - cbn [app]. change (prev_after prev []) with prev.
    destruct (search p prev rest) as [[[b m] cap]|]; reflexivity.
  - cbn [app search]. rewrite Hmiss by exact Hc.
    rewrite IH, prev_after_cons.
    destruct (search p (prev_after (Some c) pre) rest) as [[[b m] cap]|]; reflexivity.
Qed.

Lemma search_absent p (class : ascii -> bool) prev l :
  (forall prev' rest', holds class (head rest') = false -> exec p prev' rest' = None) ->
  Forall (fun c => class c = false) l ->
  search p prev l = None.
Proof.
  intros Hmiss Hl. rewrite <- (app_nil_r l), (search_skip_absent p class) by assumption.
  cbn [search]. now rewrite Hmiss.
Qed.

Lemma exec_first_heading_miss prev rest :
  holds (Ascii.eqb "#") (head rest) = false -> exec first_heading prev rest = None.
Proof.
  intros H. unfold exec, first_heading. cbn [run].
  destruct rest as [|c rest]; cbn [holds head] in H;
    (destruct prev as [d|]; [destruct (line_terminator d) |]); cbn [run];
    rewrite ?H; reflexivity.
Qed.

(** The heading pattern at the start of a heading line. *)
Lemma exec_first_heading prev ws line tail :
  holds (fun c => negb (line_terminator c)) prev = false ->
  ws <> [] -> Forall (fun c => Client.is_space c = true) ws ->
  line <> [] -> Forall (fun c => dot c = true) line ->
  holds Client.is_space (head line) = false ->
  holds dot (head tail) = false ->
  exec first_heading prev ("#"%char :: ws ++ line ++ tail)
  = Some (S (length ws + length line), Some line).
Proof.
  intros Hprev Hws Hspace Hline Hdot Hhead Htail.
  unfold exec, first_heading. cbn [run].
  assert (Hrun : repeat_units Client.is_space 1 None (Some "#"%char) (ws ++ line ++ tail) None
            (fun prev' rest' cap' =>
               run (Then (Capture (Repeat dot 1 None)) LineEnd) prev' rest' cap'
                 (fun _ rest'0 cap => Some (rest'0, cap)))
          = Some (tail, Some line)).
  { apply repeat_units_greedy; try assumption.
    - destruct ws; [contradiction | cbn; lia].
    - exact I.
    - destruct line as [|c line]; [contradiction |]. exact Hhead.
    - cbn [run].
      apply repeat_units_greedy; try assumption.
      + destruct line; [contradiction | cbn; lia].
      + exact I.
      + rewrite length_app.
        replace (length line + length tail - length tail)%nat with (length line) by lia.
        rewrite take_app_length.
        destruct tail as [|c tail]; [reflexivity |].
        cbn in Htail. unfold dot in Htail. apply negb_false_iff in Htail.
        now rewrite Htail. }
  assert (Hlen : (length ("#"%char :: ws ++ line ++ tail) - length tail
                  = S (length ws + length line))%nat).
  { cbn [length]. rewrite !length_app. lia. }
  cbn [run] in Hrun. rewrite Ascii.eqb_refl, Hrun.
  destruct prev as [c|].
  - cbn [holds] in Hprev. apply negb_false_iff in Hprev. now rewrite Hprev, Hlen.
  - now rewrite Hlen.
Qed.


Lemma prev_after_start l : prev_after None l = last l.
Proof. unfold prev_after. now destruct (last l). Qed.

Lemma text_app_units (a b : string) : text (units a ++ units b) = a +:+ b.
Proof. now rewrite <- units_append, text_units. Qed.

Lemma units_nonempty s : s <> "" -> units s <> [].
Proof. destruct s; [congruence | discriminate]. Qed.

(** X5. When the first [#] of the content starts a line and is followed
    by white space and then by a non-empty rest of the line that does not
    start with white space, [extractTitle] returns that rest of the line
    without its trailing white space. *)
Theorem extractTitle_first_heading (path_basename : string -> string -> string)
    (pre ws line tail filePath : string) :
  Forall (fun c => Ascii.eqb "#" c = false) (units pre) ->
  holds (fun c => negb (line_terminator c)) (last (units pre)) = false ->
  ws <> "" -> Forall (fun c => Client.is_space c = true) (units ws) ->
  line <> "" -> Forall (fun c => dot c = true) (units line) ->
  holds Client.is_space (head (units line)) = false ->
  holds dot (head (units tail)) = false ->
  extractTitle path_basename (pre +:+ "#" +:+ ws +:+ line +:+ tail) filePath
  = Ok (trim line).
Proof.
  intros Hpre Hlast Hws Hspace Hline Hdot Hhead Htail.
  unfold extractTitle, match_first.
  rewrite !units_append. change (units "#") with ["#"%char]. cbn [app].
  rewrite (search_skip_absent first_heading (Ascii.eqb "#"));
    [| intros; now apply exec_first_heading_miss | exact Hpre].
  rewrite prev_after_start. cbn [search].
  rewrite exec_first_heading by auto using units_nonempty.
  cbn [fmap option_fmap option_map]. now rewrite text_units.
Qed.

(** Replacing the matches of a one-unit class, unit by unit. *)
Lemma replace_units_class_map class f prev l :
  replace_units (Unit class) f prev l 0
  = flat_map (fun c => if class c then f [c] else [c]) l.
Proof.
  revert prev. induction l as [|c l IH]; intros prev; [reflexivity |].
  cbn [replace_units flat_map]. rewrite exec_unit.
  destruct (class c); cbn [app]; now rewrite IH.
Qed.

Lemma exec_word_starts prev c rest :
  exec word_starts prev (c :: rest)
  = if word c && negb (holds word prev) then Some (1%nat, None) else None.
Proof.
  unfold exec, word_starts. cbn [run head holds].
  destruct (word c), (holds word prev); cbn [xorb andb negb length]; try reflexivity.
  do 2 f_equal. lia.
Qed.

Lemma exec_word_starts_end prev : exec word_starts prev [] = None.
Proof.
  unfold exec, word_starts. cbn [run head holds].
  now destruct (xorb (holds word prev) false).
Qed.

Lemma replace_word_starts prev l :
  replace_units word_starts (fun m => units (toUpperCase (text m))) prev l 0
  = capitalized prev l.
Proof.
  revert prev. induction l as [|c l IH]; intros prev.
  - cbn [replace_units]. now rewrite exec_word_starts_end.
  - cbn [replace_units capitalized]. rewrite exec_word_starts.
    destruct (word c && negb (holds word prev)); cbn [take app]; now rewrite IH.
Qed.

Lemma replace_hyphens l :
  replace_units hyphens_and_underscores (fun m => units ((fun _ => " ") (text m))) None l 0
  = map spaced l.
Proof.
  unfold hyphens_and_underscores. rewrite replace_units_class_map.
  induction l as [|c l IH]; [reflexivity |].
  cbn [flat_map map]. rewrite IH. unfold spaced.
  now destruct (Ascii.eqb c "-" || Ascii.eqb c "_").
Qed.

Lemma capitalized_length prev l : length (capitalized prev l) = length l.
Proof.
  revert prev. induction l as [|c l IH]; intros prev; cbn; [reflexivity | now rewrite IH].
Qed.

Lemma length_units s : length (units s) = String.length s.
Proof. unfold units. induction s as [|c s IH]; cbn; [reflexivity | now rewrite IH]. Qed.

Lemma upper_unit_cases c :
  upper_unit c = c \/ (between 65 90 (upper_unit c) = true).
Proof.
  unfold upper_unit. destruct (between 97 122 c) eqn:E; [right | now left].
  unfold between, code in *.
  apply andb_prop in E as [Hlo Hhi].
  apply N.leb_le in Hlo, Hhi.
  rewrite N_ascii_embedding by lia.
  apply andb_true_intro. split; apply N.leb_le; lia.
Qed.

Lemma capitalized_keeps (P : ascii -> Prop) prev l :
  (forall c, between 65 90 c = true -> P c) ->
  Forall P l -> Forall P (capitalized prev l).
Proof.
  intros Hup Hl. revert prev. induction Hl as [|c l Hc Hl IH]; intros prev; cbn;
    constructor; [| apply IH].
  destruct (word c && negb (holds word prev)); [| exact Hc].
  destruct (upper_unit_cases c) as [-> | H]; [exact Hc | now apply Hup].
Qed.

(** X6. Content without any [#] gets its title from the file name: the
    base name without [.md], each hyphen and underscore replaced by a
    space and the first letter of each word in upper case.  The title has
    the length of the base name and holds no hyphen and no underscore. *)
Theorem extractTitle_from_file_name (path_basename : string -> string -> string)
    (content filePath : string) :
  Forall (fun c => Ascii.eqb "#" c = false) (units content) ->
  let name := path_basename filePath ".md" in
  extractTitle path_basename content filePath = Ok (title_of_name name)
  /\ String.length (title_of_name name) = String.length name
  /\ Forall (fun c => c <> "-"%char /\ c <> "_"%char) (units (title_of_name name)).
Proof.
  intros Hno name. split; [| split].
  - unfold extractTitle, match_first.
    rewrite (search_absent first_heading (Ascii.eqb "#"));
      [| intros; now apply exec_first_heading_miss | exact Hno].
    fold name. f_equal. unfold replace_all, title_of_name.
    now rewrite replace_hyphens, units_text, replace_word_starts.
  - unfold title_of_name. rewrite <- !length_units, units_text.
    now rewrite capitalized_length, length_map.
  - unfold title_of_name. rewrite units_text.
    apply capitalized_keeps.
    + intros c Hc. split; intros ->; discriminate.
    + apply Forall_forall. intros c Hc. apply list_elem_of_In in Hc.
      apply in_map_iff in Hc as (d & <- & _). unfold spaced.
      destruct (Ascii.eqb_spec d "-") as [->|H1]; [split; discriminate |].
      destruct (Ascii.eqb_spec d "_") as [->|H2]; [split; discriminate |].
      cbn. split; assumption.
Qed.

(** *** The group of the heading pattern always takes part *)

Definition captures (k : continuation) : Prop :=
  forall prev rest cap r, k prev rest cap = Some r -> is_Some r.2.

Lemma repeat_units_captures class min max prev rest cap k r :
  captures k -> repeat_units class min max prev rest cap k = Some r -> is_Some r.2.
Proof.
  intros Hk. revert min max prev.
  induction rest as [|c rest IH]; intros min max prev.
  - destruct max as [[|m]|]; cbn [repeat_units]; try apply Hk;
      destruct min; cbn; try discriminate; apply Hk.
  - assert (Henough : enough min k prev (c :: rest) cap = Some r -> is_Some r.2).
    { destruct min; cbn; [apply Hk | discriminate]. }
    destruct max as [[|m]|]; cbn [repeat_units]; try apply Hk.
    + destruct (class c); [| exact Henough].
      destruct (repeat_units class (Nat.pred min) (Nat.pred <$> Some (S m)) (Some c) rest cap k)
        eqn:E; [| exact Henough].
      intros [= <-]. eapply IH, E.
    + destruct (class c); [| exact Henough].
      destruct (repeat_units class (Nat.pred min) (Nat.pred <$> None) (Some c) rest cap k)
        eqn:E; [| exact Henough].
      intros [= <-]. eapply IH, E.
Qed.

Lemma run_captures p :
  forall k, captures k -> captures (fun prev rest cap => run p prev rest cap k).
Proof.
  induction p as [class | p IHp q IHq | class min max | p IHp | p IHp | | |];
    intros k Hk prev rest cap r; cbn [run].
  - destruct rest as [|c rest]; [discriminate |].
    destruct (class c); [apply Hk | discriminate].
  - apply (IHp _ (IHq k Hk)).
  - now apply repeat_units_captures.
  - apply (IHp (fun prev' rest' _ =>
                  k prev' rest' (Some (take (length rest - length rest') rest)))).
    intros prev' rest' cap' r'. apply Hk.
  - destruct (run p prev rest cap _); [discriminate | apply Hk].
  - destruct prev as [c|]; [destruct (line_terminator c) |]; try discriminate; apply Hk.
  - destruct rest as [|c rest']; [| destruct (line_terminator c)]; try discriminate; apply Hk.
  - destruct (xorb _ _); [apply Hk | discriminate].
Qed.

Lemma first_heading_captures prev rest n cap :
  exec first_heading prev rest = Some (n, cap) -> is_Some cap.
Proof.
  unfold exec.
  destruct (run first_heading prev rest None (fun _ rest' cap0 => Some (rest', cap0)))
    as [[rest' cap']|] eqn:E; [| discriminate].
  intros [= _ <-].
  unfold first_heading in E.
  set (final := fun (_ : option ascii) (rest' : list ascii) (cap0 : option (list ascii)) =>
                  Some (rest', cap0)) in E.
  assert (Hgroup : captures (fun prev rest cap =>
            run (Then (Capture (Repeat dot 1 None)) LineEnd) prev rest cap final)).
  { intros prev0 rest0 cap0 r. cbn [run].
    apply (repeat_units_captures dot 1 None prev0 rest0 cap0).
    intros prev1 rest1 cap1 r1.
    destruct rest1 as [|c rest1]; [| destruct (line_terminator c)];
      try discriminate; intros [= <-]; cbn; eauto. }
  pose proof (run_captures (Repeat Client.is_space 1 None) _ Hgroup) as H3.
  pose proof (run_captures (Unit (Ascii.eqb "#")) _ H3) as H2.
  pose proof (run_captures LineStart _ H2) as H1.
  apply (H1 prev rest None (rest', cap')). exact E.
Qed.

Lemma search_first_heading_captures prev rest before matched cap :
  search first_heading prev rest = Some (before, matched, cap) -> is_Some cap.
Proof.
  revert prev before matched cap.
  induction rest as [|c rest IH]; intros prev before matched cap; cbn [search].
  - destruct (exec first_heading prev []) as [[n cap']|] eqn:E; [| discriminate].
    intros [= _ _ <-]. eapply first_heading_captures, E.
  - destruct (exec first_heading prev (c :: rest)) as [[n cap']|] eqn:E.
    + intros [= _ _ <-]. eapply first_heading_captures, E.
    + destruct (search first_heading (Some c) rest) as [[[b m] cap']|] eqn:E'; [| discriminate].
      intros [= _ _ <-]. eapply IH, E'.
Qed.

(** X7. [extractTitle] always returns a title: the one made from the
    file name when no line of the content is a first-level heading, and
    otherwise a text that neither starts nor ends with white space. *)
Theorem extractTitle_returns (path_basename : string -> string -> string)
    (content filePath : string) :
  exists title,
    extractTitle path_basename content filePath = Ok title
    /\ (match_first first_heading content = None ->
        title = title_of_name (path_basename filePath ".md"))
    /\ (match_first first_heading content <> None ->
        holds Client.is_space (head (units title)) = false
        /\ holds Client.is_space (last (units title)) = false).
Proof.
  unfold extractTitle, match_first.
  destruct (search first_heading None (units content)) as [[[before matched] cap]|] eqn:E.
  - destruct (search_first_heading_captures _ _ _ _ _ E) as [group ->].
    cbn [fmap option_fmap option_map]. eexists. split; [reflexivity |].
    split; [discriminate |]. intros _.
    rewrite trim_spec, units_text. apply trim_units_ends.
  - eexists. split; [reflexivity |]. split; [| congruence]. intros _.
    unfold replace_all, title_of_name.
    now rewrite replace_hyphens, units_text, replace_word_starts.
Qed.

Lemma extractTitle_first_heading_witness :
  extractTitle Titles.Posix.basename
    ("Notes" +:+ String Client.newline "" +:+ "#" +:+ " " +:+ "Setup guide " +:+ String Client.newline "text")
    "docs/setup.md"
  = Ok (trim "Setup guide ").
Proof.
  apply (extractTitle_first_heading Titles.Posix.basename
           ("Notes" +:+ String Client.newline "") " " "Setup guide "
           (String Client.newline "text") "docs/setup.md");
    first [discriminate | reflexivity | repeat constructor].
Defined.

Lemma extractTitle_from_file_name_witness :
  extractTitle Titles.Posix.basename "plain text" "docs/quick-start_guide.md"
  = Ok "Quick Start Guide".
Proof.
  apply (extractTitle_from_file_name Titles.Posix.basename "plain text"
           "docs/quick-start_guide.md").
  repeat constructor.
Defined.

End TitlesProofs.

(** ** Documents of a file: the loop body of [loadDocuments] in
    scripts/ingest-docs.ts *)

Module Loader.
Import Js Client.

Definition CHUNK_SIZE : Z := 800.      (* Characters per chunk *)
Definition CHUNK_OVERLAP : Z := 200.   (* Character overlap between chunks *)

(** Whether [v] counts as true in [v || other]. *)
Definition truthy (v : value) : bool :=
  match v with
  | VUndefined | VNull => false
  | VBool b => b
  | VNum n => negb (Qeq_bool n 0)
  | VStr s => negb (String.eqb s "")
  | VArray _ | VDate _ | VObject _ => true
  end.

(** [typeof value !== 'object' || value === null] *)
Definition not_an_object (v : value) : bool :=
  match v with
  | VArray _ | VDate _ | VObject _ => false
  | VUndefined | VNull | VBool _ | VNum _ | VStr _ => true
  end.

(** [frontmatter.key], [undefined] for a missing key. *)
Definition property (frontmatter : gmap string value) (key : string) : value :=
  default VUndefined (frontmatter !! key).

(** [Object.entries(frontmatter)
       .filter(([key]) => !['title', 'tags'].includes(key))
       .reduce((acc, [key, value]) => { if (...) acc[key] = value; return acc }, {})] *)
Definition additional_frontmatter (frontmatter : gmap string value) : gmap string value :=
  fold_left
    (fun acc entry =>
       if not_an_object entry.2 then <[entry.1 := entry.2]> acc else acc)
    (List.filter
       (fun entry => negb (existsb (String.eqb entry.1) ["title"; "tags"]))
       (map_to_list frontmatter))
    ∅.

Definition number (n : Z) : value := VNum (inject_Z n).

Inductive file_result :=
| Skipped                                            (* fileStats.skipped++ *)
| Processed (documents : list VectorDocument).       (* fileStats.processed++ *)

Section WithRuntime.

(** The runtime's path functions, working directory and date printing. *)
Variable path_relative : string -> string -> string.
Variable path_sep : ascii.
Variable path_basename : string -> string -> string.
Variable cwd : string.
Variable Date_toISOString : Z -> string.

(** The metadata object of one chunk: the fixed keys, then the
    additional front matter spread over them. *)
Definition chunk_metadata (frontmatter : gmap string value)
    (category relativePath : string) (title : value) (mtime : Z) (priority : Z)
    (index total : nat) : gmap string value :=
  additional_frontmatter frontmatter
  ∪ list_to_map
      [ ("source", VStr "docs");
        ("category", VStr category);
        ("filePath", VStr relativePath);
        ("title", title);
        ("lastModified", VStr (Date_toISOString mtime));
        ("priority", number priority);
        ("chunkIndex", number (Z.of_nat index));
        ("totalChunks", number (Z.of_nat total));
        ("tags", if truthy (property frontmatter "tags")
                 then property frontmatter "tags" else VArray []) ].

(** [frontmatter.title || extractTitle(body, filePath)] *)
Definition title_of (frontmatter : gmap string value) (body filePath : string)
    : outcome value :=
  if truthy (property frontmatter "title") then Ok (property frontmatter "title")
  else
    match Titles.extractTitle path_basename body filePath with
    | Ok title => Ok (VStr title)
    | Throw e => Throw e
    end.

(** One iteration of [for (const filePath of files)], from the parsed
    front matter, the body and the modification time on: [None] when the
    chunker is still running after [body.length + 1] iterations. *)
Definition process_file (filePath : string) (frontmatter : gmap string value)
    (body : string) (mtime : Z) : option file_result :=
  (* Skip empty files *)
  if is_blank body then Some Skipped
  else
    (* Extract metadata *)
    let category := Classifier.inferCategory path_relative path_sep filePath in
    let priority := Classifier.inferPriority path_relative filePath in
    match title_of frontmatter body filePath with
    | Throw _ => Some Skipped                        (* catch (error) *)
    | Ok title =>
        let relativePath := path_relative cwd filePath in
        (* Sanitize content before chunking *)
        let sanitizedBody := ContentSanitizer.sanitizeContent body in
        (* Create chunks *)
        match Chunker.createChunks (S (String.length sanitizedBody)) sanitizedBody
                CHUNK_SIZE CHUNK_OVERLAP with
        | None => None
        | Some chunks =>
            (* Create document for each chunk *)
            Some (Processed
              (imap (fun index chunk =>
                       {| doc_id := IdentityAssigner.generateChunkId filePath (Z.of_nat index);
                          doc_content := chunk;
                          doc_metadata :=
                            chunk_metadata frontmatter category relativePath title mtime
                              priority index (length chunks);
                          doc_embedding := None |})
                    chunks))
        end
    end.

End WithRuntime.

End Loader.

Module LoaderProofs.
Import Js Client JsString Chunker RegExp ContentSanitizer Loader.
Import ContentSanitizerProofs TitlesProofs.

(** *** The additional front matter *)

Definition spread_step (acc : gmap string value) (entry : string * value)
    : gmap string value :=
  if not_an_object entry.2 then <[entry.1 := entry.2]> acc else acc.

Lemma fold_spread_lookup (l : list (string * value)) acc key :
  NoDup l.*1 ->
  fold_left spread_step l acc !! key
  = match (list_to_map l : gmap string value) !! key with
    | Some v => if not_an_object v then Some v else acc !! key
    | None => acc !! key
    end.
Proof.
  revert acc. induction l as [|[k v] l IH]; intros acc Hnd; [reflexivity |].
  cbn [fmap list_fmap fst] in Hnd. apply NoDup_cons in Hnd as [Hk Hnd].
  cbn [fold_left list_to_map foldr]. rewrite IH by exact Hnd.
  cbn [fst snd].
  destruct (decide (key = k)) as [->|Hne].
  - rewrite lookup_insert_eq.
    rewrite (not_elem_of_list_to_map_1 (M := gmap string) l k) by exact Hk.
    unfold spread_step. cbn [fst snd].
    destruct (not_an_object v); [apply lookup_insert_eq | reflexivity].
  - rewrite lookup_insert_ne by congruence.
    destruct ((list_to_map l : gmap string value) !! key) as [v'|];
      [destruct (not_an_object v'); [reflexivity |] |];
      unfold spread_step; cbn [fst snd];
      (destruct (not_an_object v); [apply lookup_insert_ne; congruence | reflexivity]).
Qed.

Definition reserved (key : string) : bool :=
  existsb (String.eqb key) ["title"; "tags"].

(** The additional front matter holds the entries of the front matter
    that are neither the title nor the tags and whose value is no
    object. *)
Lemma additional_frontmatter_lookup frontmatter key :
  additional_frontmatter frontmatter !! key
  = if reserved key then None
    else match frontmatter !! key with
         | Some v => if not_an_object v then Some v else None
         | None => None
         end.
Proof.
  unfold additional_frontmatter. fold spread_step.
  set (l := List.filter _ (map_to_list frontmatter)).
  assert (Hnd : NoDup l.*1).
  { subst l. eapply (sublist_NoDup _ (map_to_list frontmatter).*1);
      [apply NoDup_fst_map_to_list |].
    apply fmap_sublist, filter_sublist_of. }
  rewrite fold_spread_lookup by exact Hnd. rewrite lookup_empty.
  assert (Hin : forall v, (list_to_map l : gmap string value) !! key = Some v
                          <-> reserved key = false /\ frontmatter !! key = Some v).
  { intros v. rewrite <- elem_of_list_to_map by exact Hnd.
    subst l. rewrite list_elem_of_In, filter_In, <- list_elem_of_In, elem_of_map_to_list.
    cbn [fst]. unfold reserved. rewrite negb_true_iff. tauto. }
  destruct ((list_to_map l : gmap string value) !! key) as [v|] eqn:E.
  - destruct (proj1 (Hin v) eq_refl) as [-> ->]. reflexivity.
  - destruct (reserved key) eqn:Hr; [reflexivity |].
    destruct (frontmatter !! key) as [v|] eqn:Hf; [| reflexivity].
    discriminate (proj2 (Hin v) (conj eq_refl eq_refl)).
Qed.


(** *** The chunks of a sanitized body *)

Lemma units_substring_sublist a n s : units (substring a n s) `sublist_of` units s.
Proof.
  unfold units. revert a n. induction s as [|c s IH]; intros a n.
  - destruct a, n; cbn; constructor.
  - destruct a as [|a]; cbn.
    + destruct n as [|n]; cbn; [apply sublist_nil_l |]. apply sublist_skip, IH.
    + apply sublist_cons, IH.
Qed.

Lemma units_slice_sublist s a b : units (slice s a b) `sublist_of` units s.
Proof. unfold slice. apply units_substring_sublist. Qed.

(** With the script's sizes the chunker returns, within
    [text.length + 1] iterations, the windows of 800 code units that
    start every 600 code units. *)
Lemma chunks_of_text (s : string) :
  exists chunks,
    createChunks (S (String.length s)) s CHUNK_SIZE CHUNK_OVERLAP = Some chunks
    /\ (0 < length chunks)%nat
    /\ (len s <= 800 -> chunks = [s])
    /\ forall i chunk, chunks !! i = Some chunk ->
         chunk = slice s (600 * Z.of_nat i) (Z.min (600 * Z.of_nat i + 800) (len s))
         /\ len chunk <= 800.
Proof.
  unfold CHUNK_SIZE, CHUNK_OVERLAP, createChunks.
  pose proof (len_nonneg s) as Hpos.
  destruct (Z.leb_spec (len s) 800) as [Hshort|Hlong].
  - rewrite orb_true_r. exists [s].
    split; [reflexivity |]. split; [cbn; lia |]. split; [reflexivity |].
    intros [|i] chunk; [| discriminate]. intros [= <-].
    cbn. rewrite Z.min_r by lia. rewrite slice_whole. split; [reflexivity | lia].
  - destruct (String.eqb_spec s "") as [->|Hne]; [unfold len in Hlong; cbn in Hlong; lia |].
    cbn [orb].
    destruct (ChunkerProofs.chunk_loop_windows s 800 200 ltac:(lia)
                (S (String.length s)) 0 []) as (rest & Hrun & Hnth & Hfull & Hmany & _ & _);
      try (unfold len in *; lia).
    exists rest. split; [exact Hrun |]. split; [exact Hmany |]. split; [lia |].
    intros i chunk Hi.
    assert (Hlt : (i < length rest)%nat) by (eapply lookup_lt_Some, Hi).
    rewrite Hnth in Hi by exact Hlt. injection Hi as <-.
    replace (0 + Z.of_nat i * (800 - 200)) with (600 * Z.of_nat i) by lia.
    split; [reflexivity |].
    assert (Hstart : 600 * Z.of_nat i <= len s).
    { destruct i as [|i]; [lia |]. specialize (Hfull i Hlt). lia. }
    rewrite slice_len by lia. lia.
Qed.

Section WithRuntime.

Variable path_relative : string -> string -> string.
Variable path_sep : ascii.
Variable path_basename : string -> string -> string.
Variable cwd : string.
Variable Date_toISOString : Z -> string.

Local Abbreviation process_file :=
  (process_file path_relative path_sep path_basename cwd Date_toISOString).
Local Abbreviation title_of := (title_of path_basename).
Local Abbreviation chunk_metadata := (chunk_metadata Date_toISOString).
Local Abbreviation extractTitle := (Titles.extractTitle path_basename).
Local Abbreviation inferCategory := (Classifier.inferCategory path_relative path_sep).
Local Abbreviation inferPriority := (Classifier.inferPriority path_relative).

Lemma extractTitle_ok content filePath :
  exists title, extractTitle content filePath = Ok title.
Proof.
  unfold Titles.extractTitle, match_first.
  destruct (search Titles.first_heading None (units content))
    as [[[before matched] cap]|] eqn:E; [| eauto].
  destruct (search_first_heading_captures _ _ _ _ _ E) as [group ->]. cbn. eauto.
Qed.

Lemma title_of_ok frontmatter body filePath :
  exists title extracted,
    title_of frontmatter body filePath = Ok title
    /\ extractTitle body filePath = Ok extracted
    /\ title = if truthy (property frontmatter "title")
               then property frontmatter "title" else VStr extracted.
Proof.
  destruct (extractTitle_ok body filePath) as [extracted He].
  unfold Loader.title_of. rewrite He.
  destruct (truthy (property frontmatter "title")); eauto.
Qed.

(** The documents made of a body that is not blank. *)
Definition document_of (filePath : string) (frontmatter : gmap string value)
    (title : value) (mtime : Z) (total index : nat) (chunk : string)
    : VectorDocument :=
  {| doc_id := IdentityAssigner.generateChunkId filePath (Z.of_nat index);
     doc_content := chunk;
     doc_metadata :=
       chunk_metadata frontmatter (inferCategory filePath) (path_relative cwd filePath)
         title mtime (inferPriority filePath) index total;
     doc_embedding := None |}.

Lemma process_file_run filePath frontmatter body mtime :
  is_blank body = false ->
  exists title extracted chunks,
    extractTitle body filePath = Ok extracted
    /\ title = (if truthy (property frontmatter "title")
                then property frontmatter "title" else VStr extracted)
    /\ createChunks (S (String.length (sanitizeContent body))) (sanitizeContent body)
         CHUNK_SIZE CHUNK_OVERLAP = Some chunks
    /\ process_file filePath frontmatter body mtime
       = Some (Processed
                 (imap (document_of filePath frontmatter title mtime (length chunks)) chunks)).
Proof.
  intros Hbody.
  destruct (title_of_ok frontmatter body filePath) as (title & extracted & Ht & He & Htitle).
  destruct (chunks_of_text (sanitizeContent body)) as (chunks & Hchunks & _).
  exists title, extracted, chunks. repeat split; try assumption.
  unfold Loader.process_file. rewrite Hbody, Ht, Hchunks. reflexivity.
Qed.

(** X8. A file whose body is not blank is processed, never skipped: it
    yields at least one document.  Document [i] has the id
    [generateChunkId filePath i], no embedding, and as content the window
    of at most 800 code units of the sanitized body that starts at offset
    [600 * i], free of control characters; a sanitized body of at most
    800 code units gives exactly one document, holding all of it. *)
Theorem process_file_documents filePath frontmatter body mtime :
  is_blank body = false ->
  let sanitized := sanitizeContent body in
  exists documents,
    process_file filePath frontmatter body mtime = Some (Processed documents)
    /\ (0 < length documents)%nat
    /\ (len sanitized <= 800 -> map doc_content documents = [sanitized])
    /\ forall i doc, documents !! i = Some doc ->
         doc_id doc = IdentityAssigner.generateChunkId filePath (Z.of_nat i)
         /\ doc_content doc
            = slice sanitized (600 * Z.of_nat i)
                (Z.min (600 * Z.of_nat i + 800) (len sanitized))
         /\ len (doc_content doc) <= 800
         /\ Forall (fun c => is_control c = false) (units (doc_content doc))
         /\ doc_embedding doc = None.
Proof.
  intros Hbody sanitized.
  destruct (process_file_run filePath frontmatter body mtime Hbody)
    as (title & extracted & chunks & _ & _ & Hchunks & Hrun).
  destruct (chunks_of_text sanitized) as (chunks' & Hchunks' & Hmany & Hshort & Hnth).
  fold sanitized in Hchunks. rewrite Hchunks in Hchunks'. injection Hchunks' as <-.
  eexists. split; [exact Hrun |].
  split; [now rewrite length_imap |].
  split.
  { intros Hlen. rewrite (Hshort Hlen). reflexivity. }
  intros i doc Hdoc. rewrite list_lookup_imap in Hdoc.
  destruct (chunks !! i) as [chunk|] eqn:Hi; [| discriminate].
  injection Hdoc as <-. cbn [doc_id doc_content doc_embedding document_of].
  destruct (Hnth i chunk Hi) as [Hwin Hlen].
  repeat split; try assumption.
  rewrite Hwin.
  pose proof (ContentSanitizerProofs.replaced_no_control body) as Hctl.
  apply Forall_forall. intros c Hc.
  assert (Hin : c ∈ units sanitized)
    by (eapply elem_of_sublist; [exact Hc | apply units_slice_sublist]).
  subst sanitized. rewrite sanitizeContent_replaced in Hin.
  destruct (String.eqb body ""); [inversion Hin |].
  rewrite trim_spec, units_text in Hin.
  rewrite Forall_forall in Hctl. apply Hctl.
  eapply elem_of_sublist; [exact Hin | apply trim_units_sublist].
Qed.

(** X9. The metadata of document [i] of a processed file.  A front
    matter entry other than [title] and [tags] whose value is not an
    object is copied as it is, also over a computed key of the same
    name.  [title] is the front matter's title when that is truthy and
    the extracted title otherwise; [tags] is the front matter's tags when
    truthy and the empty list otherwise.  Unless the front matter sets
    them, [source] is ["docs"], [category] and [priority] are inferred
    from the path, [filePath] is the path relative to the working
    directory, [lastModified] the printed modification time,
    [chunkIndex] is [i] and [totalChunks] the number of documents. *)
Theorem process_file_metadata filePath frontmatter body mtime documents i doc :
  process_file filePath frontmatter body mtime = Some (Processed documents) ->
  documents !! i = Some doc ->
  let metadata := doc_metadata doc in
  let computed (key : string) :=
    forall v, frontmatter !! key = Some v -> not_an_object v = false in
  (forall key v,
     key <> "title" -> key <> "tags" ->
     frontmatter !! key = Some v -> not_an_object v = true ->
     metadata !! key = Some v)
  /\ (exists extracted,
        extractTitle body filePath = Ok extracted
        /\ metadata !! "title"
           = Some (if truthy (property frontmatter "title")
                   then property frontmatter "title" else VStr extracted))
  /\ metadata !! "tags"
     = Some (if truthy (property frontmatter "tags")
             then property frontmatter "tags" else VArray [])
  /\ (computed "source" -> metadata !! "source" = Some (VStr "docs"))
  /\ (computed "category" ->
      metadata !! "category" = Some (VStr (inferCategory filePath)))
  /\ (computed "filePath" ->
      metadata !! "filePath" = Some (VStr (path_relative cwd filePath)))
  /\ (computed "lastModified" ->
      metadata !! "lastModified" = Some (VStr (Date_toISOString mtime)))
  /\ (computed "priority" ->
      metadata !! "priority" = Some (number (inferPriority filePath)))
  /\ (computed "chunkIndex" -> metadata !! "chunkIndex" = Some (number (Z.of_nat i)))
  /\ (computed "totalChunks" ->
      metadata !! "totalChunks" = Some (number (Z.of_nat (length documents)))).
Proof.
  intros Hrun Hdoc metadata computed.
  assert (Hbody : is_blank body = false).
  { unfold Loader.process_file in Hrun. destruct (is_blank body); [discriminate | reflexivity]. }
  destruct (process_file_run filePath frontmatter body mtime Hbody)
    as (title & extracted & chunks & He & Htitle & _ & Hrun').
  rewrite Hrun' in Hrun. injection Hrun as <-.
  rewrite list_lookup_imap in Hdoc.
  destruct (chunks !! i) as [chunk|] eqn:Hi; [| discriminate].
  injection Hdoc as <-. subst metadata. cbn [doc_metadata document_of].
  rewrite length_imap.
  assert (Hover : forall key v,
            key <> "title" -> key <> "tags" ->
            frontmatter !! key = Some v -> not_an_object v = true ->
            additional_frontmatter frontmatter !! key = Some v).
  { intros key v H1 H2 Hf Hv. rewrite additional_frontmatter_lookup, Hf, Hv.
    unfold reserved. cbn [existsb].
    destruct (String.eqb_spec key "title"); [contradiction |].
    destruct (String.eqb_spec key "tags"); [contradiction |]. reflexivity. }
  assert (Hbase : forall key,
            reserved key = true \/ computed key ->
            additional_frontmatter frontmatter !! key = None).
  { intros key H. rewrite additional_frontmatter_lookup.
    destruct (reserved key); [reflexivity |].
    destruct H as [H|H]; [discriminate |].
    destruct (frontmatter !! key) as [v|] eqn:Hf; [| reflexivity].
    now rewrite (H v Hf). }
  unfold Loader.chunk_metadata.
  split.
  { intros key v H1 H2 Hf Hv. apply lookup_union_Some_l. now apply Hover. }
  split.
  { exists extracted. split; [exact He |].
    rewrite lookup_union_r by (apply Hbase; now left). now rewrite <- Htitle. }
  split.
  { rewrite lookup_union_r by (apply Hbase; now left). reflexivity. }
  repeat split; intros Hc; (rewrite lookup_union_r by (apply Hbase; now right));
    reflexivity.
Qed.

(** X10. A body that is not blank but of which sanitizing leaves
    nothing is not skipped: the file yields one document, with the id of
    chunk 0 and empty content. *)
Theorem process_file_empty_document filePath frontmatter body mtime :
  is_blank body = false ->
  sanitizeContent body = "" ->
  exists doc,
    process_file filePath frontmatter body mtime = Some (Processed [doc])
    /\ doc_id doc = IdentityAssigner.generateChunkId filePath 0
    /\ doc_content doc = "".
Proof.
  intros Hbody Hempty.
  destruct (process_file_run filePath frontmatter body mtime Hbody)
    as (title & extracted & chunks & _ & _ & Hchunks & Hrun).
  rewrite Hempty in Hchunks. cbn in Hchunks. injection Hchunks as <-.
  eexists. split; [exact Hrun |]. split; reflexivity.
Qed.

End WithRuntime.

End LoaderProofs.

(** ** The other methods of [ProjectVectorDB]: searchByCategory,
    getRecentDocs, deleteDocuments, healthCheck *)

Module Operations.
Import Js Store Client.

(** [client.heartbeat()] *)
Definition heartbeat (s : Server) : outcome unit :=
  if reachable s then Ok tt else unreachable.

(** [collection.delete({ ids })]: the records with these ids leave the
    collection; an id it does not hold is passed over. *)
Definition collection_delete (handle : string) (ids : list string) (s : Server)
    : outcome unit * Server :=
  if reachable s then
    match collections s !! handle with
    | Some records =>
        (Ok tt, {| reachable := true;
                   collections := <[handle := foldr delete records ids]> (collections s) |})
    | None => (Throw (BackendError "collection does not exist"), s)
    end
  else (unreachable, s).

(** [{ ...options, category }] *)
Definition with_category (options : QueryOptions) (category : string) : QueryOptions :=
  {| opt_limit := opt_limit options;
     opt_threshold := opt_threshold options;
     opt_category := Some category;
     opt_source := opt_source options;
     opt_tags := opt_tags options;
     opt_dateRange := opt_dateRange options |}.

(** [if (metadata.lastModified)] for a stored value. *)
Definition truthy_scalar (x : scalar) : bool :=
  match x with
  | SStr s => negb (String.eqb s "")
  | SNum n => negb (Qeq_bool n 0)
  | SBool b => b
  end.

(** TimeClip of a number: its integral part when within 8.64e15
    milliseconds of the epoch, an invalid date otherwise. *)
Definition time_clip (n : Q) : option Z :=
  if Qle_bool (Qabs n) (inject_Z 8640000000000000)
  then Some (Z.quot (Qnum n) (Z.pos (Qden n)))
  else None.

(** [docDate >= cutoffDate]: false as soon as one of them is invalid. *)
Definition not_before (docDate cutoffDate : option Z) : bool :=
  match docDate, cutoffDate with
  | Some d, Some c => c <=? d
  | _, _ => false
  end.

Section Methods.

Variable Date_toISOString : Z -> string.
Variable store_query :
  gmap string Stored -> embedding -> nat -> option WhereClause -> list QueryRow.
(** The clock, [Date.parse] ([None] for NaN) and the calendar step
    [d.setDate(d.getDate() - days)] in local time, from the time value of
    [d] to the new one. *)
Variable now : Z.
Variable Date_parse : string -> option Z.
Variable days_before : Z -> Z -> option Z.

Definition searchByCategory (category text : string) (options : QueryOptions)
    : M (list QueryResult) :=
  query Date_toISOString store_query text (with_category options category).

(** [new Date(x)] for a stored value. *)
Definition date_of (x : scalar) : option Z :=
  match x with
  | SStr s => Date_parse s
  | SNum n => time_clip n
  | SBool b => Some (if b then 1 else 0)
  end.

(** The loop over [results.ids]. *)
Fixpoint recent_documents (cutoffDate : option Z) (rows : list GetRow)
    (documents : list VectorDocument) : list VectorDocument :=
  match rows with
  | [] => documents
  | row :: rest =>
      let metadata := default ∅ (got_metadata row) in
      (* Check if document is recent enough *)
      match metadata !! "lastModified" with
      | Some lastModified =>
          if truthy_scalar lastModified then
            let docDate := date_of lastModified in
            if not_before docDate cutoffDate
            then recent_documents cutoffDate rest (documents ++ [document_of_row row])
            else recent_documents cutoffDate rest documents
          else recent_documents cutoffDate rest documents
      | None => recent_documents cutoffDate rest documents
      end
  end.

Definition getRecentDocs (days : Z) : M (list VectorDocument) :=
  ensureInitialized ;;;
  this <- get_this ;;
  match collection this with
  | None => throw (JsError "Collection not initialized")
  | Some handle =>
      (* Get all documents and filter in JavaScript *)
      results <- ask_server (collection_get handle None) ;;
      let cutoffDate := days_before now days in
      ret (recent_documents cutoffDate results [])
  end.

Definition deleteDocuments (ids : list string) : M unit :=
  ensureInitialized ;;;
  this <- get_this ;;
  match collection this with
  | None => throw (JsError "Collection not initialized")
  | Some handle =>
      match ids with
      | [] => ret tt
      | _ :: _ => call_server (collection_delete handle ids)
      end
  end.

Definition healthCheck : M bool :=
  try_catch (ask_server heartbeat ;;; ret true) (fun _ => ret false).

End Methods.

(** The records of the collection called [name], none when the store
    does not have it. *)
Definition records_of (w : World) (name : string) : gmap string Stored :=
  default ∅ (collections (server w) !! name).

(** A stored record whose [lastModified] is set and not older than the
    cut-off date. *)
Definition is_recent (Date_parse : string -> option Z) (cutoffDate : option Z)
    (row : GetRow) : bool :=
  match default ∅ (got_metadata row) !! "lastModified" with
  | Some lastModified =>
      truthy_scalar lastModified
      && not_before (date_of Date_parse lastModified) cutoffDate
  | None => false
  end.

End Operations.

Module OperationsProofs.
Import Js Store Client Operations.

(** *** Computations that leave the records and the files alone *)

Definition untouched (w w' : World) : Prop :=
  (forall name, records_of w' name = records_of w name) /\ files w' = files w.

Definition keeps {A} (m : M A) : Prop := forall w, untouched w (m w).2.

Lemma untouched_refl w : untouched w w.
Proof. split; reflexivity. Qed.

Lemma untouched_trans w1 w2 w3 : untouched w1 w2 -> untouched w2 w3 -> untouched w1 w3.
Proof.
  intros [H12 F12] [H23 F23]. split; [intros name; now rewrite H23, H12 | congruence].
Qed.

Lemma keeps_ret {A} (a : A) : keeps (ret a).
Proof. intros w. apply untouched_refl. Qed.

Lemma keeps_throw {A} e : keeps (@throw A e).
Proof. intros w. apply untouched_refl. Qed.

Lemma keeps_get_this : keeps get_this.
Proof. intros w. apply untouched_refl. Qed.

Lemma keeps_get_files : keeps get_files.
Proof. intros w. apply untouched_refl. Qed.

Lemma keeps_of_outcome {A} (r : outcome A) : keeps (of_outcome r).
Proof. intros w. apply untouched_refl. Qed.

Lemma keeps_ask_server {A} (f : Server -> outcome A) : keeps (ask_server f).
Proof. intros w. apply untouched_refl. Qed.

Lemma keeps_set_collection handle : keeps (set_collection handle).
Proof. intros w. split; reflexivity. Qed.

Lemma keeps_set_isInitialized b : keeps (set_isInitialized b).
Proof. intros w. split; reflexivity. Qed.

Lemma keeps_bind {A B} (m : M A) (k : A -> M B) :
  keeps m -> (forall a, keeps (k a)) -> keeps (bind m k).
Proof.
  intros Hm Hk w. unfold bind. specialize (Hm w).
  destruct (m w) as [[a|e] w1]; cbn [snd] in *; [| exact Hm].
  eapply untouched_trans; [exact Hm | apply Hk].
Qed.

Lemma keeps_try_catch {A} (m : M A) (handler : error -> M A) :
  keeps m -> (forall e, keeps (handler e)) -> keeps (try_catch m handler).
Proof.
  intros Hm Hh w. unfold try_catch. specialize (Hm w).
  destruct (m w) as [[a|e] w1]; cbn [snd] in *; [exact Hm |].
  eapply untouched_trans; [exact Hm | apply Hh].
Qed.

(** Creating a collection that was missing adds no record. *)
Lemma keeps_createCollection name : keeps (call_server (createCollection name)).
Proof.
  intros [t [up colls] fs]. unfold call_server, createCollection. cbn.
  destruct up; cbn; [| apply untouched_refl].
  destruct (colls !! name) eqn:E; cbn; [apply untouched_refl |].
  split; [| reflexivity]. intros other. unfold records_of. cbn.
  destruct (decide (other = name)) as [->|Hne].
  - now rewrite lookup_insert_eq, E.
  - now rewrite lookup_insert_ne by congruence.
Qed.

Lemma keeps_initialize : keeps initialize.
Proof.
  unfold initialize. apply keeps_bind; [apply keeps_get_this |]. intros t.
  destruct (isInitialized t); [apply keeps_ret |].
  apply keeps_try_catch; [| intros; apply keeps_throw].
  apply keeps_bind; [| intros; apply keeps_set_isInitialized].
  apply keeps_try_catch.
  - apply keeps_bind; [apply keeps_ask_server | intros; apply keeps_set_collection].
  - intros _. apply keeps_bind; [apply keeps_createCollection |].
    intros; apply keeps_set_collection.
Qed.

Lemma keeps_ensureInitialized : keeps ensureInitialized.
Proof.
  unfold ensureInitialized. apply keeps_bind; [apply keeps_get_this |]. intros t.
  destruct (negb (isInitialized t)); [apply keeps_initialize | apply keeps_ret].
Qed.

Create HintDb keeps.
#[local] Hint Resolve keeps_ret keeps_throw keeps_get_this keeps_get_files
  keeps_of_outcome keeps_ask_server keeps_set_collection keeps_set_isInitialized
  keeps_initialize keeps_ensureInitialized keeps_createCollection : keeps.

Ltac keep :=
  repeat first
    [ progress auto with keeps
    | apply keeps_bind; [| intros ?]
    | apply keeps_try_catch; [| intros ?]
    | match goal with
      | |- keeps (match ?x with _ => _ end) => destruct x
      | |- keeps (if ?x then _ else _) => destruct x
      end ].

(** X12. [initialize] changes no record of any collection and no file.
    On an initialized client it returns and changes nothing.  On any
    other client it succeeds exactly when the store is reachable; the
    client is then initialized and holds its collection, which exists,
    no other collection is touched, and a second [initialize] does
    nothing.  When it fails it throws the initialization error and the
    state is the one before the call. *)
Theorem initialize_connects_once (w : World) (r : outcome unit) (w' : World) :
  initialize w = (r, w') ->
  untouched w w'
  /\ (forall e, r = Throw e -> w' = w /\ exists cause, e = InitFailed cause)
  /\ (r = Ok tt ->
      isInitialized (this w') = true
      /\ initialize w' = (Ok tt, w')
      /\ (isInitialized (this w) = false ->
          collection (this w') = Some (collectionName (this w))
          /\ is_Some (collections (server w') !! collectionName (this w))
          /\ forall other, other <> collectionName (this w) ->
               collections (server w') !! other = collections (server w) !! other))
  /\ (isInitialized (this w) = true -> r = Ok tt /\ w' = w)
  /\ (isInitialized (this w) = false -> (r = Ok tt <-> reachable (server w) = true)).
Proof.
  intros Hrun.
  split; [pose proof (keeps_initialize w) as H; now rewrite Hrun in H |].
  destruct (isInitialized (this w)) eqn:Hini.
  - assert (Hsame : initialize w = (Ok tt, w)).
    { unfold initialize, bind, get_this. now rewrite Hini. }
    rewrite Hsame in Hrun. injection Hrun as <- <-.
    split; [discriminate |].
    split; [intros _; split; [exact Hini |]; split; [exact Hsame | discriminate] |].
    split; [auto | discriminate].
  - assert (Hreach : r = Ok tt <-> reachable (server w) = true).
    { revert Hrun. destruct w as [[c name ef ini] [up colls] fs]. cbn in Hini. subst ini.
      unfold initialize, try_catch, bind, get_this, ask_server, call_server,
        set_collection, set_isInitialized, throw, getCollection, createCollection,
        unreachable. cbn.
      destruct up; cbn.
      - destruct (colls !! name) eqn:E; cbn; [| rewrite E; cbn]; intros [= <- _]; tauto.
      - intros [= <- _]. split; discriminate. }
    destruct (initialize_cases w Hini)
      as [[e He]|(w1 & Hw1 & Hi & Hc & Hn & He & Hf & Hr & Hs & _ & Ho)];
      rewrite Hrun in *.
    + injection He as -> ->.
      split; [intros e' [= <-]; eauto |].
      split; [discriminate |]. split; [discriminate | intros _; exact Hreach].
    + injection Hw1 as -> ->.
      split; [discriminate |].
      split.
      { intros _. split; [exact Hi |]. split; [| auto].
        unfold initialize, bind, get_this. now rewrite Hi. }
      split; [discriminate | intros _; exact Hreach].
Qed.

Section Methods.

Variable Number_toString : Q -> string.
Variable Date_toString : Z -> string.
Variable Date_toISOString : Z -> string.
Variable now : Z.
Variable JSON_stringify : value -> string.
Variable JSON_parse : string -> option value.
Variable store_query :
  gmap string Stored -> embedding -> nat -> option WhereClause -> list QueryRow.
Variable Date_parse : string -> option Z.
Variable days_before : Z -> Z -> option Z.

Local Abbreviation query := (query Date_toISOString store_query).
Local Abbreviation searchByCategory := (searchByCategory Date_toISOString store_query).
Local Abbreviation getRecentDocs := (getRecentDocs now Date_parse days_before).
Local Abbreviation getStats := (getStats Number_toString Date_toISOString now).
Local Abbreviation exportBackup :=
  (exportBackup Number_toString Date_toISOString now JSON_stringify).
Local Abbreviation importBackup :=
  (importBackup Number_toString Date_toString Date_toISOString JSON_parse).
Local Abbreviation addDocuments :=
  (addDocuments Number_toString Date_toString Date_toISOString).
Local Abbreviation sanitizeMetadata :=
  (sanitizeMetadata Number_toString Date_toString Date_toISOString).
Local Abbreviation add_rows := (add_rows Number_toString Date_toString Date_toISOString).
Local Abbreviation build_where := (build_where Date_toISOString).

Lemma keeps_query text options : keeps (query text options).
Proof. unfold Client.query. keep. Qed.

Lemma keeps_getRecentDocs days : keeps (getRecentDocs days).
Proof. unfold Operations.getRecentDocs. keep. Qed.

Lemma keeps_getAllDocuments limit : keeps (getAllDocuments limit).
Proof. unfold getAllDocuments. keep. Qed.

Lemma keeps_getStats : keeps getStats.
Proof. unfold Client.getStats. keep. Qed.

Lemma keeps_healthCheck : keeps healthCheck.
Proof. unfold healthCheck. keep. Qed.

(** X11. The reading methods [query], [searchByCategory],
    [getRecentDocs], [getAllDocuments] and [getStats] leave the records of
    every collection and the files as they were, whatever they return
    or throw; [healthCheck] changes nothing at all and returns whether the
    store is reachable, without throwing. *)
Theorem reading_leaves_the_store (w : World) :
  (forall text options, untouched w (query text options w).2)
  /\ (forall category text options, untouched w (searchByCategory category text options w).2)
  /\ (forall days, untouched w (getRecentDocs days w).2)
  /\ (forall limit, untouched w (getAllDocuments limit w).2)
  /\ untouched w (getStats w).2
  /\ healthCheck w = (Ok (reachable (server w)), w).
Proof.
  split; [intros; apply keeps_query |].
  split; [intros; apply keeps_query |].
  split; [intros; apply keeps_getRecentDocs |].
  split; [intros; apply keeps_getAllDocuments |].
  split; [apply keeps_getStats |].
  unfold healthCheck, try_catch, bind, ask_server, heartbeat, ret, unreachable.
  now destruct (reachable (server w)).
Qed.


(** *** initialize *)


(** *** query and searchByCategory *)

Lemma query_returns text options w results w' :
  query text options w = (Ok results, w') ->
  exists records queryEmbedding whereClause,
    build_where options = Ok whereClause
    /\ results
       = js_sort by_score
           (collect_results (default default_threshold (opt_threshold options))
              (store_query records queryEmbedding
                 (default default_limit (opt_limit options)) whereClause) []).
Proof.
  unfold Client.query, bind, get_this, throw, ret, of_outcome, ask_server, collection_query.
  destruct (ensureInitialized w) as [[[]|e] w1]; [| discriminate].
  destruct (collection (this w1)) as [handle|]; [| discriminate].
  destruct (embeddingFunction (this w1)) as [generate|]; [| discriminate].
  destruct (generate text) as [queryEmbedding|]; [| discriminate].
  destruct (build_where options) as [whereClause|e]; [| discriminate].
  destruct (reachable (server w1)); [| discriminate].
  destruct (collections (server w1) !! handle) as [records|]; [| discriminate].
  intros [= <- <-]. exists records, queryEmbedding, whereClause. split; reflexivity.
Qed.

(** [options] without its category. *)
Definition without_category (options : QueryOptions) : QueryOptions :=
  {| opt_limit := opt_limit options;
     opt_threshold := opt_threshold options;
     opt_category := None;
     opt_source := opt_source options;
     opt_tags := opt_tags options;
     opt_dateRange := opt_dateRange options |}.

Lemma build_where_category options category whereClause :
  category <> "" ->
  build_where (with_category options category) = Ok whereClause ->
  exists clause, whereClause = Some clause /\ where_category clause = Some category.
Proof.
  intros Hne. unfold Client.build_where, with_category. cbn.
  destruct (String.eqb_spec category ""); [contradiction |].
  destruct (match opt_dateRange options with
            | Some range => _
            | None => Ok (None, None)
            end) as [[gte lte]|e]; [| discriminate].
  intros [= <-]. eexists. split; reflexivity.
Qed.


(** *** getRecentDocs *)

Lemma recent_documents_filter cutoffDate rows documents :
  recent_documents Date_parse cutoffDate rows documents
  = documents ++ map document_of_row (List.filter (is_recent Date_parse cutoffDate) rows).
Proof.
  revert documents. induction rows as [|row rows IH]; intros documents; cbn.
  - now rewrite app_nil_r.
  - unfold is_recent at 1.
    destruct (default ∅ (got_metadata row) !! "lastModified") as [x|]; [| apply IH].
    destruct (truthy_scalar x); cbn [andb]; [| apply IH].
    destruct (not_before (date_of Date_parse x) cutoffDate); [| apply IH].
    rewrite IH, <- app_assoc. reflexivity.
Qed.

(** X14. The documents [getRecentDocs] returns are the stored records,
    in the store's order, whose [lastModified] is truthy and is a date
    not before the cut-off date: each returned document has such a
    [lastModified].  On an initialized client whose store is reachable
    the call returns them and changes nothing. *)
Theorem getRecentDocs_filters (days : Z) (w : World) :
  (forall documents w',
     getRecentDocs days w = (Ok documents, w') ->
     exists records,
       documents
       = map document_of_row
           (List.filter (is_recent Date_parse (days_before now days))
              (map get_row (map_to_list records)))
       /\ forall doc, doc ∈ documents ->
            exists lastModified docDate cutoffDate,
              doc_metadata doc !! "lastModified" = Some (value_of_scalar lastModified)
              /\ truthy_scalar lastModified = true
              /\ date_of Date_parse lastModified = Some docDate
              /\ days_before now days = Some cutoffDate
              /\ cutoffDate <= docDate)
  /\ (forall records,
        ready w records ->
        getRecentDocs days w
        = (Ok (map document_of_row
                 (List.filter (is_recent Date_parse (days_before now days))
                    (map get_row (map_to_list records)))), w)).
Proof.
  split.
  - intros documents w'.
    unfold Operations.getRecentDocs, bind, get_this, throw, ret, ask_server, collection_get.
    destruct (ensureInitialized w) as [[[]|e] w1]; [| discriminate].
    destruct (collection (this w1)) as [handle|]; [| discriminate].
    destruct (reachable (server w1)); [| discriminate].
    destruct (collections (server w1) !! handle) as [records|]; [| discriminate].
    intros [= <- <-]. exists records. rewrite recent_documents_filter. cbn [app].
    split; [reflexivity |].
    intros doc Hdoc. apply list_elem_of_In, in_map_iff in Hdoc as (row & <- & Hrow).
    apply filter_In in Hrow as [_ Hrecent]. unfold is_recent in Hrecent.
    unfold document_of_row. cbn [doc_metadata].
    destruct (got_metadata row) as [metadata|]; cbn [default from_option id] in Hrecent;
      [| rewrite lookup_empty in Hrecent; discriminate].
    destruct (metadata !! "lastModified") as [x|] eqn:Hx; [| discriminate].
    apply andb_prop in Hrecent as [Htruthy Hnot].
    unfold not_before in Hnot.
    destruct (date_of Date_parse x) as [d|] eqn:Hd; [| discriminate].
    destruct (days_before now days) as [c|] eqn:Hc; [| discriminate].
    exists x, d, c. rewrite lookup_fmap, Hx.
    repeat split; try reflexivity; try assumption. now apply Z.leb_le.
  - intros records [Hini Hhandle Hreach Hrecords].
    unfold Operations.getRecentDocs.
    rewrite (bind_ok _ _ _ _ _ (ensureInitialized_ready w Hini)).
    unfold bind, get_this, ask_server, collection_get, ret.
    rewrite Hhandle, Hreach, Hrecords, recent_documents_filter. reflexivity.
Qed.


(** *** addDocuments *)

Lemma world_eta w : {| this := this w; server := server w; files := files w |} = w.
Proof. now destruct w. Qed.

(** X15. An [addDocuments] that throws has stored nothing: the records
    of every collection and the files are as before, and on an
    initialized client the whole state is. *)
Theorem addDocuments_all_or_nothing (documents : list VectorDocument)
    (w : World) (e : error) (w' : World) :
  addDocuments documents w = (Throw e, w') ->
  untouched w w'
  /\ (isInitialized (this w) = true -> w' = w).
Proof.
  intros Hrun.
  pose proof (keeps_ensureInitialized w) as Hkeep.
  destruct (ensureInitialized_effects w) as (_ & _ & Hsame).
  unfold Client.addDocuments in Hrun.
  destruct (ensureInitialized w) as [[[]|e0] w1] eqn:Hens; cbn [snd] in *.
  2:{ rewrite (bind_throw _ _ _ _ _ Hens) in Hrun. injection Hrun as <- <-. auto. }
  rewrite (bind_ok _ _ _ _ _ Hens) in Hrun.
  assert (Hw1 : w' = w1); [| subst w'; auto].
  revert Hrun. unfold bind, get_this, throw, ret, of_outcome, call_server, collection_add.
  destruct (collection (this w1)) as [handle|]; [| now intros [= _ <-]].
  destruct documents as [|doc documents]; [discriminate |].
  destruct (forallb _ (doc :: documents)).
  - destruct (add_rows (doc :: documents)) as [rows|e1]; [| now intros [= _ <-]].
    destruct (reachable (server w1));
      [destruct (collections (server w1) !! handle) |];
      try discriminate; intros [= _ <-]; apply world_eta.
  - destruct (embeddingFunction (this w1)) as [generate|]; [| now intros [= _ <-]].
    destruct (embed_missing generate (doc :: documents)) as [embedded|e1];
      [| now intros [= _ <-]].
    destruct (add_rows embedded) as [rows|e1]; [| now intros [= _ <-]].
    destruct (reachable (server w1));
      [destruct (collections (server w1) !! handle) |];
      try discriminate; intros [= _ <-]; apply world_eta.
Qed.

(** What the store keeps of a document. *)
Definition stored_as (generate : option (string -> option embedding))
    (doc : VectorDocument) (stored : Stored) : Prop :=
  stored_document stored = Some (doc_content doc)
  /\ (exists sanitized,
        sanitizeMetadata (doc_metadata doc) = Ok sanitized
        /\ stored_metadata stored = Some (stored_metadata_of sanitized))
  /\ match doc_embedding doc with
     | Some given => stored_embedding stored = given
     | None =>
         exists g, generate = Some g
                   /\ g (doc_content doc) = Some (stored_embedding stored)
     end.

Definition embeds (generate : string -> option embedding) (doc doc' : VectorDocument)
    : Prop :=
  doc_id doc' = doc_id doc /\ doc_content doc' = doc_content doc
  /\ doc_metadata doc' = doc_metadata doc
  /\ match doc_embedding doc with
     | Some given => doc_embedding doc' = Some given
     | None => exists made, generate (doc_content doc) = Some made
                            /\ doc_embedding doc' = Some made
     end.

Lemma embed_missing_embeds generate documents embedded :
  embed_missing generate documents = Ok embedded ->
  Forall2 (embeds generate) documents embedded.
Proof.
  revert embedded. induction documents as [|doc documents IH]; intros embedded; cbn.
  - intros [= <-]. constructor.
  - destruct (doc_embedding doc) as [given|] eqn:Hgiven.
    + destruct (embed_missing generate documents) as [rest|]; [| discriminate].
      intros [= <-]. constructor; [| now apply IH].
      unfold embeds. now rewrite Hgiven.
    + destruct (generate (doc_content doc)) as [made|] eqn:Hmade; [| discriminate].
      destruct (embed_missing generate documents) as [rest|]; [| discriminate].
      intros [= <-]. constructor; [| now apply IH].
      unfold embeds. rewrite Hgiven. cbn. eauto 10.
Qed.

Lemma add_rows_rows (documents : list VectorDocument) rows :
  add_rows documents = Ok rows ->
  Forall2 (fun doc row =>
             add_id row = doc_id doc /\ add_document row = doc_content doc
             /\ add_embedding row = default [] (doc_embedding doc)
             /\ exists sanitized,
                  sanitizeMetadata (doc_metadata doc) = Ok sanitized
                  /\ add_metadata row = stored_metadata_of sanitized)
    documents rows.
Proof.
  revert rows. induction documents as [|doc documents IH]; intros rows; cbn.
  - intros [= <-]. constructor.
  - fold sanitizeMetadata.
    destruct (sanitizeMetadata (doc_metadata doc)) as [sanitized|] eqn:Hs; [| discriminate].
    fold add_rows. destruct (add_rows documents) as [rest|]; [| discriminate].
    intros [= <-]. constructor; [| now apply IH].
    cbn. eauto 10.
Qed.

(** A successful [addDocuments] on a ready client. *)
Lemma addDocuments_ready_run w records documents w' :
  ready w records ->
  addDocuments documents w = (Ok tt, w') ->
  exists rows,
    w' = with_records w (fold_left store_row rows records)
    /\ Forall2 (fun doc row =>
                  add_id row = doc_id doc
                  /\ stored_as (embeddingFunction (this w)) doc (stored_of_row row))
         documents rows.
Proof.
  intros Hready. pose proof Hready as [Hini Hhandle Hup Hrecords].
  unfold Client.addDocuments.
  rewrite (bind_ok _ _ _ _ _ (ensureInitialized_ready w Hini)).
  rewrite (bind_ok get_this _ w (this w) w eq_refl). rewrite Hhandle.
  destruct documents as [|doc documents].
  { intros [= <-]. exists []. split; [| constructor].
    cbn. now rewrite (with_records_same w records Hready). }
  destruct (forallb _ (doc :: documents)) eqn:Hall.
  - destruct (add_rows (doc :: documents)) as [rows|] eqn:Hrows;
      unfold bind, ret, throw, of_outcome, call_server, collection_add;
      rewrite Hrows; [| discriminate].
    rewrite Hup, Hrecords. intros [= <-]. exists rows. split; [reflexivity |].
    apply add_rows_rows in Hrows.
    pose proof (proj1 (forallb_forall _ _) Hall) as Hgiven.
    clear Hall. remember (doc :: documents) as docs eqn:Hdocs. clear Hdocs.
    induction Hrows as [|d row l rows' (Hid & Hdoc & Hemb & sanitized & Hs & Hmeta) _ IH];
      constructor.
    + split; [exact Hid |]. unfold stored_as, stored_of_row. cbn.
      split; [now rewrite Hdoc |].
      split; [exists sanitized; split; congruence |].
      specialize (Hgiven d (or_introl eq_refl)).
      apply bool_decide_eq_true in Hgiven as [given Hgiven].
      now rewrite Hemb, Hgiven.
    + apply IH. intros x Hx. apply Hgiven. now right.
  - destruct (embeddingFunction (this w)) as [generate|] eqn:Hgen;
      [| unfold bind, throw; discriminate].
    destruct (embed_missing generate (doc :: documents)) as [embedded|] eqn:Hemb;
      [| unfold bind, of_outcome; discriminate].
    destruct (add_rows embedded) as [rows|] eqn:Hrows;
      unfold bind, ret, throw, of_outcome, call_server, collection_add;
      rewrite Hrows; [| discriminate].
    rewrite Hup, Hrecords. intros [= <-]. exists rows. split; [reflexivity |].
    apply add_rows_rows in Hrows. apply embed_missing_embeds in Hemb.
    clear Hall. remember (doc :: documents) as docs eqn:Hdocs. clear Hdocs.
    revert rows Hrows.
    induction Hemb as [|d d' l l' (Hid' & Hdoc' & Hmeta' & Hgiven) _ IH];
      intros rows' Hrows; inversion Hrows as [|? row ? rows'' Hrow Hrest]; subst;
      constructor; [| now apply IH].
    destruct Hrow as (Hid & Hdoc & Hembedding & sanitized & Hs & Hmeta).
    split; [congruence |]. unfold stored_as, stored_of_row. cbn.
    split; [congruence |].
    split; [exists sanitized; split; congruence |].
    destruct (doc_embedding d) as [given|].
    + now rewrite Hembedding, Hgiven.
    + destruct Hgiven as (made & Hmade & Hgiven). exists generate.
      split; [reflexivity |]. now rewrite Hembedding, Hgiven.
Qed.

Lemma fold_store_rows_lookup (rows : list AddRow) records :
  NoDup (map add_id rows) ->
  (forall row, row ∈ rows ->
     fold_left store_row rows records !! add_id row = Some (stored_of_row row))
  /\ (forall id, id ∉ map add_id rows ->
        fold_left store_row rows records !! id = records !! id).
Proof.
  revert records. induction rows as [|r rows IH]; intros records Hnd.
  - split; [intros row Hrow; inversion Hrow | reflexivity].
  - cbn [map] in Hnd. apply NoDup_cons in Hnd as [Hr Hnd].
    destruct (IH (store_row records r) Hnd) as [Hin Hout].
    cbn [fold_left]. split.
    + intros row Hrow. apply elem_of_cons in Hrow as [->|Hrow]; [| now apply Hin].
      rewrite Hout by exact Hr. unfold store_row. apply lookup_insert_eq.
    + intros id Hid. cbn [map] in Hid. apply not_elem_of_cons in Hid as [Hne Hid].
      rewrite Hout by exact Hid. unfold store_row. now apply lookup_insert_ne.
Qed.

(** X16. When [addDocuments] returns, on an initialized client, for
    documents with distinct ids none of which is stored yet, every
    document is stored under its id with its content, its flattened
    metadata and its embedding (the given one, or the one generated from
    its content); the other records, the client and the files are
    unchanged, and for no documents nothing changes at all. *)
Theorem addDocuments_stores (w : World) (records : gmap string Stored)
    (documents : list VectorDocument) (w' : World) :
  ready w records ->
  NoDup (map doc_id documents) ->
  (forall doc, doc ∈ documents -> records !! doc_id doc = None) ->
  addDocuments documents w = (Ok tt, w') ->
  (forall doc, doc ∈ documents ->
     exists stored,
       stored_records w' !! doc_id doc = Some stored
       /\ stored_as (embeddingFunction (this w)) doc stored)
  /\ (forall id, id ∉ map doc_id documents -> stored_records w' !! id = records !! id)
  /\ this w' = this w /\ files w' = files w
  /\ (documents = [] -> w' = w).
Proof.
  intros Hready Hnd _ Hrun.
  destruct (addDocuments_ready_run w records documents w' Hready Hrun)
    as (rows & -> & Hrows).
  assert (Hids : map add_id rows = map doc_id documents).
  { clear -Hrows. induction Hrows as [|d row l rows' [Hid _] _ IH]; cbn; congruence. }
  rewrite <- Hids in Hnd.
  destruct (fold_store_rows_lookup rows records Hnd) as [Hin Hout].
  rewrite stored_records_with_records.
  split.
  { intros doc Hdoc. apply list_elem_of_lookup_1 in Hdoc as [i Hi].
    destruct (Forall2_lookup_l _ _ _ _ _ Hrows Hi) as (row & Hrow & Hid & Hstored).
    exists (stored_of_row row). split; [| exact Hstored].
    rewrite <- Hid. apply Hin. eapply list_elem_of_lookup_2, Hrow. }
  split; [intros id Hid; apply Hout; now rewrite Hids |].
  split; [reflexivity |]. split; [reflexivity |].
  intros ->. inversion Hrows; subst. cbn. now apply with_records_same.
Qed.

(** *** deleteDocuments *)

(** X17. On an initialized client whose store is reachable,
    [deleteDocuments] returns: afterwards none of the given ids is stored,
    while every other record, every other collection, the client and the
    files are as before; for no ids nothing changes at all (the store is
    not called). *)
Theorem deleteDocuments_removes (ids : list string) (w : World)
    (records : gmap string Stored) :
  ready w records ->
  exists w',
    deleteDocuments ids w = (Ok tt, w')
    /\ (forall id, id ∈ ids -> stored_records w' !! id = None)
    /\ (forall id, id ∉ ids -> stored_records w' !! id = records !! id)
    /\ (forall other, other <> collectionName (this w) ->
          collections (server w') !! other = collections (server w) !! other)
    /\ this w' = this w /\ files w' = files w
    /\ (ids = [] -> w' = w).
Proof.
  intros Hready. pose proof Hready as [Hini Hhandle Hup Hrecords].
  unfold deleteDocuments.
  rewrite (bind_ok _ _ _ _ _ (ensureInitialized_ready w Hini)).
  rewrite (bind_ok get_this _ w (this w) w eq_refl). rewrite Hhandle.
  destruct ids as [|id ids].
  - exists w. split; [reflexivity |].
    split; [intros id Hid; inversion Hid |].
    split; [intros id _; unfold stored_records; now rewrite Hrecords |].
    repeat split; reflexivity.
  - unfold call_server, collection_delete. rewrite Hup, Hrecords.
    eexists. split; [reflexivity |].
    unfold stored_records. cbn [server collections this]. rewrite lookup_insert_eq. cbn [default].
    split; [intros x Hx; now apply (lookup_foldr_delete records (id :: ids)) |].
    split; [intros x Hx; now apply (lookup_foldr_delete_not_elem_of records (id :: ids)) |].
    split; [intros other Hne; now apply lookup_insert_ne |].
    repeat split; try reflexivity. discriminate.
Qed.

(** An empty list of ids is not sent to the store. *)
Lemma deleteDocuments_nothing w :
  isInitialized (this w) = true -> is_Some (collection (this w)) ->
  deleteDocuments [] w = (Ok tt, w).
Proof.
  intros Hini [handle Hhandle]. unfold deleteDocuments.
  rewrite (bind_ok _ _ _ _ _ (ensureInitialized_ready w Hini)).
  rewrite (bind_ok get_this _ w (this w) w eq_refl). now rewrite Hhandle.
Qed.

(** X18. Adding documents with distinct ids none of which is stored yet
    and then deleting the ids of these documents gives back exactly the
    state before the addition. *)
Theorem add_then_delete_restores (w : World) (records : gmap string Stored)
    (documents : list VectorDocument) (w1 : World) :
  ready w records ->
  NoDup (map doc_id documents) ->
  (forall doc, doc ∈ documents -> records !! doc_id doc = None) ->
  addDocuments documents w = (Ok tt, w1) ->
  deleteDocuments (map doc_id documents) w1 = (Ok tt, w).
Proof.
  intros Hready Hnd Hfresh Hrun.
  destruct (addDocuments_ready_run w records documents w1 Hready Hrun)
    as (rows & -> & Hrows).
  assert (Hids : map add_id rows = map doc_id documents).
  { clear -Hrows. induction Hrows as [|d row l rows' [Hid _] _ IH]; cbn; congruence. }
  rewrite <- Hids in Hnd.
  destruct (fold_store_rows_lookup rows records Hnd) as [Hin Hout].
  set (added := fold_left store_row rows records) in *.
  pose proof (with_records_ready w records added Hready) as Hready1.
  pose proof Hready1 as [Hini Hhandle Hup Hrecords].
  unfold deleteDocuments.
  rewrite (bind_ok _ _ _ _ _ (ensureInitialized_ready _ Hini)).
  rewrite (bind_ok get_this _ _ _ _ eq_refl). rewrite Hhandle.
  assert (Hback : foldr delete added (map doc_id documents) = records).
  { apply map_eq. intros id.
    destruct (decide (id ∈ map doc_id documents)) as [Hid|Hid].
    - rewrite lookup_foldr_delete by exact Hid.
      apply list_elem_of_fmap in Hid as (doc & -> & Hdoc). symmetry. now apply Hfresh.
    - rewrite lookup_foldr_delete_not_elem_of by exact Hid.
      apply Hout. now rewrite Hids. }
  destruct documents as [|doc documents].
  - subst added. inversion Hrows; subst. cbn. f_equal. now apply with_records_same.
  - cbn [map]. unfold call_server, collection_delete.
    rewrite Hup, Hrecords. cbn [map] in Hback. rewrite Hback.
    f_equal. change (with_records (with_records w added) records = w).
    rewrite with_records_again. now apply with_records_same.
Qed.


(** *** getStats *)

(** The key a record is counted under for the field [name]. *)
Definition counted_under (name : string) (row : GetRow) : option string :=
  truthy_key Number_toString (got_metadata row ≫= (.!! name)).

(** How many rows of the sample are counted under [key]. *)
Definition occurrences (name key : string) (sample : list GetRow) : nat :=
  length (List.filter (fun row => bool_decide (counted_under name row = Some key)) sample).

Definition positive (n : nat) : option nat :=
  match n with
  | O => None
  | S _ => Some n
  end.

(** The sample [getStats] reads: at most 1000 records. *)
Definition sample_of (records : gmap string Stored) : list GetRow :=
  take 1000 (map get_row (map_to_list records)).

Definition total_size (sample : list GetRow) : Z :=
  foldr Z.add 0 (map (fun row => JsString.len (default "" (got_document row))) sample).

Lemma count_fold (f : GetRow -> option string) sample acc key :
  fold_left (fun acc row => count_key (f row) acc) sample acc !! key
  = match length (List.filter (fun row => bool_decide (f row = Some key)) sample) with
    | O => acc !! key
    | S n => Some (S n + default 0 (acc !! key))%nat
    end.
Proof.
  revert acc. induction sample as [|row sample IH]; intros acc; [reflexivity |].
  cbn [fold_left List.filter]. rewrite IH. unfold count_key.
  destruct (f row) as [k|] eqn:Hf.
  - destruct (decide (k = key)) as [->|Hne].
    + rewrite bool_decide_eq_true_2 by reflexivity. cbn [length].
      rewrite lookup_insert_eq. cbn [default from_option]. unfold id.
      generalize (default 0%nat (acc !! key)). intros d.
      destruct (length _); f_equal; lia.
    + rewrite bool_decide_eq_false_2 by congruence.
      now rewrite lookup_insert_ne by exact Hne.
  - rewrite bool_decide_eq_false_2 by discriminate. reflexivity.
Qed.

Lemma size_fold sample acc :
  fold_left (fun acc row => acc + JsString.len (default "" (got_document row))) sample acc
  = acc + total_size sample.
Proof.
  revert acc. induction sample as [|row sample IH]; intros acc; cbn.
  - unfold total_size. cbn. lia.
  - rewrite IH. unfold total_size. cbn. lia.
Qed.

Lemma compute_stats_spec count sample updated :
  let stats := compute_stats Number_toString count sample updated in
  totalDocuments stats = count
  /\ (forall key, categories stats !! key = positive (occurrences "category" key sample))
  /\ (forall key, sources stats !! key = positive (occurrences "source" key sample))
  /\ lastUpdated stats = updated
  /\ averageChunkSize stats
     = if (0 <? length sample)%nat
       then rounded_average (total_size sample) (length sample) else 0.
Proof.
  cbv zeta. unfold compute_stats. cbn [totalDocuments categories sources lastUpdated
    averageChunkSize].
  split; [reflexivity |].
  split.
  { intros key. rewrite (count_fold _ sample ∅ key). rewrite lookup_empty.
    unfold occurrences, counted_under. cbn [default from_option].
    destruct (length _); [reflexivity |]. cbn. f_equal. lia. }
  split.
  { intros key. rewrite (count_fold _ sample ∅ key). rewrite lookup_empty.
    unfold occurrences, counted_under. cbn [default from_option].
    destruct (length _); [reflexivity |]. cbn. f_equal. lia. }
  split; [reflexivity |].
  now rewrite size_fold, Z.add_0_l.
Qed.

Lemma getStats_sample w records :
  ready w records ->
  getStats w
  = (Ok (compute_stats Number_toString (size records) (sample_of records)
           (Date_toISOString now)), w).
Proof. intros Hready. now rewrite (getStats_ready _ _ _ w records Hready). Qed.

Lemma sample_of_length records :
  (length (sample_of records) <= 1000)%nat
  /\ (length (sample_of records) <= size records)%nat.
Proof.
  unfold sample_of. rewrite length_take, length_map, length_map_to_list. lia.
Qed.


(** X20. The [averageChunkSize] that [getStats] reports is 0 for an
    empty collection; otherwise it is the total length of the contents
    read divided by their number [n], rounded to the nearest integer
    with halves rounded up: [average <= total / n + 1/2 < average + 1]. *)
Theorem getStats_average (w : World) (records : gmap string Stored) :
  ready w records ->
  exists stats,
    getStats w = (Ok stats, w)
    /\ let n := Z.of_nat (length (sample_of records)) in
       let total := total_size (sample_of records) in
       let average := averageChunkSize stats in
       (records = ∅ -> average = 0)
       /\ (records <> ∅ ->
           0 <= average
           /\ 2 * n * average <= 2 * total + n < 2 * n * (average + 1)).
Proof.
  intros Hready. eexists. split; [apply getStats_sample, Hready |].
  destruct (compute_stats_spec (size records) (sample_of records) (Date_toISOString now))
    as (_ & _ & _ & _ & Havg).
  cbv zeta. rewrite Havg. clear Havg.
  assert (Htotal : 0 <= total_size (sample_of records)).
  { unfold total_size. induction (sample_of records) as [|row l IH]; cbn; [lia |].
    pose proof (JsString.len_nonneg (default "" (got_document row))). lia. }
  split.
  - intros ->. reflexivity.
  - intros Hne.
    assert (Hlen : (0 < length (sample_of records))%nat).
    { unfold sample_of. rewrite length_take, length_map, length_map_to_list.
      assert (size records <> 0%nat) by (intros H; now apply map_size_empty_iff in H). lia. }
    destruct (Nat.ltb_spec 0 (length (sample_of records))) as [_|]; [| lia].
    unfold rounded_average.
    set (n := Z.of_nat (length (sample_of records))) in *.
    set (t := total_size (sample_of records)) in *.
    assert (Hn : 0 < n) by (subst n; lia).
    pose proof (Z.div_mod (2 * t + n) (2 * n) ltac:(lia)) as Hdm.
    pose proof (Z.mod_pos_bound (2 * t + n) (2 * n) ltac:(lia)) as Hmod.
    assert (Hq : 0 <= (2 * t + n) / (2 * n)) by (apply Z.div_pos; lia).
    split; [exact Hq |]. nia.
Qed.


(** *** importBackup: the file, the header line, the order of the steps *)

(** X21. [importBackup] of a file that does not exist, or that holds
    no line other than blank ones, throws and leaves the state as its
    initialization step left it (unchanged on an initialized client; no
    record and no file changed on any): nothing is cleared, whatever
    [clearExisting] says.  When the initialization succeeded, the error
    is [Backup file not found: path] for a missing file and
    [Backup file is empty] for an empty one. *)
Theorem importBackup_missing_or_empty (w : World) (inputPath : string)
    (clearExisting : bool) :
  files w !! inputPath = None
  \/ (exists content, files w !! inputPath = Some content /\ backup_lines content = []) ->
  exists e,
    importBackup inputPath clearExisting w = (Throw e, (ensureInitialized w).2)
    /\ untouched w (ensureInitialized w).2
    /\ (isInitialized (this w) = true -> (ensureInitialized w).2 = w)
    /\ (forall w1, ensureInitialized w = (Ok tt, w1) ->
        (files w !! inputPath = None ->
         e = JsError ("Backup file not found: " +:+ inputPath))
        /\ (is_Some (files w !! inputPath) -> e = JsError "Backup file is empty")).
Proof.
  intros Hfile.
  pose proof (keeps_ensureInitialized w) as Hkeep.
  destruct (ensureInitialized_effects w) as (Hfiles & _ & Hsame).
  unfold Client.importBackup.
  destruct (ensureInitialized w) as [[[]|e] w1] eqn:Hens; cbn [snd] in *.
  2:{ exists e. rewrite (bind_throw _ _ _ _ _ Hens).
      split; [reflexivity |]. split; [exact Hkeep |]. split; [exact Hsame |].
      intros w1' [=]. }
  rewrite (bind_ok _ _ _ _ _ Hens). cbv beta.
  rewrite (bind_ok get_files _ w1 (files w1) w1 eq_refl). rewrite Hfiles.
  destruct Hfile as [Hnone|(content & Hsome & Hlines)].
  - rewrite Hnone. eexists. split; [reflexivity |].
    split; [exact Hkeep |]. split; [exact Hsame |].
    intros w1' _. split; [reflexivity |]. intros [x Hx]. congruence.
  - rewrite Hsome, Hlines. eexists. split; [reflexivity |].
    split; [exact Hkeep |]. split; [exact Hsame |].
    intros w1' _. split; [congruence | reflexivity].
Qed.

Lemma mapM_as_document_records documents :
  Forall (fun doc => doc_embedding doc = None) documents ->
  mapM as_document (map document_record documents) = Some documents.
Proof.
  intros H. apply mapM_Some. induction H as [|doc documents Hdoc _ IH]; cbn;
    constructor; [now apply as_document_record | exact IH].
Qed.

Lemma parse_documents_lines lines documents :
  Forall2 (fun line doc => JSON_parse line = Some (document_record doc)) lines documents ->
  Client.parse_documents JSON_parse lines = Ok (map document_record documents).
Proof.
  induction 1 as [|line doc lines documents Hline _ IH]; [reflexivity |].
  cbn [map Client.parse_documents]. unfold parse at 1. now rewrite Hline, IH.
Qed.

(** The steps of [importBackup] on a ready client, once the file is read
    and its first line accepted. *)
Lemma importBackup_ready_run w records inputPath clearExisting content first rest
    header documents :
  ready w records ->
  files w !! inputPath = Some content ->
  backup_lines content = first :: rest ->
  JSON_parse first = Some header -> header <> VNull ->
  Forall2 (fun line doc => JSON_parse line = Some (document_record doc)) rest documents ->
  importBackup inputPath clearExisting w
  = add_batches Number_toString Date_toString Date_toISOString
      (batches (length documents) 100 (map document_record documents))
      (if clearExisting then with_records w ∅ else w).
Proof.
  intros Hready Hfile Hlines Hfirst Hheader Hrest.
  pose proof Hready as [Hini Hhandle Hup Hrecords].
  unfold Client.importBackup.
  rewrite (bind_ok _ _ _ _ _ (ensureInitialized_ready w Hini)).
  rewrite (bind_ok get_files _ w (files w) w eq_refl). rewrite Hfile, Hlines.
  rewrite (bind_ok (of_outcome (parse JSON_parse first)) _ w header w)
    by (unfold of_outcome, parse; now rewrite Hfirst).
  rewrite (bind_ok _ _ w tt w) by (destruct header; try reflexivity; contradiction).
  rewrite (bind_ok (of_outcome (Client.parse_documents JSON_parse rest)) _ w
             (map document_record documents) w)
    by (unfold of_outcome; now rewrite (parse_documents_lines rest documents Hrest)).
  rewrite (bind_ok get_this _ w (this w) w eq_refl). rewrite Hhandle, length_map.
  destruct clearExisting.
  - now rewrite (bind_ok _ _ _ _ _ (clear_step w records Hready)).
  - now rewrite (bind_ok (ret tt) _ w tt w eq_refl).
Qed.

(** X22. On a client without an embedding function, importing a
    well-formed backup of at least one document with [clearExisting]
    throws the error that embeddings are required, after the collection
    was cleared: the records stored before are lost.  Without
    [clearExisting] the same import throws the same error and changes
    nothing. *)
Theorem importBackup_clears_before_embedding (w : World) (records : gmap string Stored)
    (inputPath content first : string) (rest : list string) (header : value)
    (documents : list VectorDocument) :
  ready w records ->
  embeddingFunction (this w) = None ->
  files w !! inputPath = Some content ->
  backup_lines content = first :: rest ->
  JSON_parse first = Some header -> header <> VNull ->
  Forall2 (fun line doc => JSON_parse line = Some (document_record doc)
                           /\ doc_embedding doc = None) rest documents ->
  documents <> [] ->
  importBackup inputPath true w
  = (Throw (JsError "Embeddings required but no embedding function provided"),
     with_records w ∅)
  /\ stored_records (with_records w ∅) = ∅
  /\ importBackup inputPath false w
     = (Throw (JsError "Embeddings required but no embedding function provided"), w).
Proof.
  intros Hready Hnone Hfile Hlines Hfirst Hheader Hrest Hsome.
  assert (Hparse : Forall2 (fun line doc => JSON_parse line = Some (document_record doc))
                     rest documents).
  { eapply Forall2_impl; [exact Hrest |]. now intros line doc [H _]. }
  assert (Hplain : Forall (fun doc => doc_embedding doc = None) documents).
  { clear -Hrest. induction Hrest as [|line doc l l' [_ H] _ IH]; constructor; assumption. }
  assert (Hthrows : forall w0 records0,
            ready w0 records0 -> embeddingFunction (this w0) = None ->
            add_batches Number_toString Date_toString Date_toISOString
              (batches (length documents) 100 (map document_record documents)) w0
            = (Throw (JsError "Embeddings required but no embedding function provided"),
               w0)).
  { intros w0 records0 Hready0 Hnone0.
    destruct documents as [|doc documents]; [contradiction |].
    cbn [length map batches add_batches].
    apply bind_throw. unfold addParsedDocuments.
    change (document_record doc :: map document_record documents)
      with (map document_record (doc :: documents)).
    rewrite firstn_map, mapM_as_document_records
      by (apply Forall_take; exact Hplain).
    pose proof Hready0 as [Hini Hhandle Hup Hrecords].
    unfold Client.addDocuments.
    rewrite (bind_ok _ _ _ _ _ (ensureInitialized_ready w0 Hini)).
    rewrite (bind_ok get_this _ w0 (this w0) w0 eq_refl). rewrite Hhandle.
    cbn [take]. apply bind_throw.
    inversion Hplain as [|? ? Hdoc _]; subst. cbn [forallb]. rewrite Hdoc.
    rewrite bool_decide_eq_false_2 by (intros [? ?]; discriminate).
    cbn [andb]. now rewrite Hnone0. }
  split; [| split].
  - rewrite (importBackup_ready_run w records inputPath true content first rest header
               documents) by assumption.
    apply (Hthrows _ ∅); [now apply (with_records_ready w records) | exact Hnone].
  - apply stored_records_with_records.
  - rewrite (importBackup_ready_run w records inputPath false content first rest header
               documents) by assumption.
    now apply (Hthrows _ records).
Qed.

(** X23. The first non-blank line of a backup is taken for the header
    and never imported: a backup of one line imports no document.
    Without [clearExisting] the state is unchanged; with it the
    collection ends up empty. *)
Theorem importBackup_skips_first_line (w : World) (records : gmap string Stored)
    (inputPath content first : string) (header : value) :
  ready w records ->
  files w !! inputPath = Some content ->
  backup_lines content = [first] ->
  JSON_parse first = Some header -> header <> VNull ->
  importBackup inputPath false w = (Ok tt, w)
  /\ importBackup inputPath true w = (Ok tt, with_records w ∅).
Proof.
  intros Hready Hfile Hlines Hfirst Hheader.
  split.
  - now rewrite (importBackup_ready_run w records inputPath false content first [] header [])
      by (assumption || constructor).
  - now rewrite (importBackup_ready_run w records inputPath true content first [] header [])
      by (assumption || constructor).
Qed.

(** *** exportBackup *)

(** X24. [exportBackup] changes no record of any collection and no file
    other than the one at [outputPath]; when it throws, no file is
    changed at all, and when it returns, the file at [outputPath]
    exists. *)
Theorem exportBackup_writes_one_file (w : World) (outputPath : string)
    (r : outcome unit) (w' : World) :
  exportBackup outputPath w = (r, w') ->
  (forall name, records_of w' name = records_of w name)
  /\ (forall p, p <> outputPath -> files w' !! p = files w !! p)
  /\ (forall e, r = Throw e -> files w' = files w)
  /\ (r = Ok tt -> is_Some (files w' !! outputPath)).
Proof.
  unfold Client.exportBackup. intros Hrun.
  pose proof (keeps_ensureInitialized w) as [R1 F1].
  destruct (ensureInitialized w) as [[[]|e1] w1] eqn:H1; cbn [snd] in *.
  2:{ rewrite (bind_throw _ _ _ _ _ H1) in Hrun. injection Hrun as <- <-.
      repeat split; try assumption; try discriminate; intros; congruence. }
  rewrite (bind_ok _ _ _ _ _ H1) in Hrun.
  pose proof (keeps_getAllDocuments None w1) as [R2 F2].
  destruct (getAllDocuments None w1) as [[documents|e2] w2] eqn:H2; cbn [snd] in *.
  2:{ rewrite (bind_throw _ _ _ _ _ H2) in Hrun. injection Hrun as <- <-.
      repeat split; try discriminate; intros; congruence. }
  rewrite (bind_ok _ _ _ _ _ H2) in Hrun.
  pose proof (keeps_getStats w2) as [R3 F3].
  destruct (getStats w2) as [[stats|e3] w3] eqn:H3; cbn [snd] in *.
  2:{ rewrite (bind_throw _ _ _ _ _ H3) in Hrun. injection Hrun as <- <-.
      repeat split; try discriminate; intros; congruence. }
  rewrite (bind_ok _ _ _ _ _ H3) in Hrun.
  unfold bind, of_outcome, toISOString, writeFileSync in Hrun. injection Hrun as <- <-.
  cbn [files server].
  split; [intros name; unfold records_of in *; cbn [server]; rewrite R3, R2, R1; reflexivity |].
  split; [intros p Hp; rewrite lookup_insert_ne by congruence; congruence |].
  split; [discriminate |]. intros _. rewrite lookup_insert_eq. eauto.
Qed.

End Methods.

End OperationsProofs.

(** ** The text an id is hashed from *)

Module ChunkKeys.
Import IdentityAssigner.

(** [`${filePath}-${chunkIndex}`] *)
Definition chunk_key (filePath : string) (chunkIndex : Z) : string :=
  filePath +:+ "-" +:+ Number_toString chunkIndex.

Definition is_digit (c : ascii) : bool :=
  existsb (Ascii.eqb c) (list_ascii_of_string "0123456789").

Lemma digits_of_uint d :
  Forall (fun c => is_digit c = true)
    (list_ascii_of_string (DecimalString.NilEmpty.string_of_uint d)).
Proof. induction d; cbn; constructor; (reflexivity || assumption). Qed.

(** A non-negative index prints as digits only. *)
Lemma Number_toString_digits n :
  0 <= n -> Forall (fun c => is_digit c = true) (list_ascii_of_string (Number_toString n)).
Proof.
  intros Hn. unfold Number_toString. destruct n as [|p|p]; [repeat constructor | | lia].
  cbn [Z.to_int DecimalString.NilZero.string_of_int].
  unfold DecimalString.NilZero.string_of_uint.
  pose proof (DecimalPos.Unsigned.to_uint_nonnil p) as Hnil.
  destruct (Pos.to_uint p) eqn:E; try contradiction; rewrite <- E; apply digits_of_uint.
Qed.

Lemma Number_toString_inj n m : Number_toString n = Number_toString m -> n = m.
Proof.
  unfold Number_toString. intros H.
  assert (Hint : Z.to_int n = Z.to_int m).
  { assert (Hok : forall k, DecimalString.NilZero.int_of_string
                              (DecimalString.NilZero.string_of_int (Z.to_int k))
                            = Some (Z.to_int k)).
    { intros k. apply DecimalString.NilZero.isi; destruct k as [|p|p]; cbn;
        try discriminate; intros [= E]; now apply (DecimalPos.Unsigned.to_uint_nonnil p). }
    pose proof (Hok n) as Hn. rewrite H, Hok in Hn. congruence. }
  rewrite <- (DecimalZ.of_to n), <- (DecimalZ.of_to m). now rewrite Hint.
Qed.

Lemma split_at_last_hyphen (p p' a b : list ascii) :
  p ++ "-"%char :: a = p' ++ "-"%char :: b ->
  ~ In "-"%char a -> ~ In "-"%char b ->
  p = p' /\ a = b.
Proof.
  revert p'. induction p as [|c p IH]; intros [|c' p'] H Ha Hb; cbn in H.
  - injection H as ->. auto.
  - injection H as <- ->. exfalso. apply Ha. apply in_or_app. right. now left.
  - injection H as -> <-. exfalso. apply Hb. apply in_or_app. right. now left.
  - injection H as -> H. destruct (IH p' H Ha Hb) as [-> ->]. auto.
Qed.

Lemma list_ascii_of_append a b :
  list_ascii_of_string (a +:+ b) = list_ascii_of_string a ++ list_ascii_of_string b.
Proof.
  induction a as [|c a IH]; [reflexivity |].
  change (c :: list_ascii_of_string (a +:+ b)
          = c :: list_ascii_of_string a ++ list_ascii_of_string b). now rewrite IH.
Qed.

Lemma digits_no_hyphen l : Forall (fun c => is_digit c = true) l -> ~ In "-"%char l.
Proof.
  intros H Hin. rewrite Forall_forall in H.
  apply list_elem_of_In in Hin. specialize (H _ Hin). discriminate.
Qed.

(** X25. The text an id is hashed from determines the chunk: for indices
    that are not negative, ["{filePath}-{chunkIndex}"] is the same text
    for two chunks only when the paths are equal and the indices are
    equal.  (For a negative index this fails, see
    [chunk_key_negative_index].) *)
Theorem chunk_key_injective (filePath filePath' : string) (i j : Z) :
  0 <= i -> 0 <= j ->
  chunk_key filePath i = chunk_key filePath' j ->
  filePath = filePath' /\ i = j.
Proof.
  intros Hi Hj H. unfold chunk_key in H.
  apply (f_equal list_ascii_of_string) in H.
  rewrite !list_ascii_of_append in H. cbn [list_ascii_of_string app] in H.
  apply split_at_last_hyphen in H as [Hp Hn];
    [| apply digits_no_hyphen, Number_toString_digits; assumption ..].
  split.
  - rewrite <- (string_of_list_ascii_of_string filePath),
      <- (string_of_list_ascii_of_string filePath'). now rewrite Hp.
  - apply Number_toString_inj.
    rewrite <- (string_of_list_ascii_of_string (Number_toString i)),
      <- (string_of_list_ascii_of_string (Number_toString j)). now rewrite Hn.
Qed.

Lemma generateChunkId_key filePath chunkIndex :
  generateChunkId filePath chunkIndex
  = js_substring (Sha256.sha256_hex (chunk_key filePath chunkIndex)) 0 16.
Proof. reflexivity. Qed.

Example chunk_key_negative_index : chunk_key "a" (-1) = chunk_key "a-" 1.
Proof. reflexivity. Qed.


End ChunkKeys.

(** ** Ingestion in batches: the storing loop of [ingestDocs] in
    scripts/ingest-docs.ts *)

Module Ingest.
Import Js Store Client.

Record progress := {
  successCount : nat;
  failedBatches : list nat
}.

(** [for (const doc of docsToEmbed) doc.embedding = await generate(doc.content)]
    as the caller sees it: the documents are the caller's objects, so
    the embeddings assigned before a failure stay on them. *)
Fixpoint assign_embeddings (generate : string -> option embedding)
    (documents : list VectorDocument) : outcome unit * list VectorDocument :=
  match documents with
  | [] => (Ok tt, [])
  | doc :: rest =>
      match doc_embedding doc with
      | Some _ =>
          let '(r, rest') := assign_embeddings generate rest in (r, doc :: rest')
      | None =>
          match generate (doc_content doc) with
          | None => (Throw EmbeddingError, doc :: rest)
          | Some embedding =>
              let '(r, rest') := assign_embeddings generate rest in
              (r, {| doc_id := doc_id doc; doc_content := doc_content doc;
                     doc_metadata := doc_metadata doc;
                     doc_embedding := Some embedding |} :: rest')
          end
      end
  end.

Section Script.

Variable Number_toString : Q -> string.
Variable Date_toString : Z -> string.
Variable Date_toISOString : Z -> string.

(** [vectorDB.addDocuments(documents)] together with what it leaves in
    the caller's documents. *)
Definition addDocuments_in_place (documents : list VectorDocument) (w : World)
    : outcome unit * list VectorDocument * World :=
  match ensureInitialized w with
  | (Throw e, w1) => (Throw e, documents, w1)
  | (Ok _, w1) =>
      match collection (this w1) with
      | None => (Throw (JsError "Collection not initialized"), documents, w1)
      | Some handle =>
          match documents with
          | [] => (Ok tt, documents, w1)
          | _ :: _ =>
              (* Generate embeddings if not provided *)
              let '(r, embedded) :=
                if forallb (fun d => bool_decide (is_Some (doc_embedding d))) documents
                then (Ok tt, documents)
                else match embeddingFunction (this w1) with
                     | None =>
                         (Throw (JsError
                            "Embeddings required but no embedding function provided"),
                          documents)
                     | Some generate => assign_embeddings generate documents
                     end in
              match r with
              | Throw e => (Throw e, embedded, w1)
              | Ok _ =>
                  (* Add to ChromaDB (filter out complex metadata types) *)
                  match add_rows Number_toString Date_toString Date_toISOString embedded with
                  | Throw e => (Throw e, embedded, w1)
                  | Ok rows =>
                      let '(r', w2) := call_server (collection_add handle rows) w1 in
                      (r', embedded, w2)
                  end
              end
          end
      end
  end.

(** The inner loop: the documents of a failed batch, one at a time. *)
Fixpoint add_individually (batch : list VectorDocument) (successCount : nat)
    : M nat :=
  match batch with
  | [] => ret successCount
  | doc :: rest =>
      fun w =>
        match addDocuments_in_place [doc] w with
        | (Ok _, _, w1) => add_individually rest (S successCount) w1
        | (Throw _, _, w1) => add_individually rest successCount w1   (* Continue with next document *)
        end
  end.

(** The outer loop, batch by batch; [batchNumber] is
    [Math.floor(i / batchSize) + 1]. *)
Fixpoint add_in_batches (batches : list (list VectorDocument)) (batchNumber : nat)
    (p : progress) : M progress :=
  match batches with
  | [] => ret p
  | batch :: rest =>
      fun w =>
        match addDocuments_in_place batch w with
        | (Ok _, _, w1) =>
            add_in_batches rest (S batchNumber)
              {| successCount := successCount p + length batch;
                 failedBatches := failedBatches p |} w1
        | (Throw _, batch', w1) =>
            match add_individually batch' (successCount p) w1 with
            | (Ok count, w2) =>
                add_in_batches rest (S batchNumber)
                  {| successCount := count;
                     failedBatches := failedBatches p ++ [batchNumber] |} w2
            | (Throw e, w2) => (Throw e, w2)
            end
        end
  end.

Definition batchSize : nat := 50.

Definition store_documents (documents : list VectorDocument) : M progress :=
  add_in_batches (batches (length documents) batchSize documents) 1
    {| successCount := 0; failedBatches := [] |}.

(** *** Vocabulary of the statements *)

(** The generator answers for the content of [doc]. *)
Definition accepted (generate : string -> option embedding) (doc : VectorDocument)
    : bool :=
  bool_decide (is_Some (generate (doc_content doc))).

(** The metadata of [doc] can be flattened. *)
Definition flattens (doc : VectorDocument) : Prop :=
  exists sanitized,
    sanitizeMetadata Number_toString Date_toString Date_toISOString (doc_metadata doc)
    = Ok sanitized.

(** The row stored for an accepted document. *)
Definition row_for (generate : string -> option embedding) (doc : VectorDocument)
    : AddRow :=
  {| add_id := doc_id doc;
     add_document := doc_content doc;
     add_embedding := default [] (generate (doc_content doc));
     add_metadata :=
       match sanitizeMetadata Number_toString Date_toString Date_toISOString
               (doc_metadata doc) with
       | Ok sanitized => stored_metadata_of sanitized
       | Throw _ => ∅
       end |}.

(** The numbers of the batches that hold a document the generator
    rejects. *)
Fixpoint failed_numbers (generate : string -> option embedding) (batchNumber : nat)
    (batches : list (list VectorDocument)) : list nat :=
  match batches with
  | [] => []
  | batch :: rest =>
      (if forallb (accepted generate) batch then [] else [batchNumber])
      ++ failed_numbers generate (S batchNumber) rest
  end.

End Script.

End Ingest.

Module IngestProofs.
Import Js Store Client Operations OperationsProofs Ingest.

Section Script.

Variable Number_toString : Q -> string.
Variable Date_toString : Z -> string.
Variable Date_toISOString : Z -> string.

Local Abbreviation addDocuments :=
  (Client.addDocuments Number_toString Date_toString Date_toISOString).
Local Abbreviation addDocuments_in_place :=
  (addDocuments_in_place Number_toString Date_toString Date_toISOString).
Local Abbreviation add_individually :=
  (add_individually Number_toString Date_toString Date_toISOString).
Local Abbreviation add_in_batches :=
  (add_in_batches Number_toString Date_toString Date_toISOString).
Local Abbreviation store_documents :=
  (store_documents Number_toString Date_toString Date_toISOString).
Local Abbreviation sanitizeMetadata :=
  (Client.sanitizeMetadata Number_toString Date_toString Date_toISOString).
Local Abbreviation add_rows :=
  (Client.add_rows Number_toString Date_toString Date_toISOString).

(** *** The in-place call is the client's call *)

Lemma assign_embeddings_embed_missing generate documents :
  embed_missing generate documents
  = match assign_embeddings generate documents with
    | (Ok _, embedded) => Ok embedded
    | (Throw e, _) => Throw e
    end.
Proof.
  induction documents as [|doc documents IH]; [reflexivity |].
  cbn [embed_missing assign_embeddings].
  destruct (doc_embedding doc) as [given|].
  - rewrite IH. now destruct (assign_embeddings generate documents) as [[[]|err] rest].
  - destruct (generate (doc_content doc)) as [made|]; [| reflexivity].
    rewrite IH. now destruct (assign_embeddings generate documents) as [[[]|err] rest].
Qed.

Lemma addDocuments_in_place_agrees documents w :
  addDocuments documents w
  = ((addDocuments_in_place documents w).1.1, (addDocuments_in_place documents w).2).
Proof.
  unfold Client.addDocuments, Ingest.addDocuments_in_place, bind, get_this, ret, throw,
    of_outcome.
  destruct (ensureInitialized w) as [[[]|e] w1]; [| reflexivity].
  destruct (collection (this w1)) as [handle|]; [| reflexivity].
  destruct documents as [|doc documents]; [reflexivity |].
  destruct (forallb _ (doc :: documents)).
  - destruct (add_rows (doc :: documents)) as [rows|e]; [| reflexivity].
    now destruct (call_server (collection_add handle rows) w1).
  - destruct (embeddingFunction (this w1)) as [generate|]; [| reflexivity].
    rewrite assign_embeddings_embed_missing.
    destruct (assign_embeddings generate (doc :: documents)) as [[[]|e] embedded];
      [| reflexivity].
    destruct (add_rows embedded) as [rows|e]; [| reflexivity].
    now destruct (call_server (collection_add handle rows) w1).
Qed.


Local Abbreviation flattens := (flattens Number_toString Date_toString Date_toISOString).
Local Abbreviation row_for := (row_for Number_toString Date_toString Date_toISOString).

(** *** One call *)

Definition consistent (generate : string -> option embedding) (doc : VectorDocument)
    : Prop :=
  forall given, doc_embedding doc = Some given -> generate (doc_content doc) = Some given.

Definition same_document (doc doc' : VectorDocument) : Prop :=
  doc_id doc' = doc_id doc /\ doc_content doc' = doc_content doc
  /\ doc_metadata doc' = doc_metadata doc.

Lemma same_document_refl documents : Forall2 same_document documents documents.
Proof. induction documents; constructor; [repeat split | assumption]. Qed.

Lemma accepted_consistent generate doc :
  consistent generate doc -> is_Some (doc_embedding doc) -> accepted generate doc = true.
Proof.
  intros Hc [given Hgiven]. unfold accepted. apply bool_decide_eq_true.
  rewrite (Hc given Hgiven). eauto.
Qed.

Lemma assign_embeddings_spec generate documents :
  Forall (consistent generate) documents ->
  exists r embedded,
    assign_embeddings generate documents = (r, embedded)
    /\ Forall2 same_document documents embedded
    /\ Forall (consistent generate) embedded
    /\ ((forallb (accepted generate) documents = true /\ r = Ok tt
         /\ Forall (fun d => is_Some (doc_embedding d)) embedded)
        \/ (forallb (accepted generate) documents = false /\ r = Throw EmbeddingError)).
Proof.
  induction 1 as [|doc documents Hdoc Hdocs IH].
  - exists (Ok tt), []. split; [reflexivity |]. split; [constructor |].
    split; [constructor |]. left. split; [reflexivity |]. split; [reflexivity | constructor].
  - destruct IH as (r & rest & Hrun & Hsame & Hcons & Hcases).
    cbn [assign_embeddings forallb].
    destruct (doc_embedding doc) as [given|] eqn:Hgiven.
    + rewrite Hrun. exists r, (doc :: rest).
      split; [reflexivity |].
      split; [constructor; [repeat split | exact Hsame] |].
      split; [constructor; assumption |].
      rewrite (accepted_consistent generate doc Hdoc) by (rewrite Hgiven; eauto).
      cbn [andb]. destruct Hcases as [(Hall & -> & Hsome)|(Hall & ->)]; [left | right; auto].
      repeat split; [exact Hall |]. constructor; [rewrite Hgiven; eauto | exact Hsome].
    + destruct (generate (doc_content doc)) as [made|] eqn:Hmade.
      * assert (Hacc : accepted generate doc = true)
          by (unfold accepted; rewrite Hmade; apply bool_decide_eq_true_2; eauto).
        rewrite Hrun, Hacc. cbn [andb].
        eexists r, (_ :: rest). split; [reflexivity |].
        split; [constructor; [repeat split | exact Hsame] |].
        split; [constructor; [| exact Hcons] |].
        { intros given'. cbn. congruence. }
        destruct Hcases as [(Hall & -> & Hsome)|(Hall & ->)]; [left | right; auto].
        repeat split; [exact Hall |]. constructor; [cbn; eauto | exact Hsome].
      * assert (Hacc : accepted generate doc = false)
          by (unfold accepted; rewrite Hmade; apply bool_decide_eq_false_2;
              intros [? ?]; discriminate).
        rewrite Hacc. cbn [andb].
        exists (Throw EmbeddingError), (doc :: documents). split; [reflexivity |].
        split; [apply same_document_refl |].
        split; [constructor; assumption | right; auto].
Qed.

Lemma add_rows_row_for generate documents embedded :
  Forall2 same_document documents embedded ->
  Forall (consistent generate) embedded ->
  Forall (fun d => is_Some (doc_embedding d)) embedded ->
  Forall flattens documents ->
  add_rows embedded = Ok (map (row_for generate) documents).
Proof.
  induction 1 as [|doc doc' documents embedded (Hid & Hcontent & Hmeta) _ IH];
    intros Hcons Hsome Hflat; [reflexivity |].
  inversion Hcons as [|? ? Hc Hcons']; subst.
  inversion Hsome as [|? ? [given Hgiven] Hsome']; subst.
  inversion Hflat as [|? ? [sanitized Hs] Hflat']; subst.
  cbn [Client.add_rows map]. fold sanitizeMetadata. rewrite Hmeta, Hs.
  fold add_rows. rewrite (IH Hcons' Hsome' Hflat').
  unfold Ingest.row_for. fold sanitizeMetadata. rewrite Hs, Hid, Hcontent, Hgiven.
  rewrite <- Hcontent, (Hc given Hgiven). reflexivity.
Qed.

Lemma forallb_accepted_given generate documents :
  Forall (consistent generate) documents ->
  forallb (fun d => bool_decide (is_Some (doc_embedding d))) documents = true ->
  forallb (accepted generate) documents = true
  /\ Forall (fun d => is_Some (doc_embedding d)) documents.
Proof.
  induction 1 as [|doc documents Hdoc _ IH]; cbn; [split; [reflexivity | constructor] |].
  intros H. apply andb_prop in H as [Hgiven Hrest].
  apply bool_decide_eq_true in Hgiven. destruct (IH Hrest) as [Hall Hsome].
  rewrite (accepted_consistent generate doc Hdoc Hgiven), Hall.
  split; [reflexivity | constructor; assumption].
Qed.

(** A call on a ready client whose generator is [generate]: every
    document is stored when the generator accepts them all, none
    otherwise. *)
Lemma addDocuments_in_place_ready generate w records documents :
  ready w records ->
  embeddingFunction (this w) = Some generate ->
  Forall (consistent generate) documents ->
  Forall flattens documents ->
  exists embedded,
    Forall2 same_document documents embedded
    /\ Forall (consistent generate) embedded
    /\ addDocuments_in_place documents w
       = if forallb (accepted generate) documents
         then (Ok tt, embedded,
               with_records w (fold_left store_row (map (row_for generate) documents) records))
         else (Throw EmbeddingError, embedded, w).
Proof.
  intros Hready Hgen Hcons Hflat. pose proof Hready as [Hini Hhandle Hup Hrecords].
  unfold Ingest.addDocuments_in_place.
  rewrite (ensureInitialized_ready w Hini), Hhandle.
  destruct documents as [|doc documents].
  { exists []. split; [constructor |]. split; [constructor |].
    cbn. now rewrite (with_records_same w records Hready). }
  set (docs := doc :: documents) in *.
  assert (Hstore : forall rows,
            call_server (collection_add (collectionName (this w)) rows) w
            = (Ok tt, with_records w (fold_left store_row rows records))).
  { intros rows. unfold call_server, collection_add. now rewrite Hup, Hrecords. }
  destruct (forallb (fun d => bool_decide (is_Some (doc_embedding d))) docs) eqn:Hgiven.
  - destruct (forallb_accepted_given generate docs Hcons Hgiven) as [Hall Hsome].
    exists docs. split; [apply same_document_refl |]. split; [exact Hcons |].
    rewrite Hall. fold add_rows.
    rewrite (add_rows_row_for generate docs docs (same_document_refl docs) Hcons Hsome Hflat).
    now rewrite Hstore.
  - rewrite Hgen.
    destruct (assign_embeddings_spec generate docs Hcons)
      as (r & embedded & -> & Hsame & Hcons' & [(Hall & -> & Hsome)|(Hall & ->)]);
      exists embedded; (split; [exact Hsame |]); (split; [exact Hcons' |]); rewrite Hall.
    + fold add_rows.
      rewrite (add_rows_row_for generate docs embedded Hsame Hcons' Hsome Hflat).
      now rewrite Hstore.
    + reflexivity.
Qed.


(** *** The loops *)

Lemma same_document_rows generate documents embedded :
  Forall2 same_document documents embedded ->
  map (row_for generate) (List.filter (accepted generate) embedded)
  = map (row_for generate) (List.filter (accepted generate) documents)
  /\ (Forall flattens documents -> Forall flattens embedded).
Proof.
  induction 1 as [|doc doc' documents embedded (Hid & Hcontent & Hmeta) _ [IH1 IH2]].
  - split; [reflexivity | auto].
  - split.
    + assert (Hacc : accepted generate doc' = accepted generate doc)
        by (unfold accepted; now rewrite Hcontent).
      cbn [List.filter]. rewrite Hacc.
      destruct (accepted generate doc); [| exact IH1].
      cbn [map]. rewrite IH1. f_equal.
      unfold Ingest.row_for. now rewrite Hid, Hcontent, Hmeta.
    + intros Hflat. inversion Hflat as [|? ? [sanitized Hs] Hflat']; subst.
      constructor; [| now apply IH2].
      exists sanitized. now rewrite Hmeta.
Qed.

Lemma embeddingFunction_with_records w records :
  embeddingFunction (this (with_records w records)) = embeddingFunction (this w).
Proof. reflexivity. Qed.

Lemma add_individually_ready generate batch :
  forall w records n,
    ready w records ->
    embeddingFunction (this w) = Some generate ->
    Forall (consistent generate) batch ->
    Forall flattens batch ->
    add_individually batch n w
    = (Ok (n + length (List.filter (accepted generate) batch))%nat,
       with_records w
         (fold_left store_row
            (map (row_for generate) (List.filter (accepted generate) batch)) records)).
Proof.
  induction batch as [|doc batch IH]; intros w records n Hready Hgen Hcons Hflat.
  - cbn. unfold ret. now rewrite Nat.add_0_r, (with_records_same w records Hready).
  - inversion Hcons as [|? ? Hc Hcons']; subst.
    inversion Hflat as [|? ? Hf Hflat']; subst.
    cbn [Ingest.add_individually List.filter].
    destruct (addDocuments_in_place_ready generate w records [doc] Hready Hgen)
      as (embedded & _ & _ & ->); [repeat constructor; assumption .. |].
    cbn [forallb]. rewrite andb_true_r.
    destruct (accepted generate doc).
    + cbn [map fold_left length].
      rewrite (IH _ (store_row records (row_for generate doc)) (S n));
        [| now apply (with_records_ready w records) | exact Hgen | assumption ..].
      rewrite with_records_again. f_equal. f_equal. lia.
    + now rewrite (IH w records n).
Qed.

Lemma filter_all {A} (f : A -> bool) l : forallb f l = true -> List.filter f l = l.
Proof.
  induction l as [|x l IH]; cbn; [reflexivity |].
  intros H. apply andb_prop in H as [-> Hl]. now rewrite IH.
Qed.

Lemma add_in_batches_ready generate batches :
  forall w records batchNumber p,
    ready w records ->
    embeddingFunction (this w) = Some generate ->
    Forall (Forall (consistent generate)) batches ->
    Forall (Forall flattens) batches ->
    add_in_batches batches batchNumber p w
    = (Ok {| successCount :=
               successCount p
               + length (List.filter (accepted generate) (concat batches));
             failedBatches :=
               failedBatches p ++ failed_numbers generate batchNumber batches |},
       with_records w
         (fold_left store_row
            (map (row_for generate) (List.filter (accepted generate) (concat batches)))
            records)).
Proof.
  induction batches as [|batch batches IH];
    intros w records batchNumber p Hready Hgen Hcons Hflat.
  - cbn. unfold ret. rewrite Nat.add_0_r, app_nil_r, (with_records_same w records Hready).
    now destruct p.
  - inversion Hcons as [|? ? Hc Hcons']; subst.
    inversion Hflat as [|? ? Hf Hflat']; subst.
    cbn [Ingest.add_in_batches concat failed_numbers].
    rewrite List.filter_app, map_app, fold_left_app, length_app.
    destruct (addDocuments_in_place_ready generate w records batch Hready Hgen Hc Hf)
      as (embedded & Hsame & Hcons1 & ->).
    destruct (forallb (accepted generate) batch) eqn:Hall.
    + rewrite (filter_all _ _ Hall).
      rewrite (IH _ (fold_left store_row (map (row_for generate) batch) records));
        [| now apply (with_records_ready w records) | exact Hgen | assumption ..].
      cbn [successCount failedBatches app]. rewrite with_records_again.
      now rewrite Nat.add_assoc.
    + destruct (same_document_rows generate batch embedded Hsame) as [Hrows Hflat1].
      rewrite (add_individually_ready generate embedded w records (successCount p)
                 Hready Hgen Hcons1 (Hflat1 Hf)).
      rewrite Hrows.
      assert (Hlen : length (List.filter (accepted generate) embedded)
                     = length (List.filter (accepted generate) batch)).
      { rewrite <- (length_map (row_for generate)), Hrows. apply length_map. }
      rewrite Hlen.
      rewrite (IH _ (fold_left store_row
                       (map (row_for generate) (List.filter (accepted generate) batch))
                       records));
        [| now apply (with_records_ready w records) | exact Hgen | assumption ..].
      cbn [successCount failedBatches]. rewrite with_records_again, <- app_assoc.
      now rewrite Nat.add_assoc.
Qed.

(** X26. The storing loop of [ingestDocs], on an initialized client
    whose store is reachable and whose embedding function is [generate],
    for documents without embeddings, with metadata that can be
    flattened and with distinct ids not stored yet: the loop returns;
    exactly the documents for whose content [generate] answers are
    stored, each with its row, and [successCount] is their number;
    [failedBatches] lists the numbers of the batches of 50 that hold a
    document [generate] refuses; the records stored before are kept. *)
Theorem store_documents_recovers (w : World) (records : gmap string Stored)
    (generate : string -> option embedding) (documents : list VectorDocument) :
  ready w records ->
  embeddingFunction (this w) = Some generate ->
  Forall (fun doc => doc_embedding doc = None) documents ->
  Forall flattens documents ->
  NoDup (map doc_id documents) ->
  (forall doc, doc ∈ documents -> records !! doc_id doc = None) ->
  exists p w',
    store_documents documents w = (Ok p, w')
    /\ successCount p = length (List.filter (accepted generate) documents)
    /\ failedBatches p
       = failed_numbers generate 1 (batches (length documents) batchSize documents)
    /\ (forall doc, doc ∈ documents -> accepted generate doc = true ->
          stored_records w' !! doc_id doc = Some (stored_of_row (row_for generate doc)))
    /\ (forall doc, doc ∈ documents -> accepted generate doc = false ->
          stored_records w' !! doc_id doc = None)
    /\ (forall id, id ∉ map doc_id documents -> stored_records w' !! id = records !! id).
Proof.
  intros Hready Hgen Hnone Hflat Hnd Hfresh.
  assert (Hcons : Forall (consistent generate) documents).
  { eapply Forall_impl; [exact Hnone |]. intros doc Hdoc given. cbn beta in Hdoc. congruence. }
  unfold Ingest.store_documents.
  rewrite (add_in_batches_ready generate _ w records 1 _ Hready Hgen)
    by (apply batches_Forall; assumption).
  rewrite batches_concat by (unfold batchSize; lia).
  eexists _, _. split; [reflexivity |].
  cbn [successCount failedBatches app]. split; [reflexivity |]. split; [reflexivity |].
  rewrite stored_records_with_records.
  set (kept := List.filter (accepted generate) documents).
  assert (Hsub : kept `sublist_of` documents).
  { subst kept. clear. induction documents as [|doc l IH]; cbn; [constructor |].
    destruct (accepted generate doc); [now apply sublist_skip | now apply sublist_cons]. }
  assert (Hids : map add_id (map (row_for generate) kept) = map doc_id kept).
  { rewrite map_map. reflexivity. }
  assert (Hnd' : NoDup (map add_id (map (row_for generate) kept))).
  { rewrite Hids. eapply sublist_NoDup; [exact Hnd |]. now apply fmap_sublist. }
  destruct (fold_store_rows_lookup (map (row_for generate) kept) records Hnd') as [Hin Hout].
  assert (Hkept : forall doc, doc ∈ kept <-> doc ∈ documents /\ accepted generate doc = true).
  { intros doc. subst kept. rewrite !list_elem_of_In. apply filter_In. }
  split; [| split].
  - intros doc Hdoc Hacc.
    apply (Hin (row_for generate doc)).
    apply (list_elem_of_fmap_2 (row_for generate)). apply Hkept. auto.
  - intros doc Hdoc Hacc. rewrite Hout; [now apply Hfresh |].
    rewrite Hids. intros Hid. apply list_elem_of_fmap in Hid as (doc' & Hsame & Hdoc').
    apply Hkept in Hdoc' as [Hdoc' Hacc'].
    assert (doc = doc'); [| congruence].
    apply list_elem_of_lookup_1 in Hdoc as [i Hi].
    apply list_elem_of_lookup_1 in Hdoc' as [j Hj].
    assert (i = j).
    { apply (NoDup_lookup (map doc_id documents) i j (doc_id doc) Hnd).
      - change (map doc_id documents) with (doc_id <$> documents).
        now rewrite list_lookup_fmap, Hi.
      - change (map doc_id documents) with (doc_id <$> documents).
        rewrite list_lookup_fmap, Hj. cbn. now rewrite <- Hsame. }
    congruence.
  - intros id Hid. apply Hout. rewrite Hids. intros Hin'. apply Hid.
    apply list_elem_of_fmap in Hin' as (doc & -> & Hdoc).
    apply (list_elem_of_fmap_2 doc_id). now apply Hkept in Hdoc.
Qed.

End Script.

End IngestProofs.

(** ** Flattening twice: [sanitizeMetadata] on its own result *)

Module FlatteningProofs.
Import Js Store Sanitizer SanitizerProofs Client.

Section WithRuntime.

Variable Number_toString : Q -> string.
Variable Date_toString : Z -> string.
Variable Date_toISOString : Z -> string.

Local Abbreviation sanitizeMetadata :=
  (Sanitizer.sanitizeMetadata Number_toString Date_toString Date_toISOString).
Local Abbreviation entry_effect :=
  (entry_effect Number_toString Date_toString Date_toISOString).

Lemma entry_effect_scalar v x :
  entry_effect None v = Some x -> is_scalar x = true.
Proof.
  destruct v as [| | b | n | s | elems | [t|] | fields]; cbn; intros H;
    try discriminate H; injection H as <-; reflexivity.
Qed.

Lemma sanitizeMetadata_lookup metadata sanitized key :
  sanitizeMetadata metadata = Ok sanitized ->
  sanitized !! key
  = match metadata !! key with
    | Some v => entry_effect None v
    | None => None
    end.
Proof.
  unfold Sanitizer.sanitizeMetadata. intros Hrun.
  pose proof (sanitize_entries_spec Number_toString Date_toString Date_toISOString
                (map_to_list metadata) (NoDup_fst_map_to_list metadata) ∅) as Hspec.
  rewrite Hrun in Hspec. destruct Hspec as [Hin Hout].
  destruct (metadata !! key) as [v|] eqn:Hl.
  - apply elem_of_map_to_list in Hl. destruct (Hin key v Hl) as [_ ->].
    now rewrite lookup_empty.
  - rewrite Hout; [apply lookup_empty |].
    intros Hk. apply list_elem_of_fmap in Hk as ([k v] & -> & Hkv).
    apply elem_of_map_to_list in Hkv. cbn in Hl. congruence.
Qed.

Lemma scalar_round_trip v :
  is_scalar v = true -> value_of_scalar <$> scalar_of_value v = Some v.
Proof. destruct v; cbn; intros H; try discriminate H; reflexivity. Qed.


End WithRuntime.

End FlatteningProofs.

(** ** The documents to ingest: the loaded files, the memory bank and
    CLAUDE.md, as [ingestDocs] of scripts/ingest-docs.ts gathers them *)

Module Gathering.
Import Js Client Loader.

Inductive gathered :=
| Nothing_to_ingest                                  (* No documents found to ingest! *)
| Gathered (documents : list VectorDocument).

Section WithRuntime.

Variable Date_toISOString : Z -> string.

(** The chunks of memory-bank/CURRENT.md, from its content and
    modification time on: [None] when the chunker is still running after
    [sanitizedMemory.length + 1] iterations. *)
Definition memory_bank_documents (memoryContent : string) (mtime : Z)
    : option (list VectorDocument) :=
  let sanitizedMemory := ContentSanitizer.sanitizeContent memoryContent in
  match Chunker.createChunks (S (String.length sanitizedMemory)) sanitizedMemory
          CHUNK_SIZE CHUNK_OVERLAP with
  | None => None
  | Some memoryChunks =>
      Some (imap (fun index chunk =>
                    {| doc_id := "memory-bank-"
                                 +:+ IdentityAssigner.Number_toString (Z.of_nat index);
                       doc_content := chunk;
                       doc_metadata :=
                         list_to_map
                           [ ("source", VStr "memory-bank");
                             ("category", VStr "current-status");
                             ("filePath", VStr "memory-bank/CURRENT.md");
                             ("title", VStr "Current Development Status");
                             ("lastModified", VStr (Date_toISOString mtime));
                             ("priority", number 100);   (* High priority for current status *)
                             ("chunkIndex", number (Z.of_nat index));
                             ("totalChunks", number (Z.of_nat (length memoryChunks))) ];
                       doc_embedding := None |})
                 memoryChunks)
  end.

(** The chunks of CLAUDE.md. *)
Definition claude_md_documents (claudeContent : string) (mtime : Z)
    : option (list VectorDocument) :=
  let sanitizedClaude := ContentSanitizer.sanitizeContent claudeContent in
  match Chunker.createChunks (S (String.length sanitizedClaude)) sanitizedClaude
          CHUNK_SIZE CHUNK_OVERLAP with
  | None => None
  | Some claudeChunks =>
      Some (imap (fun index chunk =>
                    {| doc_id := "claude-md-"
                                 +:+ IdentityAssigner.Number_toString (Z.of_nat index);
                       doc_content := chunk;
                       doc_metadata :=
                         list_to_map
                           [ ("source", VStr "claude-md");
                             ("category", VStr "project-instructions");
                             ("filePath", VStr "CLAUDE.md");
                             ("title", VStr "Project Instructions for Claude Code");
                             ("lastModified", VStr (Date_toISOString mtime));
                             ("priority", number 100);   (* High priority for instructions *)
                             ("chunkIndex", number (Z.of_nat index));
                             ("totalChunks", number (Z.of_nat (length claudeChunks))) ];
                       doc_embedding := None |})
                 claudeChunks)
  end.

(** [documents] after the two [if (fs.existsSync(...))] blocks; a file
    that exists is given by its content and modification time. *)
Definition gather (loaded : list VectorDocument) (memoryBank claudeMd : option (string * Z))
    : option gathered :=
  match loaded with
  | [] => Some Nothing_to_ingest
  | _ :: _ =>
      (* Also load memory bank if exists *)
      match (match memoryBank with
             | Some (memoryContent, mtime) => memory_bank_documents memoryContent mtime
             | None => Some []
             end) with
      | None => None
      | Some fromMemory =>
          (* Also load CLAUDE.md if exists *)
          match (match claudeMd with
                 | Some (claudeContent, mtime) => claude_md_documents claudeContent mtime
                 | None => Some []
                 end) with
          | None => None
          | Some fromClaude => Some (Gathered (loaded ++ fromMemory ++ fromClaude))
          end
      end
  end.

End WithRuntime.

End Gathering.

Module GatheringProofs.
Import Js Client JsString Loader LoaderProofs IdentityAssigner ChunkKeys Gathering.

Lemma generateChunkId_hex filePath chunkIndex :
  Forall (fun c => is_hex c = true)
    (list_ascii_of_string (generateChunkId filePath chunkIndex)).
Proof.
  unfold generateChunkId, Sha256.sha256_hex.
  destruct (IdentityAssignerProofs.hex_of_regs_prefix
              (Sha256.digest
                 (Sha256.utf8 (filePath +:+ "-" +:+ Number_toString chunkIndex))))
    as (id & tail & _ & Hid & _ & _ & Hhex).
  cbv zeta. rewrite Hid. exact Hhex.
Qed.

(** The ids [prefix0], [prefix1], ... of the chunks of one file. *)
Definition numbered (prefix : string) (documents : list VectorDocument) : Prop :=
  forall i doc, documents !! i = Some doc ->
    doc_id doc = prefix +:+ Number_toString (Z.of_nat i).

Lemma append_inv_head (p a b : string) : p +:+ a = p +:+ b -> a = b.
Proof.
  induction p as [|c p IH]; [trivial |].
  change (String c (p +:+ a) = String c (p +:+ b) -> a = b).
  intros [= H]. now apply IH.
Qed.

Lemma numbered_NoDup prefix documents :
  numbered prefix documents -> NoDup (map doc_id documents).
Proof.
  intros Hnum. apply NoDup_alt. intros i j id Hi Hj.
  change (map doc_id documents) with (doc_id <$> documents) in Hi, Hj.
  rewrite list_lookup_fmap in Hi, Hj.
  destruct (documents !! i) as [di|] eqn:Ei; [| discriminate Hi].
  destruct (documents !! j) as [dj|] eqn:Ej; [| discriminate Hj].
  cbn in Hi, Hj. injection Hi as Hi. injection Hj as Hj.
  rewrite (Hnum i di Ei) in Hi. rewrite (Hnum j dj Ej) in Hj.
  rewrite <- Hj in Hi. apply append_inv_head, Number_toString_inj in Hi. lia.
Qed.

Lemma numbered_hyphen prefix documents doc :
  In "-"%char (list_ascii_of_string prefix) ->
  numbered prefix documents -> doc ∈ documents ->
  In "-"%char (list_ascii_of_string (doc_id doc)).
Proof.
  intros Hp Hnum Hin. apply list_elem_of_lookup_1 in Hin as [i Hi].
  rewrite (Hnum i doc Hi), list_ascii_of_append. apply in_or_app. now left.
Qed.

Lemma numbered_first prefix documents doc c rest :
  prefix = String c rest -> numbered prefix documents -> doc ∈ documents ->
  exists tail, doc_id doc = String c tail.
Proof.
  intros -> Hnum Hin. apply list_elem_of_lookup_1 in Hin as [i Hi].
  rewrite (Hnum i doc Hi). eexists. reflexivity.
Qed.

Lemma hex_no_hyphen id :
  Forall (fun c => is_hex c = true) (list_ascii_of_string id) ->
  ~ In "-"%char (list_ascii_of_string id).
Proof.
  intros H Hin. rewrite Forall_forall in H.
  apply list_elem_of_In in Hin. specialize (H _ Hin). discriminate.
Qed.

Section WithRuntime.

Variable Date_toISOString : Z -> string.

Local Abbreviation memory_bank_documents := (memory_bank_documents Date_toISOString).
Local Abbreviation claude_md_documents := (claude_md_documents Date_toISOString).
Local Abbreviation gather := (gather Date_toISOString).

Lemma memory_bank_documents_run memoryContent mtime :
  exists documents,
    memory_bank_documents memoryContent mtime = Some documents
    /\ (0 < length documents)%nat
    /\ numbered "memory-bank-" documents.
Proof.
  unfold Gathering.memory_bank_documents. cbv zeta.
  destruct (chunks_of_text (ContentSanitizer.sanitizeContent memoryContent))
    as (chunks & -> & Hmany & _).
  eexists. split; [reflexivity |]. split; [now rewrite length_imap |].
  intros i doc Hi. rewrite list_lookup_imap in Hi.
  destruct (chunks !! i); [| discriminate Hi]. cbn in Hi. now injection Hi as <-.
Qed.

Lemma claude_md_documents_run claudeContent mtime :
  exists documents,
    claude_md_documents claudeContent mtime = Some documents
    /\ (0 < length documents)%nat
    /\ numbered "claude-md-" documents.
Proof.
  unfold Gathering.claude_md_documents. cbv zeta.
  destruct (chunks_of_text (ContentSanitizer.sanitizeContent claudeContent))
    as (chunks & -> & Hmany & _).
  eexists. split; [reflexivity |]. split; [now rewrite length_imap |].
  intros i doc Hi. rewrite list_lookup_imap in Hi.
  destruct (chunks !! i); [| discriminate Hi]. cbn in Hi. now injection Hi as <-.
Qed.

(** X28. With no loaded document [ingestDocs] gathers nothing, even
    when the memory bank and CLAUDE.md exist.  Otherwise the documents
    are the loaded ones followed by the chunks of the memory bank and
    those of CLAUDE.md; a file that exists gives at least one chunk
    (also when it is empty), a missing one none; the chunks have the ids
    [memory-bank-0], [memory-bank-1], ... and [claude-md-0], ...; and
    when the loaded documents have distinct ids made by
    [generateChunkId], all ids are distinct. *)
Theorem gather_keeps_ids_apart (loaded : list VectorDocument)
    (memoryBank claudeMd : option (string * Z)) :
  (loaded = [] -> gather loaded memoryBank claudeMd = Some Nothing_to_ingest)
  /\ (loaded <> [] ->
      exists fromMemory fromClaude,
        gather loaded memoryBank claudeMd
        = Some (Gathered (loaded ++ fromMemory ++ fromClaude))
        /\ match memoryBank with
            | Some _ => (0 < length fromMemory)%nat
            | None => fromMemory = []
            end
        /\ match claudeMd with
            | Some _ => (0 < length fromClaude)%nat
            | None => fromClaude = []
            end
        /\ numbered "memory-bank-" fromMemory
        /\ numbered "claude-md-" fromClaude
        /\ (NoDup (map doc_id loaded) ->
            Forall (fun doc => exists filePath chunkIndex,
                      doc_id doc = generateChunkId filePath chunkIndex) loaded ->
            NoDup (map doc_id (loaded ++ fromMemory ++ fromClaude)))).
Proof.
  split; [intros ->; reflexivity |].
  intros Hne.
  assert (Hm : exists fromMemory,
             match memoryBank with
             | Some (memoryContent, mtime) => memory_bank_documents memoryContent mtime
             | None => Some []
             end = Some fromMemory
             /\ match memoryBank with
            | Some _ => (0 < length fromMemory)%nat
            | None => fromMemory = []
            end
             /\ numbered "memory-bank-" fromMemory).
  { destruct memoryBank as [[content mtime]|].
    - destruct (memory_bank_documents_run content mtime) as (documents & H1 & H2 & H3).
      exists documents. repeat split; assumption.
    - exists []. repeat split. intros i doc Hi. discriminate Hi. }
  assert (Hc : exists fromClaude,
             match claudeMd with
             | Some (claudeContent, mtime) => claude_md_documents claudeContent mtime
             | None => Some []
             end = Some fromClaude
             /\ match claudeMd with
            | Some _ => (0 < length fromClaude)%nat
            | None => fromClaude = []
            end
             /\ numbered "claude-md-" fromClaude).
  { destruct claudeMd as [[content mtime]|].
    - destruct (claude_md_documents_run content mtime) as (documents & H1 & H2 & H3).
      exists documents. repeat split; assumption.
    - exists []. repeat split. intros i doc Hi. discriminate Hi. }
  destruct Hm as (fromMemory & Hm & Hmlen & Hmnum).
  destruct Hc as (fromClaude & Hc & Hclen & Hcnum).
  exists fromMemory, fromClaude.
  split.
  { unfold Gathering.gather. destruct loaded as [|doc loaded]; [contradiction |].
    now rewrite Hm, Hc. }
  split; [exact Hmlen |]. split; [exact Hclen |].
  split; [exact Hmnum |]. split; [exact Hcnum |].
  intros Hnd Hids. rewrite !map_app.
  apply NoDup_app. split; [exact Hnd |]. split.
  - intros id Hin Hin'. apply list_elem_of_fmap in Hin as (doc & -> & Hdoc).
    rewrite Forall_forall in Hids.
    destruct (Hids doc Hdoc) as (filePath & chunkIndex & Hid).
    apply (hex_no_hyphen (doc_id doc)); [rewrite Hid; apply generateChunkId_hex |].
    apply elem_of_app in Hin' as [Hin'|Hin'];
      apply list_elem_of_fmap in Hin' as (doc' & -> & Hdoc').
    + apply (numbered_hyphen "memory-bank-" fromMemory);
        [cbn; tauto | exact Hmnum | exact Hdoc'].
    + apply (numbered_hyphen "claude-md-" fromClaude);
        [cbn; tauto | exact Hcnum | exact Hdoc'].
  - apply NoDup_app. split; [now apply (numbered_NoDup "memory-bank-") |].
    split; [| now apply (numbered_NoDup "claude-md-")].
    intros id Hin Hin'.
    apply list_elem_of_fmap in Hin as (doc & -> & Hdoc).
    apply list_elem_of_fmap in Hin' as (doc' & Hsame & Hdoc').
    destruct (numbered_first "memory-bank-" fromMemory doc _ _ eq_refl Hmnum Hdoc)
      as [tail Htail].
    destruct (numbered_first "claude-md-" fromClaude doc' _ _ eq_refl Hcnum Hdoc')
      as [tail' Htail'].
    rewrite Htail, Htail' in Hsame. discriminate Hsame.
Qed.

End WithRuntime.

End GatheringProofs.

(** ** The operations on concrete files and collections *)

Module Scenarios.
Import Js Store Client Runtime Examples.
Import Loader Operations OperationsProofs Ingest Gathering.

(** The client of [Examples.world] after [initialize]. *)
Definition running : World :=
  {| this := {| collection := Some "project-docs"; collectionName := "project-docs";
                embeddingFunction := Some embed; isInitialized := true |};
     server := store; files := ∅ |}.

(** The same client without an embedding function, next to a backup of
    one document. *)
Definition note : VectorDocument :=
  {| doc_id := "d4"; doc_content := "zeta eta theta";
     doc_metadata := list_to_map [ ("source", VStr "docs"); ("category", VStr "guides") ];
     doc_embedding := None |}.

Definition backup_of_note : string :=
  "{}" +:+ line_feed +:+ stringify (document_record note).

Definition without_embedder (text : string) : World :=
  {| this := {| collection := Some "project-docs"; collectionName := "project-docs";
                embeddingFunction := None; isInitialized := true |};
     server := store; files := {[ "backup.jsonl" := text ]} |}.

(** A generator that has no embedding for the empty text. *)
Definition picky (text : string) : option embedding :=
  if String.eqb text "" then None else embed text.

Definition with_picky_embedder : World :=
  {| this := {| collection := Some "project-docs"; collectionName := "project-docs";
                embeddingFunction := Some picky; isInitialized := true |};
     server := store; files := ∅ |}.

Definition blank_note : VectorDocument :=
  {| doc_id := "e5"; doc_content := ""; doc_metadata := ∅; doc_embedding := None |}.

Definition last_note : VectorDocument :=
  {| doc_id := "f6"; doc_content := "iota"; doc_metadata := ∅; doc_embedding := None |}.

Definition project : string := "/home/me/project".

Definition guide : string := "/home/me/project/docs/guides/setup.md".

Definition guide_body : string :=
  "# Setup" +:+ line_feed +:+ "Install it.".

Definition guide_frontmatter : gmap string value :=
  list_to_map [ ("author", VStr "me"); ("tags", VArray [VStr "howto"]);
                ("related", VArray [VStr "faq"]) ].

Definition process_guide : option file_result :=
  process_file (Classifier.Posix.relative project) "/" Titles.Posix.basename project
    toISOString guide guide_frontmatter guide_body clock.

Lemma running_ready : ready running records.
Proof. split; reflexivity. Qed.

Lemma without_embedder_ready text : ready (without_embedder text) records.
Proof. split; reflexivity. Qed.

Lemma with_picky_embedder_ready : ready with_picky_embedder records.
Proof. split; reflexivity. Qed.

Ltac decided := refine (bool_decide_unpack _ _); vm_compute; exact I.

Ltac listed := apply list_elem_of_In; cbn [In]; repeat first [left; reflexivity | right].

Lemma new_ids (documents : list VectorDocument) :
  forallb (fun doc => bool_decide (records !! doc_id doc = None)) documents = true ->
  forall doc, doc ∈ documents -> records !! doc_id doc = None.
Proof.
  intros Hall doc Hin. apply list_elem_of_In in Hin.
  rewrite forallb_forall in Hall. specialize (Hall doc Hin).
  now apply bool_decide_eq_true in Hall.
Qed.

(** X8 on a guide of two lines: one document, holding both lines
    without the line feed. *)
Lemma process_file_documents_witness :
  exists documents,
    process_guide = Some (Processed documents)
    /\ map doc_content documents = ["# SetupInstall it."].
Proof.
  destruct (LoaderProofs.process_file_documents (Classifier.Posix.relative project) "/"
              Titles.Posix.basename project toISOString guide guide_frontmatter
              guide_body clock)
    as (documents & Hrun & _ & Hone & _); [reflexivity |].
  exists documents. split; [exact Hrun |].
  rewrite Hone; [vm_compute; reflexivity | vm_compute; discriminate].
Defined.

(** X9 on that guide. *)
Lemma process_file_metadata_witness :
  exists documents doc,
    process_guide = Some (Processed documents)
    /\ documents !! 0%nat = Some doc
    /\ doc_metadata doc !! "author" = Some (VStr "me")
    /\ doc_metadata doc !! "title" = Some (VStr "Setup")
    /\ doc_metadata doc !! "tags" = Some (VArray [VStr "howto"])
    /\ doc_metadata doc !! "category" = Some (VStr "guides")
    /\ doc_metadata doc !! "filePath" = Some (VStr "docs/guides/setup.md")
    /\ doc_metadata doc !! "lastModified" = Some (VStr "2023-11-14T22:13:20.000Z").
Proof.
  destruct process_guide as [[|[|doc rest]]|] eqn:Hrun;
    try (vm_compute in Hrun; discriminate Hrun).
  exists (doc :: rest), doc. split; [reflexivity |]. split; [reflexivity |].
  destruct (LoaderProofs.process_file_metadata (Classifier.Posix.relative project) "/"
              Titles.Posix.basename project toISOString guide guide_frontmatter
              guide_body clock (doc :: rest) 0%nat doc Hrun eq_refl)
    as (Hkept & (extracted & Hextracted & Htitle) & Htags & _ & Hcategory & Hpath
        & Hmodified & _).
  split; [apply Hkept; [discriminate | discriminate | reflexivity | reflexivity] |].
  split.
  { rewrite Htitle. vm_compute in Hextracted. injection Hextracted as <-.
    reflexivity. }
  split; [rewrite Htags; reflexivity |].
  split; [rewrite Hcategory; [vm_compute; reflexivity | intros v Hv; discriminate Hv] |].
  split; [rewrite Hpath; [vm_compute; reflexivity | intros v Hv; discriminate Hv] |].
  rewrite Hmodified; [vm_compute; reflexivity | intros v Hv; discriminate Hv].
Defined.

(** X10 on a file that holds one incomplete escape and nothing else. *)
Lemma process_file_empty_document_witness :
  exists doc,
    process_file (Classifier.Posix.relative project) "/" Titles.Posix.basename project
      toISOString guide ∅ (String ContentSanitizer.backslash "x") clock
    = Some (Processed [doc])
    /\ doc_content doc = "".
Proof.
  destruct (LoaderProofs.process_file_empty_document (Classifier.Posix.relative project)
              "/" Titles.Posix.basename project toISOString guide ∅
              (String ContentSanitizer.backslash "x") clock)
    as (doc & Hrun & _ & Hcontent); [reflexivity | vm_compute; reflexivity |].
  exists doc. split; assumption.
Defined.

(** X12 on the client of [Examples.world]. *)
Lemma initialize_connects_once_witness :
  exists w',
    initialize world = (Ok tt, w')
    /\ isInitialized (this w') = true
    /\ initialize w' = (Ok tt, w').
Proof.
  destruct (initialize world) as [r w'] eqn:Hrun.
  destruct (initialize_connects_once world r w' Hrun)
    as (_ & _ & Hok & _ & Hreachable).
  assert (r = Ok tt) as -> by (apply Hreachable; reflexivity).
  destruct (Hok eq_refl) as (Hinitialized & Hagain & _).
  exists w'. split; [reflexivity |]. split; assumption.
Defined.


(** X15: without an embedding function the note is refused and nothing
    changes. *)
Lemma addDocuments_all_or_nothing_witness :
  exists e,
    addDocuments print_number toISOString toISOString [note] (without_embedder "")
    = (Throw e, without_embedder "").
Proof.
  destruct (addDocuments print_number toISOString toISOString [note]
              (without_embedder "")) as [[[]|e] w'] eqn:Hrun;
    [vm_compute in Hrun; discriminate Hrun |].
  destruct (addDocuments_all_or_nothing print_number toISOString toISOString [note]
              (without_embedder "") e w' Hrun) as [_ Hsame].
  exists e. f_equal. apply Hsame. reflexivity.
Defined.

(** X16: the note is stored beside the three records. *)
Lemma addDocuments_stores_witness :
  exists w' stored,
    addDocuments print_number toISOString toISOString [note] running = (Ok tt, w')
    /\ stored_records w' !! "d4" = Some stored
    /\ stored_document stored = Some "zeta eta theta"
    /\ stored_records w' !! "a1" = Some record_a.
Proof.
  destruct (addDocuments print_number toISOString toISOString [note] running)
    as [[[]|e] w'] eqn:Hrun; [| vm_compute in Hrun; discriminate Hrun].
  destruct (addDocuments_stores print_number toISOString toISOString running records
              [note] w' running_ready) as (Hstored & Hothers & _);
    [decided | apply new_ids; vm_compute; reflexivity | exact Hrun |].
  destruct (Hstored note) as (stored & Hlookup & Hdocument & _); [listed |].
  exists w', stored. split; [reflexivity |]. split; [exact Hlookup |].
  split; [exact Hdocument |].
  rewrite Hothers; [vm_compute; reflexivity | decided].
Defined.

(** X17: deleting one of the three records. *)
Lemma deleteDocuments_removes_witness :
  exists w',
    deleteDocuments ["a1"] running = (Ok tt, w')
    /\ stored_records w' !! "a1" = None
    /\ stored_records w' !! "b2" = Some record_b.
Proof.
  destruct (deleteDocuments_removes ["a1"] running records running_ready)
    as (w' & Hrun & Hgone & Hkept & _).
  exists w'. split; [exact Hrun |].
  split; [apply Hgone; decided |].
  rewrite Hkept; [vm_compute; reflexivity | decided].
Defined.

(** X18: adding the note and deleting it again. *)
Lemma add_then_delete_restores_witness :
  exists w1,
    addDocuments print_number toISOString toISOString [note] running = (Ok tt, w1)
    /\ deleteDocuments ["d4"] w1 = (Ok tt, running).
Proof.
  destruct (addDocuments print_number toISOString toISOString [note] running)
    as [[[]|e] w1] eqn:Hrun; [| vm_compute in Hrun; discriminate Hrun].
  exists w1. split; [reflexivity |].
  apply (add_then_delete_restores print_number toISOString toISOString running
           records [note] w1 running_ready);
    [decided | apply new_ids; vm_compute; reflexivity | exact Hrun].
Defined.


(** X20 on the three records: 29 characters in three documents. *)
Lemma getStats_average_witness :
  exists stats,
    getStats print_number toISOString clock running = (Ok stats, running)
    /\ averageChunkSize stats = 10.
Proof.
  destruct (getStats_average print_number toISOString clock running records
              running_ready) as (stats & Hrun & _ & Hbounds).
  exists stats. split; [exact Hrun |].
  destruct Hbounds as [_ Hbounds]; [discriminate |].
  replace (Z.of_nat (length (sample_of records))) with 3 in Hbounds
    by (vm_compute; reflexivity).
  replace (total_size (sample_of records)) with 29 in Hbounds
    by (vm_compute; reflexivity).
  lia.
Defined.

(** X21: no file of that name. *)
Lemma importBackup_missing_or_empty_witness :
  importBackup print_number toISOString toISOString parse "nowhere.jsonl" true running
  = (Throw (JsError "Backup file not found: nowhere.jsonl"), running).
Proof.
  destruct (importBackup_missing_or_empty print_number toISOString toISOString parse
              running "nowhere.jsonl" true) as (e & Hrun & _ & Hsame & Herror);
    [left; reflexivity |].
  rewrite Hrun, (Hsame eq_refl).
  destruct (Herror running eq_refl) as [-> _]; reflexivity.
Defined.

(** X22: the three records are gone although the import failed. *)
Lemma importBackup_clears_before_embedding_witness :
  exists w',
    importBackup print_number toISOString toISOString parse "backup.jsonl" true
      (without_embedder backup_of_note)
    = (Throw (JsError "Embeddings required but no embedding function provided"), w')
    /\ stored_records (without_embedder backup_of_note) = records
    /\ stored_records w' = ∅.
Proof.
  destruct (importBackup_clears_before_embedding print_number toISOString toISOString
              parse (without_embedder backup_of_note) records "backup.jsonl"
              backup_of_note "{}" [stringify (document_record note)] (VObject ∅) [note])
    as (Hrun & Hempty & _).
  - apply without_embedder_ready.
  - reflexivity.
  - reflexivity.
  - vm_compute. reflexivity.
  - vm_compute. reflexivity.
  - discriminate.
  - constructor; [| constructor]. split; [vm_compute; reflexivity | reflexivity].
  - discriminate.
  - eexists. split; [exact Hrun |]. split; [reflexivity | exact Hempty].
Defined.

(** X23: a backup that holds a header only. *)
Lemma importBackup_skips_first_line_witness :
  importBackup print_number toISOString toISOString parse "backup.jsonl" false
    (without_embedder "{}")
  = (Ok tt, without_embedder "{}").
Proof.
  apply (importBackup_skips_first_line print_number toISOString toISOString parse
           (without_embedder "{}") records "backup.jsonl" "{}" "{}" (VObject ∅)).
  - apply without_embedder_ready.
  - reflexivity.
  - vm_compute. reflexivity.
  - vm_compute. reflexivity.
  - discriminate.
Defined.

(** X24 on the client of [Examples.world]. *)
Lemma exportBackup_writes_one_file_witness :
  exists w',
    exportBackup print_number toISOString clock stringify "backup.jsonl" world = (Ok tt, w')
    /\ is_Some (files w' !! "backup.jsonl")
    /\ records_of w' "project-docs" = records.
Proof.
  destruct (exportBackup print_number toISOString clock stringify "backup.jsonl" world)
    as [[[]|e] w'] eqn:Hrun; [| vm_compute in Hrun; discriminate Hrun].
  destruct (exportBackup_writes_one_file print_number toISOString clock stringify world
              "backup.jsonl" (Ok tt) w' Hrun) as (Hrecords & _ & _ & Hwritten).
  exists w'. split; [reflexivity |]. split; [now apply Hwritten |].
  rewrite Hrecords. reflexivity.
Defined.

(** X25 on two chunks of one file. *)
Lemma chunk_key_injective_witness :
  "docs/a.md" = "docs/a.md" /\ 3 = 3.
Proof.
  apply (ChunkKeys.chunk_key_injective "docs/a.md" "docs/a.md" 3 3);
    [lia | lia | reflexivity].
Defined.

(** X26: a batch of three documents, one of them without text. *)
Lemma store_documents_recovers_witness :
  exists p w',
    store_documents print_number toISOString toISOString [note; blank_note; last_note]
      with_picky_embedder = (Ok p, w')
    /\ successCount p = 2%nat
    /\ failedBatches p = [1%nat]
    /\ is_Some (stored_records w' !! "d4")
    /\ stored_records w' !! "e5" = None
    /\ is_Some (stored_records w' !! "f6").
Proof.
  destruct (IngestProofs.store_documents_recovers print_number toISOString toISOString
              with_picky_embedder records picky [note; blank_note; last_note]
              with_picky_embedder_ready eq_refl)
    as (p & w' & Hrun & Hcount & Hfailed & Hstored & Hrefused & _).
  - repeat constructor.
  - repeat constructor; eexists; vm_compute; reflexivity.
  - decided.
  - apply new_ids. vm_compute. reflexivity.
  - exists p, w'. split; [exact Hrun |].
    split; [rewrite Hcount; vm_compute; reflexivity |].
    split; [rewrite Hfailed; vm_compute; reflexivity |].
    split; [eexists; apply (Hstored note); [listed | vm_compute; reflexivity] |].
    split; [apply (Hrefused blank_note); [listed | vm_compute; reflexivity] |].
    eexists. apply (Hstored last_note); [listed | vm_compute; reflexivity].
Defined.


(** X28: one loaded chunk and a memory bank of one line, no CLAUDE.md. *)
Lemma gather_keeps_ids_apart_witness :
  let loaded :=
    [ {| doc_id := IdentityAssigner.generateChunkId guide 0; doc_content := "Install it.";
         doc_metadata := ∅; doc_embedding := None |} ] in
  exists fromMemory,
    gather toISOString loaded (Some ("Status: green", clock)) None
    = Some (Gathered (loaded ++ fromMemory))
    /\ (0 < length fromMemory)%nat
    /\ NoDup (map doc_id (loaded ++ fromMemory)).
Proof.
  intros loaded.
  destruct (GatheringProofs.gather_keeps_ids_apart toISOString loaded
              (Some ("Status: green", clock)) None) as [_ Hgathered].
  destruct Hgathered as (fromMemory & fromClaude & Hrun & Hmemory & -> & _ & _ & Hids);
    [discriminate |].
  rewrite app_nil_r in Hrun, Hids.
  exists fromMemory. split; [exact Hrun |]. split; [exact Hmemory |].
  apply Hids; [repeat constructor; apply not_elem_of_nil |].
  repeat constructor. eexists. eexists. reflexivity.
Defined.

End Scenarios.
